(** * PowerTrim: segment store, undo/redo commands and export engine

    A shallow embedding of [PowerTrimGUI.py] (segment model, command
    pattern, undo manager, merge handler, export worker, and the handlers
    that delete, mark, edit, import, export and seek) and of
    [powertrim_engine.py] (file-name sanitising, output templates, track
    mapping, trimming progress and the export job), with the properties
    of the specification stated over these definitions, followed by
    further properties of the same code.

    Conventions.
    - A Python [str] is a Rocq [string] holding its UTF-8 bytes.
    - A Python [int] is a [Z]; a Python [float] is the rational [Q] it
      stands for and its arithmetic is exact, up to the magnitude where
      floats become infinite.
    - A Python [list] is a [list] in the same order; [append] adds at the
      end and [pop] removes from the end.
    - An exception is a value of [exn]; a call that may raise returns a
      [result]. *)

From Stdlib Require Import List String Ascii ZArith Lia Bool Arith.
From Stdlib Require Import QArith Qround DecimalString DecimalPos DecimalNat.
From Stdlib Require Import Permutation Sorted.
Import ListNotations.
Open Scope string_scope.
Open Scope list_scope.
Open Scope Z_scope.

(* ===================================================================== *)
(** ** Python values, exceptions and a small error monad *)
(* ===================================================================== *)

Inductive exn : Type :=
| ValueError (msg : string)
| KeyError (key : string)
| IndexError (msg : string)
| AttributeError (msg : string)
| TypeError (msg : string)
| OverflowError (msg : string)
| RuntimeError (msg : string)
| FileNotFoundError (msg : string)
| ZeroDivisionError (msg : string).

Inductive result (A : Type) : Type :=
| Ok (a : A)
| Raise (e : exn).
Arguments Ok {A} a.
Arguments Raise {A} e.

Definition bind {A B : Type} (r : result A) (k : A -> result B) : result B :=
  match r with
  | Ok a => k a
  | Raise e => Raise e
  end.

Notation "x <- r ;; k" := (bind r (fun x => k))
  (at level 61, r at next level, right associativity).
Notation "' p <- r ;; k" := (bind r (fun p => k))
  (at level 61, p pattern, r at next level, right associativity).

Definition is_value_error {A : Type} (r : result A) : bool :=
  match r with Raise (ValueError _) => true | _ => false end.

(** [str(n)] and [f"{n}"] for a Python int. *)
Definition str_of_Z (z : Z) : string := NilZero.string_of_int (Z.to_int z).
Definition str_of_nat (n : nat) : string := NilZero.string_of_uint (Nat.to_uint n).

(* ===================================================================== *)
(** ** Python list primitives *)
(* ===================================================================== *)

Module PyList.
Section Ops.
Context {A : Type}.

Definition len (l : list A) : Z := Z.of_nat (List.length l).

(** [l[i]], with Python's negative indices and [IndexError]. *)
Definition getitem (l : list A) (i : Z) : result A :=
  let j := if i <? 0 then i + len l else i in
  if (0 <=? j) && (j <? len l) then
    match nth_error l (Z.to_nat j) with
    | Some x => Ok x
    | None => Raise (IndexError "list index out of range")
    end
  else Raise (IndexError "list index out of range").

(** [l.insert(i, x)]: a negative index counts from the end, and an index
    beyond either end is clamped. *)
Definition insert (i : Z) (x : A) (l : list A) : list A :=
  let j := if i <? 0 then Z.max 0 (i + len l) else Z.min i (len l) in
  firstn (Z.to_nat j) l ++ x :: skipn (Z.to_nat j) l.

(** [del l[n]] for an index already known to be in range. *)
Definition delete_nth (n : nat) (l : list A) : list A :=
  firstn n l ++ skipn (S n) l.

(** [l.pop()] on a non-empty list: the list without its last element,
    and that element. *)
Definition pop (l : list A) : option (list A * A) :=
  match rev l with
  | [] => None
  | x :: r => Some (rev r, x)
  end.

(** [sorted(l, key=...)] / [l.sort(key=...)]: a stable sort, here by
    insertion; [leb a b] is [key a <= key b]. *)
Fixpoint insert_sorted (leb : A -> A -> bool) (x : A) (l : list A) : list A :=
  match l with
  | [] => [x]
  | y :: r => if leb y x then y :: insert_sorted leb x r else x :: l
  end.

Definition sorted (leb : A -> A -> bool) (l : list A) : list A :=
  fold_left (fun acc x => insert_sorted leb x acc) l [].

(** The order a boolean comparison decides. *)
Definition le (leb : A -> A -> bool) (a b : A) : Prop := leb a b = true.

End Ops.
End PyList.

(* ===================================================================== *)
(** ** Python string primitives *)
(* ===================================================================== *)

Module PyStr.

Definition chr (n : nat) : ascii := ascii_of_nat n.

Definition is_digit (c : ascii) : bool :=
  (48 <=? nat_of_ascii c)%nat && (nat_of_ascii c <=? 57)%nat.

Definition digit_value (c : ascii) : Z := Z.of_nat (nat_of_ascii c) - 48.

(** [s.lower()] on the ASCII letters; bytes of other characters are
    left as they are. *)
Definition lower_char (c : ascii) : ascii :=
  let n := nat_of_ascii c in
  if (65 <=? n)%nat && (n <=? 90)%nat then ascii_of_nat (n + 32) else c.

Fixpoint lower (s : string) : string :=
  match s with
  | EmptyString => EmptyString
  | String c r => String (lower_char c) (lower r)
  end.

(** [s.replace(old, new)] for a non-empty [old]: occurrences are replaced
    from left to right and do not overlap; [skip] counts the bytes of a
    matched occurrence that are still to be passed over. *)
Fixpoint replace_from (old new : string) (skip : nat) (s : string) : string :=
  match s with
  | EmptyString => EmptyString
  | String c r =>
      match skip with
      | S k => replace_from old new k r
      | O =>
          if String.prefix old s
          then (new ++ replace_from old new (String.length old - 1) r)%string
          else String c (replace_from old new 0 r)
      end
  end.

Definition replace (old new s : string) : string := replace_from old new 0 s.

(** [re.sub(r'[...]', repl, s)] for a class of single bytes and a
    one-byte replacement. *)
Fixpoint sub_class (in_class : ascii -> bool) (repl : ascii) (s : string) : string :=
  match s with
  | EmptyString => EmptyString
  | String c r =>
      String (if in_class c then repl else c) (sub_class in_class repl r)
  end.

Fixpoint contains_char (p : ascii -> bool) (s : string) : bool :=
  match s with
  | EmptyString => false
  | String c r => p c || contains_char p r
  end.

(** [sub in s] for strings. *)
Fixpoint contains (sub s : string) : bool :=
  String.prefix sub s ||
  match s with
  | EmptyString => false
  | String _ r => contains sub r
  end.

Definition snoc (s : string) (c : ascii) : string :=
  (s ++ String c EmptyString)%string.

(** [s.split(sep)] for a one-byte separator. *)
Fixpoint split_on (sep : ascii) (cur : string) (s : string) : list string :=
  match s with
  | EmptyString => [cur]
  | String c r =>
      if Ascii.eqb c sep then cur :: split_on sep EmptyString r
      else split_on sep (snoc cur c) r
  end.

Definition split (sep : ascii) (s : string) : list string :=
  split_on sep EmptyString s.

Fixpoint all_digits (s : string) : bool :=
  match s with
  | EmptyString => true
  | String c r => is_digit c && all_digits r
  end.

(** The decimal digits of Unicode 14.0 (the table of Python 3.11), given
    by the digit zero of each script: every run is ten code points long
    and in order. *)
Definition decimal_zeros : list Z :=
  [48; 1632; 1776; 1984; 2406; 2534; 2662; 2790; 2918; 3046; 3174; 3302;
   3430; 3558; 3664; 3792; 3872; 4160; 4240; 6112; 6160; 6470; 6608; 6784;
   6800; 6992; 7088; 7232; 7248; 42528; 43216; 43264; 43472; 43504; 43600;
   44016; 65296; 66720; 68912; 69734; 69872; 69942; 70096; 70384; 70736;
   70864; 71248; 71360; 71472; 71904; 72016; 72784; 73040; 73120; 92768;
   92864; 93008; 120782; 120792; 120802; 120812; 120822; 123200; 123632;
   125264; 130032].

Definition is_decimal (code_point : Z) : bool :=
  existsb (fun zero => (zero <=? code_point) && (code_point <? zero + 10))
          decimal_zeros.

Definition byte (c : ascii) : Z := Z.of_nat (nat_of_ascii c).

Definition is_continuation (b : Z) : bool := (128 <=? b) && (b <? 192).

(** Every character of the string is a decimal digit, ASCII or not: the
    test by which [str.format] reads the name of a field as a position
    (true of the empty name).  The string holds UTF-8, characters of one
    to four bytes; bytes that form no character are no digits. *)
Fixpoint all_decimal (s : string) : bool :=
  match s with
  | EmptyString => true
  | String c0 r0 =>
      let b0 := byte c0 in
      if b0 <? 128 then is_decimal b0 && all_decimal r0
      else
        match r0 with
        | EmptyString => false
        | String c1 r1 =>
            let b1 := byte c1 in
            let p1 := (b0 - 192) * 64 + (b1 - 128) in
            if negb (is_continuation b1) then false
            else if (194 <=? b0) && (b0 <? 224) then is_decimal p1 && all_decimal r1
            else
              match r1 with
              | EmptyString => false
              | String c2 r2 =>
                  let b2 := byte c2 in
                  let p2 := ((b0 - 224) * 64 + (b1 - 128)) * 64 + (b2 - 128) in
                  if negb (is_continuation b2) then false
                  else if (224 <=? b0) && (b0 <? 240) then
                    (2048 <=? p2) && is_decimal p2 && all_decimal r2
                  else
                    match r2 with
                    | EmptyString => false
                    | String c3 r3 =>
                        let b3 := byte c3 in
                        let p3 := (((b0 - 240) * 64 + (b1 - 128)) * 64 + (b2 - 128)) * 64
                                  + (b3 - 128) in
                        is_continuation b3 && (240 <=? b0) && (b0 <? 245)
                        && (65536 <=? p3) && is_decimal p3 && all_decimal r3
                    end
              end
        end
  end.

(** Text in ASCII: on it the digits of a pattern are the ten ASCII ones. *)
Fixpoint is_ascii (s : string) : bool :=
  match s with
  | EmptyString => true
  | String c r => (byte c <? 128) && is_ascii r
  end.

Fixpoint digits_value (acc : Z) (s : string) : Z :=
  match s with
  | EmptyString => acc
  | String c r => digits_value (10 * acc + digit_value c) r
  end.

(** [int(s)] on an unsigned decimal numeral. *)
Definition int_of (s : string) : result Z :=
  match s with
  | EmptyString => Raise (ValueError "invalid literal for int()")
  | _ => if all_digits s then Ok (digits_value 0 s)
         else Raise (ValueError "invalid literal for int()")
  end.

(** [float(s)] on an unsigned decimal numeral [digits.digits], as the
    exact rational it denotes. *)
Definition float_of (s : string) : result Q :=
  match split (chr 46) s with
  | [ip; fp] =>
      match ip, fp with
      | String _ _, String _ _ =>
          if all_digits ip && all_digits fp
          then Ok (inject_Z (digits_value 0 ip)
                   + Qmake (digits_value 0 fp)
                           (Pos.pow 10 (Pos.of_nat (String.length fp))))%Q
          else Raise (ValueError "could not convert string to float")
      | _, _ => Raise (ValueError "could not convert string to float")
      end
  | _ => Raise (ValueError "could not convert string to float")
  end.

(** [int(x)] on a float: truncation towards zero. *)
Definition int_of_float (x : Q) : Z := Z.quot (Qnum x) (Zpos (Qden x)).

End PyStr.

(* ===================================================================== *)
(** ** powertrim_engine.py *)
(* ===================================================================== *)

Module Engine.

(** *** sanitize_filename *)

(** U+FF5C FULLWIDTH VERTICAL LINE and U+FF1A FULLWIDTH COLON, in UTF-8. *)
Definition fullwidth_bar : string :=
  String (PyStr.chr 239) (String (PyStr.chr 189) (String (PyStr.chr 156) EmptyString)).
Definition fullwidth_colon : string :=
  String (PyStr.chr 239) (String (PyStr.chr 188) (String (PyStr.chr 154) EmptyString)).

(** The nine characters of the class given to [re.sub], by code:
    less-than, greater-than, colon, double quote, slash, backslash,
    vertical bar, question mark and asterisk. *)
Definition illegal_codes : list nat := [60; 62; 58; 34; 47; 92; 124; 63; 42]%nat.

Definition is_illegal (c : ascii) : bool :=
  existsb (Nat.eqb (nat_of_ascii c)) illegal_codes.

Definition sanitize_filename (name : string) : string :=
  let name := PyStr.replace fullwidth_colon ":"
                (PyStr.replace fullwidth_bar "-" name) in
  PyStr.sub_class is_illegal "_"%char name.

(** *** format_output_filename *)

Inductive pyval : Type :=
| PStr (s : string)
| PInt (z : Z).

(** [str(v)]. *)
Definition py_str (v : pyval) : string :=
  match v with
  | PStr s => s
  | PInt z => str_of_Z z
  end.

(** A [dict] with string keys; the first binding of a key is the live one. *)
Definition dict : Type := list (string * pyval).

Fixpoint dict_get (key : string) (d : dict) : option pyval :=
  match d with
  | [] => None
  | (k, v) :: r => if String.eqb k key then Some v else dict_get key r
  end.

(** [a | b]: the bindings of [b] win. *)
Definition dict_union (a b : dict) : dict := b ++ a.

(** The scanner of [str.format]: literal text with the escapes [{{] and
    [}}], and replacement fields [{field_name ...}].  A field name runs
    up to the first [!], [:] or [}] outside square brackets; what follows
    (conversion and format specification) runs up to the closing brace
    that matches, nested braces counted. *)
Inductive scan_state : Type :=
| Literal
| SeenOpen
| SeenClose
| InName (field_name : string) (in_bracket : bool)
| InSpec (field_name rest : string) (depth : nat).

(** The argument name of a field: the field name up to the first [.] or [[]. *)
Fixpoint arg_name (field_name : string) : string :=
  match field_name with
  | EmptyString => EmptyString
  | String c r =>
      if Ascii.eqb c "."%char || Ascii.eqb c "["%char then EmptyString
      else String c (arg_name r)
  end.

Section Format.

(** Python's attribute and index access, conversion and [format(value,
    spec)] on a value already found: the accessors (field name after
    the argument name), the raw text after the field name, and the
    keyword arguments for nested fields of the specification. *)
Variable format_value : dict -> pyval -> string -> string -> result string.

(** One replacement field, called with keyword arguments only: an
    argument name made of decimal digits, or empty, is a position, and
    there is no positional argument. *)
Definition render_field (data : dict) (field_name rest : string) : result string :=
  let a := arg_name field_name in
  if PyStr.all_decimal a then
    Raise (IndexError "Replacement index out of range for positional args tuple")
  else
    match dict_get a data with
    | None => Raise (KeyError a)
    | Some v =>
        let accessors := substring (String.length a)
                           (String.length field_name - String.length a) field_name in
        match accessors, rest with
        | EmptyString, EmptyString => Ok (py_str v)
        | _, _ => format_value data v accessors rest
        end
    end.

(** One character of the template: the next state and the text produced. *)
Definition scan_step (data : dict) (st : scan_state) (c : ascii)
  : result (scan_state * string) :=
  let open := Ascii.eqb c "{"%char in
  let close := Ascii.eqb c "}"%char in
  match st with
  | Literal =>
      if open then Ok (SeenOpen, EmptyString)
      else if close then Ok (SeenClose, EmptyString)
      else Ok (Literal, String c EmptyString)
  | SeenOpen =>
      if open then Ok (Literal, "{")
      else if close then
        out <- render_field data EmptyString EmptyString ;; Ok (Literal, out)
      else if Ascii.eqb c "!"%char || Ascii.eqb c ":"%char then
        Ok (InSpec EmptyString (String c EmptyString) 0, EmptyString)
      else Ok (InName (String c EmptyString) (Ascii.eqb c "["%char), EmptyString)
  | SeenClose =>
      if close then Ok (Literal, "}")
      else Raise (ValueError "Single '}' encountered in format string")
  | InName field_name true =>
      Ok (InName (PyStr.snoc field_name c) (negb (Ascii.eqb c "]"%char)), EmptyString)
  | InName field_name false =>
      if open then Raise (ValueError "unexpected '{' in field name")
      else if close then
        out <- render_field data field_name EmptyString ;; Ok (Literal, out)
      else if Ascii.eqb c "!"%char || Ascii.eqb c ":"%char then
        Ok (InSpec field_name (String c EmptyString) 0, EmptyString)
      else Ok (InName (PyStr.snoc field_name c) (Ascii.eqb c "["%char), EmptyString)
  | InSpec field_name rest depth =>
      if open then Ok (InSpec field_name (PyStr.snoc rest c) (S depth), EmptyString)
      else if close then
        match depth with
        | O => out <- render_field data field_name rest ;; Ok (Literal, out)
        | S d => Ok (InSpec field_name (PyStr.snoc rest c) d, EmptyString)
        end
      else Ok (InSpec field_name (PyStr.snoc rest c) depth, EmptyString)
  end.

Fixpoint scan (data : dict) (st : scan_state) (s : string)
  : result (scan_state * string) :=
  match s with
  | EmptyString => Ok (st, EmptyString)
  | String c r =>
      '(st1, out1) <- scan_step data st c ;;
      '(st2, out2) <- scan data st1 r ;;
      Ok (st2, (out1 ++ out2)%string)
  end.

(** The end of the template. *)
Definition scan_end (st : scan_state) : result unit :=
  match st with
  | Literal => Ok tt
  | SeenOpen => Raise (ValueError "Single '{' encountered in format string")
  | SeenClose => Raise (ValueError "Single '}' encountered in format string")
  | InName _ _ | InSpec _ _ _ =>
      Raise (ValueError "expected '}' before end of string")
  end.

(** [template.format] called with [data] as its keyword arguments. *)
Definition str_format (template : string) (data : dict) : result string :=
  '(st, out) <- scan data Literal template ;;
  _ <- scan_end st ;;
  Ok out.

Definition format_output_filename (template : string) (data : dict)
  : result string :=
  match str_format template data with
  | Raise (KeyError key) =>
      Raise (ValueError ("Invalid placeholder '{" ++ key
                         ++ "}' in output template.")%string)
  | r => r
  end.

End Format.

(** *** generate_ffmpeg_mapping_args *)

(** One stream dictionary of the probe: [index], [id], [codec_type] and
    [tags.language] when the stream has one. *)
Record Stream : Type := mkStream {
  index : Z;
  id : Z;
  codec_type : string;
  language : option string
}.

(** [track.get('tags', {}).get('language', 'und').lower()]. *)
Definition track_lang (t : Stream) : string :=
  PyStr.lower (match language t with Some l => l | None => "und" end).

(** [l.index(x)]: the first position of [x], if any. *)
Fixpoint list_index (x : string) (l : list string) : option nat :=
  match l with
  | [] => None
  | y :: r => if String.eqb y x then Some O else option_map S (list_index x r)
  end.

Definition sort_key (lang_priority : list string) (track : Stream) : Z * Z :=
  match list_index (track_lang track) lang_priority with
  | Some p => (Z.of_nat p, id track)
  | None => (PyList.len lang_priority, id track)
  end.

(** Order of Python tuples of two ints. *)
Definition key_leb (a b : Z * Z) : bool :=
  (fst a <? fst b) || ((fst a =? fst b) && (snd a <=? snd b)).

Definition track_leb (lang_priority : list string) (a b : Stream) : bool :=
  key_leb (sort_key lang_priority a) (sort_key lang_priority b).

Definition map_arg (track : Stream) : list string :=
  ["-map"; ("0:" ++ str_of_Z (index track))%string].

(** The body of [for i, track in enumerate(tracks)], from position [i]. *)
Fixpoint track_args (kind : string) (i : nat) (tracks : list Stream) : list string :=
  match tracks with
  | [] => []
  | track :: r =>
      map_arg track
      ++ [("-disposition:" ++ kind ++ ":" ++ str_of_nat i)%string;
          if Nat.eqb i 0 then "default" else "0"]
      ++ track_args kind (S i) r
  end.

Definition selected_tracks (kind : string) (all_streams : list Stream)
  (selected_track_ids : list Z) : list Stream :=
  filter (fun t => String.eqb (codec_type t) kind
                   && existsb (Z.eqb (id t)) selected_track_ids) all_streams.

Definition generate_ffmpeg_mapping_args (all_streams : list Stream)
  (selected_track_ids : list Z) (lang_priority : list string) : list string :=
  let video_streams := filter (fun t => String.eqb (codec_type t) "video") all_streams in
  let args := flat_map map_arg video_streams in
  let audio_tracks :=
    PyList.sorted (track_leb lang_priority)
      (selected_tracks "audio" all_streams selected_track_ids) in
  let subtitle_tracks :=
    PyList.sorted (track_leb lang_priority)
      (selected_tracks "subtitle" all_streams selected_track_ids) in
  args
  ++ (match audio_tracks with [] => ["-an"] | _ => track_args "a" 0 audio_tracks end)
  ++ (match subtitle_tracks with [] => ["-sn"] | _ => track_args "s" 0 subtitle_tracks end).

(** *** Progress of a re-encode *)

(** [hhmmss_to_seconds]. *)
Definition hhmmss_to_seconds (time_str : string) : result Q :=
  let parts := PyStr.split ":"%char time_str in
  h <- (x <- PyList.getitem parts 0 ;; PyStr.int_of x) ;;
  m <- (x <- PyList.getitem parts 1 ;; PyStr.int_of x) ;;
  s <- (x <- PyList.getitem parts 2 ;; PyStr.float_of x) ;;
  Ok (inject_Z (h * 3600 + m * 60) + s)%Q.

(** The group of [time=(\d{2}:\d{2}:\d{2}\.\d{2})], digit by digit. *)
Definition time_shape : list (ascii -> bool) :=
  let d := PyStr.is_digit in
  let colon := Ascii.eqb ":"%char in
  let dot := Ascii.eqb "."%char in
  [d; d; colon; d; d; colon; d; d; dot; d; d].

Fixpoint match_shape (shape : list (ascii -> bool)) (s : string) : option string :=
  match shape with
  | [] => Some EmptyString
  | p :: ps =>
      match s with
      | EmptyString => None
      | String c r => if p c then option_map (String c) (match_shape ps r) else None
      end
  end.

Definition match_time_here (s : string) : option string :=
  if String.prefix "time=" s
  then match_shape time_shape (substring 5 (String.length s - 5) s)
  else None.

(** [re.search]: the leftmost match. *)
Fixpoint search_time (line : string) : option string :=
  match match_time_here line with
  | Some g => Some g
  | None =>
      match line with
      | EmptyString => None
      | String _ r => search_time r
      end
  end.

(** The magnitude from which a result is an infinite float: the
    midpoint of the largest float and [2^1024]. *)
Definition float_overflow : Q := inject_Z (2 ^ 1024 - 2 ^ 970).

(** The value passed to [progress_updated.emit] for a line that matches.
    A quotient beyond the floats is infinite, and [int] refuses it. *)
Definition percentage_of (duration : Q) (group : string) : result Z :=
  elapsed_time <- hhmmss_to_seconds group ;;
  if Qeq_bool duration 0 then Raise (ZeroDivisionError "float division by zero")
  else
    let scaled := ((elapsed_time / duration) * 100)%Q in
    if Qle_bool float_overflow scaled || Qle_bool scaled (- float_overflow) then
      Raise (OverflowError "cannot convert float infinity to integer")
    else
      let percentage := PyStr.int_of_float scaled in
      Ok (Z.min 100 percentage).

(** *** The export job and the world it runs in *)

Record VideoMeta : Type := mkVideoMeta {
  streams : list Stream;
  fps : Q;
  duration : Q;
  resolution : string
}.

Inductive ProbeOutcome : Type :=
| ProbeToolMissing
| ProbeFailed (msg : string)
| ProbeOk (meta : VideoMeta).

Inductive CropOutcome : Type :=
| CropToolMissing
| CropFound (crop : string)
| CropNone.

(** What one launched tool does: whether the executable exists, the lines
    it writes on its error stream, and its exit code. *)
Record ToolRun : Type := mkToolRun {
  tool_missing : bool;
  stderr_lines : list string;
  returncode : Z
}.

(** The places where [worker._is_cancelled] is read: at the top of the
    iteration of clip [i], before line [j] of the trim of clip [i], after
    the loop of a merging job, and in [ExportWorker.run] after the job. *)
Inductive Point : Type :=
| BeforeClip (i : nat)
| DuringClip (i j : nat)
| AfterClips
| AfterJob.

Definition point_rank (p : Point) : nat * nat * nat :=
  match p with
  | BeforeClip i => (0, i, 0)%nat
  | DuringClip i j => (0, i, S j)%nat
  | AfterClips => (1, 0, 0)%nat
  | AfterJob => (2, 0, 0)%nat
  end.

Definition point_leb (p q : Point) : bool :=
  let '(a1, b1, c1) := point_rank p in
  let '(a2, b2, c2) := point_rank q in
  (a1 <? a2)%nat
  || ((a1 =? a2)%nat && ((b1 <? b2)%nat || ((b1 =? b2)%nat && (c1 <=? c2)%nat))).

(** Everything outside the program: the file system, the external tools,
    the clock, and the moment [stop()] sets the flag ([None]: never). *)
Record World : Type := mkWorld {
  input_is_file : bool;
  probe : ProbeOutcome;
  cropdetect : CropOutcome;
  trim_run : nat -> ToolRun;
  merge_run : ToolRun;
  now_date : string;
  now_time : string;
  temp_dir : string;
  resolve : string -> string;
  cancel_at : option Point
}.

(** The value of [worker._is_cancelled] read at point [p]. *)
Definition is_cancelled (w : World) (p : Point) : bool :=
  match cancel_at w with
  | Some c => point_leb c p
  | None => false
  end.

Record Settings : Type := mkSettings {
  input_stem : string;          (* input_video.stem *)
  input_suffix : string;        (* input_video.suffix *)
  mode : string;
  segments_raw : list (Q * Q);
  output_template : string;
  merge : bool;
  video_mode : string;
  autocrop : bool;
  lang_priority : list string;
  selected_track_ids : list Z;
  output_dir : string;
  output_file : string
}.

(** One launched trim: the clip (counted from 0), the output file, the
    range in seconds, the mode, the crop filter and the mapping arguments. *)
Record TrimCall : Type := mkTrimCall {
  clip : nat;
  output_video : string;
  start_sec : Q;
  end_sec : Q;
  trim_mode : string;
  crop_filter : option string;
  mapping_args : list string
}.

(** What can be observed of a job: the external processes it starts and
    the signals its worker emits, in order. *)
Inductive Event : Type :=
| ProcProbe
| ProcCropDetect
| ProcTrim (call : TrimCall)
| ProcMerge (clips : list string) (final_output : string)
| clip_started (current total : Z)
| step_changed (text : string)
| progress_updated (percent : Z)
| finished (result_path : string)
| error (msg : string).

Definition Trace : Type := list Event.

(** A computation that may raise and that appends to the trace. *)
Definition M (A : Type) : Type := (result A * Trace)%type.

Definition ret {A : Type} (a : A) : M A := (Ok a, []).
Definition raise {A : Type} (e : exn) : M A := (Raise e, []).
Definition log (e : Event) : M unit := (Ok tt, [e]).

Definition mbind {A B : Type} (m : M A) (k : A -> M B) : M B :=
  match m with
  | (Ok a, t1) => let (r, t2) := k a in (r, t1 ++ t2)
  | (Raise e, t1) => (Raise e, t1)
  end.

Notation "x <~ m ;; k" := (mbind m (fun x => k))
  (at level 61, m at next level, right associativity).

Definition lift {A : Type} (r : result A) : M A := (r, []).

(** [if worker: worker.signal.emit(...)]. *)
Definition emit_if (worker : bool) (e : Event) : M unit :=
  if worker then log e else ret tt.

Definition is_trim_or_merge (e : Event) : bool :=
  match e with
  | ProcTrim _ | ProcMerge _ _ => true
  | _ => false
  end.

Definition is_finished (e : Event) : bool :=
  match e with finished _ => true | _ => false end.

Definition get_video_metadata (w : World) : M VideoMeta :=
  if negb (input_is_file w) then raise (FileNotFoundError "Input video file not found")
  else
    match probe w with
    | ProbeToolMissing => raise (FileNotFoundError "`ffprobe` command not found.")
    | ProbeFailed msg =>
        _ <~ log ProcProbe ;;
        raise (RuntimeError ("Error processing video metadata: " ++ msg)%string)
    | ProbeOk meta => _ <~ log ProcProbe ;; ret meta
    end.

Definition detect_black_bars (w : World) (worker : bool) : M (option string) :=
  _ <~ emit_if worker (step_changed "Analyzing for black bars...") ;;
  match cropdetect w with
  | CropToolMissing => raise (FileNotFoundError "`ffmpeg` command not found.")
  | CropFound detected_crop =>
      _ <~ log ProcCropDetect ;;
      _ <~ emit_if worker (step_changed ("Detected crop: " ++ detected_crop)%string) ;;
      ret (Some detected_crop)
  | CropNone => _ <~ log ProcCropDetect ;; ret None
  end.

(** The loop [for line in process.stderr] of [trim_video_segment], from
    line [j]; [true] when the loop was left by [process.terminate(); return]. *)
Fixpoint read_stderr (w : World) (worker : bool) (i j : nat) (duration : Q)
  (video_mode : string) (lines : list string) : M bool :=
  match lines with
  | [] => ret false
  | line :: r =>
      if worker && is_cancelled w (DuringClip i j) then ret true
      else
        _ <~ (match search_time line with
              | Some group =>
                  if worker && negb (String.eqb video_mode "copy") then
                    p <~ lift (percentage_of duration group) ;;
                    log (progress_updated p)
                  else ret tt
              | None => ret tt
              end) ;;
        read_stderr w worker i (S j) duration video_mode r
  end.

(** [trim_video_segment]: the smart cut runs its tool to the end; the
    other modes start ffmpeg and read its error stream line by line.  A
    tool that cannot be found raises before any process exists. *)
Definition trim_video_segment (w : World) (worker : bool) (call : TrimCall) : M unit :=
  let duration := (end_sec call - start_sec call)%Q in
  let run := trim_run w (clip call) in
  if String.eqb (trim_mode call) "smart-cut" then
    if tool_missing run then raise (FileNotFoundError "`smartcut` command not found.")
    else
      _ <~ log (ProcTrim call) ;;
      if returncode run =? 0 then emit_if worker (progress_updated 100)
      else raise (RuntimeError "Error during smartcut")
  else
    if tool_missing run then raise (FileNotFoundError "ffmpeg")
    else
      _ <~ log (ProcTrim call) ;;
      terminated <~ read_stderr w worker (clip call) 0 duration (trim_mode call)
                      (stderr_lines run) ;;
      if terminated then ret tt
      else if returncode run =? 0 then ret tt
      else raise (RuntimeError "FFmpeg failed for segment").

(** [merge_videos]: the concatenation of the clips listed in the manifest. *)
Definition merge_videos (w : World) (clip_paths : list string) (final_output : string)
  : M unit :=
  if tool_missing (merge_run w) then raise (FileNotFoundError "ffmpeg")
  else
    _ <~ log (ProcMerge clip_paths final_output) ;;
    if returncode (merge_run w) =? 0 then ret tt
    else raise (RuntimeError "Error during final merge").

Definition video_extension_of (s : Settings) : string :=
  if String.eqb (video_mode s) "ffv1" then ".mkv"
  else if PyStr.contains "re-encode" (video_mode s) then ".mp4"
  else input_suffix s.

(** [f"{n:03d}"] for a clip number. *)
Definition pad3 (n : nat) : string :=
  let d := str_of_nat n in
  (match String.length d with
   | 1%nat => "00" ++ d
   | 2%nat => "0" ++ d
   | _ => d
   end)%string.

(** [os.path.join(a, b)] of [posixpath]: an absolute [b] stands alone. *)
Definition starts_with_slash (s : string) : bool :=
  match s with
  | String c _ => Ascii.eqb c "/"%char
  | EmptyString => false
  end.

Fixpoint ends_with_slash (s : string) : bool :=
  match s with
  | EmptyString => false
  | String c EmptyString => Ascii.eqb c "/"%char
  | String _ r => ends_with_slash r
  end.

Definition posix_join (a b : string) : string :=
  if starts_with_slash b then b
  else if String.eqb a "" || ends_with_slash a then (a ++ b)%string
  else (a ++ "/" ++ b)%string.

(** [path.lstrip('/')]. *)
Fixpoint lstrip_slash (s : string) : string :=
  match s with
  | EmptyString => EmptyString
  | String c r => if Ascii.eqb c "/"%char then lstrip_slash r else s
  end.

(** The root of a POSIX path: two leading slashes are kept, one or more
    than two are one. *)
Definition posix_root (s : string) : string :=
  match (String.length s - String.length (lstrip_slash s))%nat with
  | 0%nat => ""
  | 2%nat => "//"
  | _ => "/"
  end.

(** The parts of a POSIX path after the root: empty components and [.]
    are dropped, [..] is kept. *)
Definition is_part (x : string) : bool :=
  negb (String.eqb x "") && negb (String.eqb x ".").

Definition posix_parts (s : string) : list string :=
  filter is_part (PyStr.split "/"%char (lstrip_slash s)).

(** [sep.join(parts)]. *)
Fixpoint join_with (sep : string) (parts : list string) : string :=
  match parts with
  | [] => EmptyString
  | [x] => x
  | x :: r => (x ++ sep ++ join_with sep r)%string
  end.

(** [str(PurePosixPath(s))]. *)
Definition posix_str (s : string) : string :=
  match posix_root s, posix_parts s with
  | EmptyString, [] => "."
  | root, parts => (root ++ join_with "/" parts)%string
  end.

(** [str(Path(dir) / name)] and [(Path(dir) / name).name] on POSIX: the
    name is the last part, or empty when there is none. *)
Definition path_join (dir name : string) : string := posix_str (posix_join dir name).

Definition path_name (dir name : string) : string :=
  last (posix_parts (posix_join dir name)) EmptyString.

(** *** Notions used to state the properties of the engine *)

(** The rank of a track in the language priority: the position of its
    lowercased language tag ([und] when the stream has none), or the
    length of the list when the tag is not in it. *)
Definition lang_rank (lang_priority : list string) (t : Stream) : Z :=
  match list_index (track_lang t) lang_priority with
  | Some p => Z.of_nat p
  | None => PyList.len lang_priority
  end.

(** Rank first, stream id second. *)
Definition track_before (lang_priority : list string) (x y : Stream) : Prop :=
  lang_rank lang_priority x < lang_rank lang_priority y \/
  (lang_rank lang_priority x = lang_rank lang_priority y /\ id x <= id y).

(** The four arguments emitted for the track at position [i] of its type. *)
Definition directive (kind : string) (i : nat) (t : Stream) : list string :=
  ["-map"; ("0:" ++ str_of_Z (index t))%string;
   ("-disposition:" ++ kind ++ ":" ++ str_of_nat i)%string;
   if Nat.eqb i 0 then "default" else "0"].

(** The arguments of one type: the explicit directive when no track of the
    type is selected, else the directives of the tracks in order. *)
Definition type_args (kind none : string) (tracks : list Stream) : list string :=
  match tracks with
  | [] => [none]
  | _ => track_args kind 0 tracks
  end.

(** The sort key as the specification words it: the position of the
    stream's own language tag, and a stream without a tag after every
    listed priority. *)
Definition literal_key (lang_priority : list string) (t : Stream) : Z * Z :=
  (match language t with
   | Some l =>
       match list_index l lang_priority with
       | Some p => Z.of_nat p
       | None => PyList.len lang_priority
       end
   | None => PyList.len lang_priority
   end, id t).

Definition literal_order (lang_priority : list string) (tracks : list Stream)
  : list Stream :=
  PyList.sorted (fun a b => key_leb (literal_key lang_priority a)
                                    (literal_key lang_priority b)) tracks.

(** The placeholders of the output template. *)
Definition known_placeholders : list string :=
  ["filename"; "num"; "start"; "end"; "resolution"; "date"; "time"].

Definition is_brace (c : ascii) : bool :=
  Ascii.eqb c "{"%char || Ascii.eqb c "}"%char.

(** The characters that end or structure a field name. *)
Definition is_field_special (c : ascii) : bool :=
  is_brace c || Ascii.eqb c "."%char || Ascii.eqb c "["%char
  || Ascii.eqb c "!"%char || Ascii.eqb c ":"%char.

(** A placeholder name as one writes it between braces: not empty, not a
    number in the digits of any script, and free of the characters that
    structure a field. *)
Definition plain_name (name : string) : Prop :=
  PyStr.all_decimal name = false /\
  PyStr.contains_char is_field_special name = false.

(** The events by which work on clip [i] (counted from 0) or on a later
    clip starts, and the start of the merge. *)
Definition starts_from (i : nat) (e : Event) : bool :=
  match e with
  | ProcTrim c => (i <=? clip c)%nat
  | clip_started current _ => Z.of_nat i + 1 <=? current
  | ProcMerge _ _ => true
  | _ => false
  end.

(** The percentage for an elapsed time, when the duration is not zero. *)
Definition pct (duration elapsed : Q) : Z :=
  Z.min 100 (PyStr.int_of_float ((elapsed / duration) * 100)%Q).

(** The percentages emitted along a trace. *)
Definition percentages (tr : Trace) : list Z :=
  flat_map (fun e => match e with progress_updated p => [p] | _ => [] end) tr.

(** The elapsed times the tool reports on its error stream, in order. *)
Definition reported_times (lines : list string) : list Q :=
  flat_map (fun line =>
              match search_time line with
              | Some group =>
                  match hhmmss_to_seconds group with
                  | Ok t => [t]
                  | Raise _ => []
                  end
              | None => []
              end) lines.

Section Job.

Variable format_value : dict -> pyval -> string -> string -> result string.

(** The loop of the merging branch, from clip [i]: the early return
    value if any, and [temp_clip_paths]. *)
Fixpoint merge_loop (w : World) (worker : bool) (s : Settings)
  (crop_params : option string) (mapping : list string) (ext : string)
  (total : Z) (i : nat) (segs : list (Q * Q)) (temp_clip_paths : list string)
  : M (option string * list string) :=
  match segs with
  | [] => ret (None, temp_clip_paths)
  | (start, end_) :: r =>
      if worker && is_cancelled w (BeforeClip i) then
        ret (Some "Cancelled", temp_clip_paths)
      else
        _ <~ emit_if worker (clip_started (Z.of_nat i + 1) total) ;;
        _ <~ emit_if worker
               (step_changed ("Processing clip " ++ str_of_Z (Z.of_nat i + 1)
                              ++ " of " ++ str_of_Z total ++ "...")%string) ;;
        let clip_path :=
          path_join (temp_dir w) ("temp_" ++ pad3 (S i) ++ ext)%string in
        _ <~ trim_video_segment w worker
               (mkTrimCall i clip_path start end_ (video_mode s) crop_params mapping) ;;
        merge_loop w worker s crop_params mapping ext total (S i) r
          (temp_clip_paths ++ [clip_path])
  end.

(** The loop of the other branch, from clip [i]. *)
Fixpoint clips_loop (w : World) (worker : bool) (s : Settings)
  (crop_params : option string) (mapping : list string) (ext : string)
  (base_template_data : dict) (total : Z) (i : nat) (segs : list (Q * Q))
  : M (option string) :=
  match segs with
  | [] => ret None
  | (start, end_) :: r =>
      if worker && is_cancelled w (BeforeClip i) then ret (Some "Cancelled")
      else
        raw <~ lift (PyList.getitem (segments_raw s) (Z.of_nat i)) ;;
        let seg_data :=
          dict_union base_template_data
            [("num", PInt (Z.of_nat i + 1));
             ("start", PInt (PyStr.int_of_float (fst raw)));
             ("end", PInt (PyStr.int_of_float (snd raw)))] in
        output_name <~ lift (format_output_filename format_value
                               (output_template s) seg_data) ;;
        let file_name := (output_name ++ ext)%string in
        let output_path := path_join (output_dir s) file_name in
        _ <~ emit_if worker (clip_started (Z.of_nat i + 1) total) ;;
        _ <~ emit_if worker
               (step_changed ("Exporting clip " ++ str_of_Z (Z.of_nat i + 1)
                              ++ " of " ++ str_of_Z total ++ ": "
                              ++ path_name (output_dir s) file_name)%string) ;;
        _ <~ trim_video_segment w worker
               (mkTrimCall i output_path start end_ (video_mode s) crop_params mapping) ;;
        clips_loop w worker s crop_params mapping ext base_template_data total (S i) r
  end.

(** [run_powertrim_job(settings, worker)]; [worker] is [false] for
    [worker=None].  The metadata dictionary of a successful probe is
    never empty, so the test [if not video_meta] does not fire. *)
Definition run_powertrim_job (w : World) (s : Settings) (worker : bool) : M string :=
  match segments_raw s with
  | [] => raise (ValueError "No valid segments found to process.")
  | _ :: _ =>
      video_meta <~ get_video_metadata w ;;
      let frame_rate := fps video_meta in
      if String.eqb (mode s) "frames" && Qeq_bool frame_rate 0 then
        raise (ValueError "Frame mode selected, but could not determine frame rate.")
      else
        let segments_in_seconds :=
          if String.eqb (mode s) "frames"
          then map (fun x => (fst x / frame_rate, snd x / frame_rate)%Q) (segments_raw s)
          else segments_raw s in
        crop_params <~ (if autocrop s then detect_black_bars w worker else ret None) ;;
        let mapping :=
          generate_ffmpeg_mapping_args (streams video_meta)
            (selected_track_ids s) (lang_priority s) in
        let base_template_data :=
          [("filename", PStr (sanitize_filename (input_stem s)));
           ("resolution", PStr (resolution video_meta));
           ("date", PStr (now_date w));
           ("time", PStr (now_time w))] in
        let ext := video_extension_of s in
        let total := PyList.len segments_in_seconds in
        if merge s then
          r <~ merge_loop w worker s crop_params mapping ext total 0
                 segments_in_seconds [] ;;
          match fst r with
          | Some early => ret early
          | None =>
              if worker && is_cancelled w AfterClips then ret "Cancelled"
              else
                _ <~ emit_if worker (step_changed "Merging all clips...") ;;
                _ <~ merge_videos w (snd r) (output_file s) ;;
                ret (resolve w (output_file s))
          end
        else
          r <~ clips_loop w worker s crop_params mapping ext base_template_data
                 total 0 segments_in_seconds ;;
          match r with
          | Some early => ret early
          | None => ret (resolve w (output_dir s))
          end
  end.

End Job.

End Engine.

(* ===================================================================== *)
(** ** PowerTrimGUI.py: data model and command pattern *)
(* ===================================================================== *)

Module Gui.

(** The colour of a segment is an opaque display tag. *)
Definition Color : Type := string.

(** A data tuple [(start_frame, end_frame, color, name)]; a three-element
    tuple is the tuple with the empty name. *)
Definition SegData : Type := (Z * Z * Color * string)%type.

Record Segment : Type := mkSegment {
  start_frame : Z;
  end_frame : Z;
  color : Color;
  name : string
}.

(** [Segment.__init__]: an empty name becomes [Segment [start-end]]. *)
Definition new_Segment (s e : Z) (c : Color) (nm : string) : Segment :=
  mkSegment s e c
    (if String.eqb nm ""
     then ("Segment [" ++ str_of_Z s ++ "-" ++ str_of_Z e ++ "]")%string
     else nm).

Definition Segment_of_data (d : SegData) : Segment :=
  let '(s, e, c, nm) := d in new_Segment s e c nm.

(** [(seg.start_frame, seg.end_frame, seg.color, seg.name)]. *)
Definition data_of (seg : Segment) : SegData :=
  (start_frame seg, end_frame seg, color seg, name seg).

(** Qt signals emitted by the segment manager and the undo manager. *)
Inductive Signal : Type :=
| model_changed
| undo_stack_changed (enabled : bool)
| redo_stack_changed (enabled : bool)
| command_executed.

(** *** SegmentManager *)

Record Store : Type := mkStore {
  segments : list Segment;
  emitted : list Signal
}.

Definition emit (s : Signal) (st : Store) : Store :=
  mkStore (segments st) (emitted st ++ [s]).

Definition add_segment (data : SegData) (index : Z) (st : Store) : Store :=
  let segment := Segment_of_data data in
  let segs :=
    if index =? -1 then segments st ++ [segment]
    else PyList.insert index segment (segments st) in
  emit model_changed (mkStore segs (emitted st)).

Definition remove_segment (index : Z) (st : Store) : Store :=
  if (0 <=? index) && (index <? PyList.len (segments st)) then
    emit model_changed
      (mkStore (PyList.delete_nth (Z.to_nat index) (segments st)) (emitted st))
  else st.

Fixpoint set_nth {A : Type} (n : nat) (x : A) (l : list A) : list A :=
  match l, n with
  | [], _ => []
  | _ :: r, O => x :: r
  | y :: r, S k => y :: set_nth k x r
  end.

Definition update_segment (index : Z) (data : SegData) (st : Store) : Store :=
  if (0 <=? index) && (index <? PyList.len (segments st)) then
    emit model_changed
      (mkStore (set_nth (Z.to_nat index) (Segment_of_data data) (segments st))
               (emitted st))
  else st.

Definition set_segments (segments_data : list SegData) (st : Store) : Store :=
  emit model_changed (mkStore (map Segment_of_data segments_data) (emitted st)).

Definition get_all_segments (st : Store) : list Segment := segments st.

(** *** Commands

    A command object carries its fields; [MergeSegmentsCommand] also has
    the two fields that [execute] assigns. *)

Inductive Command : Type :=
| AddSegmentCommand (data : SegData)
| DeleteSegmentCommand (index : Z) (data : SegData)
| UpdateSegmentCommand (index : Z) (old new : SegData)
| ImportSegmentsCommand (old new : list SegData)
| MergeSegmentsCommand (indices : list Z) (merged_data : SegData)
    (original_data : list SegData) (insert_index : Z).

Definition sorted_asc (l : list Z) : list Z := PyList.sorted Z.leb l.
Definition sorted_desc (l : list Z) : list Z := PyList.sorted Z.geb l.

(** [MergeSegmentsCommand.__init__]. *)
Definition new_MergeSegmentsCommand (indices : list Z) (merged_data : SegData)
  : Command :=
  MergeSegmentsCommand (sorted_desc indices) merged_data [] (-1).

(** The capture loop of [MergeSegmentsCommand.execute]. *)
Fixpoint capture (all_segs : list Segment) (idxs : list Z) : result (list SegData) :=
  match idxs with
  | [] => Ok []
  | index :: r =>
      seg <- PyList.getitem all_segs index ;;
      rest <- capture all_segs r ;;
      Ok (data_of seg :: rest)
  end.

Definition remove_all (idxs : list Z) (st : Store) : Store :=
  fold_left (fun s index => remove_segment index s) idxs st.

(** The re-insertion loop of [MergeSegmentsCommand.undo]:
    [for i, index in enumerate(sorted(indices)): add_segment(original_data[i], index)]. *)
Fixpoint reinsert (original_data : list SegData) (i : Z) (idxs : list Z)
  (st : Store) : result Store :=
  match idxs with
  | [] => Ok st
  | index :: r =>
      d <- PyList.getitem original_data i ;;
      reinsert original_data (i + 1) r (add_segment d index st)
  end.

(** [cmd.execute()]: the command object after the call, and the store. *)
Definition cmd_execute (cmd : Command) (st : Store) : result (Command * Store) :=
  match cmd with
  | AddSegmentCommand data => Ok (cmd, add_segment data (-1) st)
  | DeleteSegmentCommand index _ => Ok (cmd, remove_segment index st)
  | UpdateSegmentCommand index _ new => Ok (cmd, update_segment index new st)
  | ImportSegmentsCommand _ new => Ok (cmd, set_segments new st)
  | MergeSegmentsCommand indices merged_data original_data _ =>
      od <- (match original_data with
             | [] => capture (get_all_segments st) (sorted_asc indices)
             | _ => Ok original_data
             end) ;;
      let st1 := remove_all indices st in
      ins <- PyList.getitem indices (-1) ;;
      Ok (MergeSegmentsCommand indices merged_data od ins,
          add_segment merged_data ins st1)
  end.

(** [cmd.undo()]. *)
Definition cmd_undo (cmd : Command) (st : Store) : result Store :=
  match cmd with
  | AddSegmentCommand _ => Ok (remove_segment (PyList.len (segments st) - 1) st)
  | DeleteSegmentCommand index data => Ok (add_segment data index st)
  | UpdateSegmentCommand index old _ => Ok (update_segment index old st)
  | ImportSegmentsCommand old _ => Ok (set_segments old st)
  | MergeSegmentsCommand indices _ original_data insert_index =>
      reinsert original_data 0 (sorted_asc indices) (remove_segment insert_index st)
  end.

(** *** UndoManager *)

Record App : Type := mkApp {
  sm : Store;
  undo_stack : list Command;
  redo_stack : list Command
}.

Definition emit_app (s : Signal) (a : App) : App :=
  mkApp (emit s (sm a)) (undo_stack a) (redo_stack a).

Definition update_stack_states (a : App) : App :=
  emit_app (redo_stack_changed (0 <? PyList.len (redo_stack a)))
    (emit_app (undo_stack_changed (0 <? PyList.len (undo_stack a))) a).

Definition um_execute (cmd : Command) (a : App) : result App :=
  '(cmd', st) <- cmd_execute cmd (sm a) ;;
  Ok (emit_app command_executed
        (update_stack_states (mkApp st (undo_stack a ++ [cmd']) []))).

Definition um_undo (a : App) : result App :=
  a1 <- (match PyList.pop (undo_stack a) with
         | Some (rest, cmd) =>
             st <- cmd_undo cmd (sm a) ;;
             Ok (update_stack_states (mkApp st rest (redo_stack a ++ [cmd])))
         | None => Ok a
         end) ;;
  Ok (emit_app command_executed a1).

Definition um_redo (a : App) : result App :=
  a1 <- (match PyList.pop (redo_stack a) with
         | Some (rest, cmd) =>
             '(cmd', st) <- cmd_execute cmd (sm a) ;;
             Ok (update_stack_states (mkApp st (undo_stack a ++ [cmd']) rest))
         | None => Ok a
         end) ;;
  Ok (emit_app command_executed a1).

Definition um_clear (a : App) : App :=
  update_stack_states (mkApp (sm a) [] []).

(** *** merge_selected_segments *)

(** The selected items of the segment list, in the order Qt reports them:
    each item is a row of the view with the segment object of that row. *)
Definition selected_items (rows : list nat) (a : App) : list (Z * Segment) :=
  flat_map (fun row =>
              match nth_error (segments (sm a)) row with
              | Some seg => [(Z.of_nat row, seg)]
              | None => []
              end) rows.

Definition by_start (x y : Z * Segment) : bool :=
  start_frame (snd x) <=? start_frame (snd y).

(** The adjacency loop: [true] when some neighbour pair leaves a gap. *)
Fixpoint has_gap (segs : list (Z * Segment)) : bool :=
  match segs with
  | x :: ((y :: _) as r) =>
      (end_frame (snd x) <? start_frame (snd y) - 1) || has_gap r
  | _ => false
  end.

(** [max(s.end_frame for s in segs)] when [first] is the first of them. *)
Definition max_end (first : Z * Segment) (others : list (Z * Segment)) : Z :=
  fold_left (fun m x => if m <? end_frame (snd x) then end_frame (snd x) else m)
            others (end_frame (snd first)).

Definition merge_selected_segments (rows : list nat) (a : App) : result App :=
  let items := selected_items rows a in
  if PyList.len items <? 2 then Ok a
  else
    let segs := PyList.sorted by_start items in
    if has_gap segs then Ok a
    else
      match segs with
      | [] => Raise (IndexError "list index out of range")
      | first :: others =>
          let new_start := start_frame (snd first) in
          let new_end := max_end first others in
          let merged_data :=
            (new_start, new_end, color (snd first),
             ("Merged [" ++ str_of_Z new_start ++ "-" ++ str_of_Z new_end ++ "]")%string) in
          um_execute (new_MergeSegmentsCommand (map fst segs) merged_data) a
      end.

(** *** Notions used to state the properties of the store *)

(** Every [Segment] object is built by [Segment.__init__], which never
    leaves the name empty. *)
Definition named (seg : Segment) : Prop := name seg <> EmptyString.
Definition constructed (segs : list Segment) : Prop := Forall named segs.

(** Indices that are distinct, in decreasing order, and valid for a list
    of [bound] elements. *)
Fixpoint desc_below (bound : Z) (idxs : list Z) : Prop :=
  match idxs with
  | [] => True
  | i :: r => 0 <= i < bound /\ desc_below i r
  end.

(** A command built against the store it is about to run on, the way the
    handlers of the window build it: a delete or update command holds the
    data of the segment at its index (an update command may also miss the
    store altogether), an import command the data of the whole store, a
    merge command distinct valid indices and nothing captured yet. *)
Definition valid_cmd (segs : list Segment) (cmd : Command) : Prop :=
  match cmd with
  | AddSegmentCommand _ => True
  | DeleteSegmentCommand index data =>
      0 <= index /\
      exists seg, nth_error segs (Z.to_nat index) = Some seg /\ data = data_of seg
  | UpdateSegmentCommand index old _ =>
      ~ (0 <= index < PyList.len segs) \/
      (0 <= index /\
       exists seg, nth_error segs (Z.to_nat index) = Some seg /\ old = data_of seg)
  | ImportSegmentsCommand old _ => old = map data_of segs
  | MergeSegmentsCommand indices _ original_data _ =>
      original_data = [] /\ indices <> [] /\ desc_below (PyList.len segs) indices
  end.

Fixpoint execute_all (cmds : list Command) (a : App) : result App :=
  match cmds with
  | [] => Ok a
  | cmd :: r => a' <- um_execute cmd a ;; execute_all r a'
  end.

Fixpoint undo_n (n : nat) (a : App) : result App :=
  match n with
  | O => Ok a
  | S k => a' <- um_undo a ;; undo_n k a'
  end.

Fixpoint redo_n (n : nat) (a : App) : result App :=
  match n with
  | O => Ok a
  | S k => a' <- um_redo a ;; redo_n k a'
  end.

(** Each command of the sequence is valid for the store it meets. *)
Fixpoint valid_run (cmds : list Command) (a : App) : Prop :=
  match cmds with
  | [] => True
  | cmd :: r =>
      valid_cmd (segments (sm a)) cmd /\
      match um_execute cmd a with
      | Ok a' => valid_run r a'
      | Raise _ => False
      end
  end.

(** A command object that takes any store holding [s0] to a store holding
    [s1], stays the same object when it does, and takes any store holding
    [s1] back to one holding [s0]. *)
Definition reversible (cmd : Command) (s0 s1 : list Segment) : Prop :=
  (forall st, segments st = s0 ->
     exists st', cmd_execute cmd st = Ok (cmd, st') /\ segments st' = s1) /\
  (forall st, segments st = s1 ->
     exists st', cmd_undo cmd st = Ok st' /\ segments st' = s0).

(** Commands that lead from [s0] to [s1], each one reversible. *)
Fixpoint chain (cmds : list Command) (s0 s1 : list Segment) : Prop :=
  match cmds with
  | [] => s0 = s1
  | cmd :: r => exists s, reversible cmd s0 s /\ chain r s s1
  end.

(** The segments at the positions from [i] on that are not among [rows]. *)
Fixpoint unselected_from (rows : list nat) (i : nat) (l : list Segment)
  : list Segment :=
  match l with
  | [] => []
  | x :: r =>
      if existsb (Nat.eqb i) rows then unselected_from rows (S i) r
      else x :: unselected_from rows (S i) r
  end.

Definition unselected (rows : list nat) (l : list Segment) : list Segment :=
  unselected_from rows 0 l.

(** Neighbours in a list of frame ranges touch or overlap. *)
Definition adjacent_or_overlapping (segs : list (Z * Segment)) : Prop :=
  forall i x y,
    nth_error segs i = Some x -> nth_error segs (S i) = Some y ->
    end_frame (snd x) >= start_frame (snd y) - 1.

(** The selection of the merge handler, sorted by start frame. *)
Definition selection_by_start (rows : list nat) (a : App) : list (Z * Segment) :=
  PyList.sorted by_start (selected_items rows a).

(** *** ExportWorker *)

(** [str(e)]. *)
Definition exn_str (e : exn) : string :=
  match e with
  | ValueError m | IndexError m | AttributeError m | TypeError m
  | OverflowError m | RuntimeError m | FileNotFoundError m
  | ZeroDivisionError m => m
  | KeyError k => ("'" ++ k ++ "'")%string
  end.

Section Worker.

Variable format_value :
  Engine.dict -> Engine.pyval -> string -> string -> result string.

(** [ExportWorker.run]: the trace of the job followed by the signal the
    worker emits at the end, if any. *)
Definition ExportWorker_run (w : Engine.World) (settings : Engine.Settings)
  : Engine.Trace :=
  match Engine.run_powertrim_job format_value w settings true with
  | (Ok result_path, tr) =>
      if negb (Engine.is_cancelled w Engine.AfterJob)
      then tr ++ [Engine.finished result_path]
      else tr
  | (Raise e, tr) => tr ++ [Engine.error (exn_str e)]
  end.

End Worker.

End Gui.

(* ===================================================================== *)
(** ** More of PowerTrimGUI.py: the handlers around the store *)
(* ===================================================================== *)

Module Handlers.
Import Gui.

(** How often the dirty signal occurs in a log of signals. *)
Definition count_dirty (l : list Signal) : nat :=
  List.length (filter (fun s => match s with command_executed => true | _ => false end) l).

(** [delete_selected_segment]: the first selected item decides; [rows]
    are the rows of the selected items that exist in the view. *)
Definition delete_selected_segment (rows : list nat) (a : App) : result App :=
  match selected_items rows a with
  | [] => Ok a
  | (row, _) :: _ =>
      if 0 <=? row then
        seg <- PyList.getitem (get_all_segments (sm a)) row ;;
        um_execute (DeleteSegmentCommand row (data_of seg)) a
      else Ok a
  end.

(** [s.isdigit()] on ASCII text: not empty, and decimal digits only.
    [int(s)] of such a string is [PyStr.digits_value 0 s]. *)
Definition isdigit (s : string) : bool :=
  match s with
  | EmptyString => false
  | _ => PyStr.all_digits s
  end.

(** The marking state of the window: the in and out points (-1 when not
    set), the frame under the playhead and the position in the palette. *)
Record Marks : Type := mkMarks {
  in_point : Z;
  out_point : Z;
  current_frame : Z;
  color_idx : Z
}.

(** [clear_in_out_points]. *)
Definition clear_in_out_points (m : Marks) : Marks :=
  mkMarks (-1) (-1) (current_frame m) (color_idx m).

(** [set_in_point]. *)
Definition set_in_point (m : Marks) : Marks :=
  mkMarks (current_frame m) (-1) (current_frame m) (color_idx m).

Section Palette.

(** [self.segment_colors], a list that is not empty, given by its first
    colour and the others. *)
Variable first_color : Color.
Variable other_colors : list Color.

Definition segment_colors : list Color := first_color :: other_colors.

(** [self.segment_colors[i % len(self.segment_colors)]]. *)
Definition palette_color (i : Z) : Color :=
  nth (Z.to_nat (i mod PyList.len segment_colors)) segment_colors first_color.

(** [add_segment_from_in_out]. *)
Definition add_segment_from_in_out (m : Marks) (a : App) : result (Marks * App) :=
  if (0 <=? in_point m) && (in_point m <? out_point m) then
    let color := palette_color (color_idx m) in
    let m1 := mkMarks (in_point m) (out_point m) (current_frame m) (color_idx m + 1) in
    a' <- um_execute (AddSegmentCommand (in_point m, out_point m, color, EmptyString)) a ;;
    Ok (clear_in_out_points m1, a')
  else Ok (m, a).

(** [set_out_point]. *)
Definition set_out_point (m : Marks) (a : App) : result (Marks * App) :=
  if in_point m =? -1 then Ok (m, a)
  else if in_point m <? current_frame m then
    add_segment_from_in_out
      (mkMarks (in_point m) (current_frame m) (current_frame m) (color_idx m)) a
  else Ok (m, a).

(** The rows of [handle_import_csv] that become segments: at least two
    fields, the first two made of digits; [i] is the number of the row in
    the file, which picks the colour. *)
Fixpoint import_rows (i : Z) (rows : list (list string)) : list SegData :=
  match rows with
  | [] => []
  | row :: r =>
      match row with
      | f0 :: f1 :: _ =>
          if isdigit f0 && isdigit f1
          then (PyStr.digits_value 0 f0, PyStr.digits_value 0 f1,
                palette_color i, EmptyString) :: import_rows (i + 1) r
          else import_rows (i + 1) r
      | _ => import_rows (i + 1) r
      end
  end.

(** [handle_import_csv] on the rows that [csv.reader] yields. *)
Definition handle_import_csv (rows : list (list string)) (a : App) : result App :=
  let old_segments := map data_of (get_all_segments (sm a)) in
  um_execute (ImportSegmentsCommand old_segments (import_rows 0 rows)) a.

End Palette.

Definition segment_by_start (x y : Segment) : bool :=
  start_frame x <=? start_frame y.

(** [handle_export_csv]: the rows handed to [csv.writer], the header
    first; nothing is written for an empty store. *)
Definition export_rows (a : App) : option (list (list string)) :=
  match get_all_segments (sm a) with
  | [] => None
  | segs =>
      Some (["start_frame"; "end_frame"; "name"]
            :: map (fun seg => [str_of_Z (start_frame seg); str_of_Z (end_frame seg);
                                name seg])
                   (PyList.sorted segment_by_start segs))
  end.

(** [get_sorted_boundaries]: the set of the start and end frames of all
    segments, as a sorted list. *)
Definition get_sorted_boundaries (segs : list Segment) : list Z :=
  PyList.sorted Z.leb
    (nodup Z.eq_dec (flat_map (fun s => [start_frame s; end_frame s]) segs)).

(** A frame at which some segment starts or ends. *)
Definition is_boundary (segs : list Segment) (f : Z) : Prop :=
  exists s, In s segs /\ (f = start_frame s \/ f = end_frame s).

(** [seek_to_next_boundary]: the frame the player is sent to, if any
    (the frame rate of a loaded video is positive). *)
Definition seek_to_next_boundary (segs : list Segment) (current : Z) : option Z :=
  find (fun frame => current <? frame) (get_sorted_boundaries segs).

(** [seek_to_prev_boundary]. *)
Definition seek_to_prev_boundary (segs : list Segment) (current : Z) : option Z :=
  find (fun frame => frame <? current) (rev (get_sorted_boundaries segs)).

(** [old_data != new_data] on data tuples is the negation of this. *)
Definition data_eqb (x y : SegData) : bool :=
  let '(s1, e1, c1, n1) := x in
  let '(s2, e2, c2, n2) := y in
  (s1 =? s2) && (e1 =? e2) && String.eqb c1 c2 && String.eqb n1 n2.

(** [apply_properties_changes], called from a spin box or from a line
    edit that was modified: [row] is the current row of the list, the
    other arguments are the values of the three fields. *)
Definition apply_properties_changes (row new_start new_end : Z) (new_name : string)
  (a : App) : result App :=
  if row <? 0 then Ok a
  else if new_end <=? new_start then Ok a
  else
    old_seg <- PyList.getitem (get_all_segments (sm a)) row ;;
    let old_data := data_of old_seg in
    let new_data := (new_start, new_end, color old_seg, new_name) in
    if negb (data_eqb old_data new_data)
    then um_execute (UpdateSegmentCommand row old_data new_data) a
    else Ok a.

(** What [_load_video] does to the marks, the store and the undo manager. *)
Definition load_video (m : Marks) (a : App) : Marks * App :=
  let st := set_segments [] (sm a) in
  (clear_in_out_points (mkMarks (-1) (-1) 0 0),
   um_clear (mkApp st (undo_stack a) (redo_stack a))).

(** A sequence of calls of [undo] ([true]) and [redo] ([false]). *)
Fixpoint undo_redo (calls : list bool) (a : App) : result App :=
  match calls with
  | [] => Ok a
  | true :: r => a' <- um_undo a ;; undo_redo r a'
  | false :: r => a' <- um_redo a ;; undo_redo r a'
  end.

End Handlers.

(* ===================================================================== *)
(** ** Notions used to state further properties of the engine *)
(* ===================================================================== *)

Module Observations.
Import Engine.

(** A template written piece by piece: literal text without braces, the
    two escapes, and placeholders given by name. *)
Inductive piece : Type :=
| Text (s : string)
| OpenBrace
| CloseBrace
| Field (name : string).

Fixpoint template_of (ps : list piece) : string :=
  match ps with
  | [] => EmptyString
  | Text s :: r => s ++ template_of r
  | OpenBrace :: r => "{{" ++ template_of r
  | CloseBrace :: r => "}}" ++ template_of r
  | Field name :: r => "{" ++ name ++ "}" ++ template_of r
  end%string.

(** The text of the pieces, one brace for each escape and [str] of its
    value for each placeholder. *)
Fixpoint expansion (data : dict) (ps : list piece) : string :=
  match ps with
  | [] => EmptyString
  | Text s :: r => s ++ expansion data r
  | OpenBrace :: r => "{" ++ expansion data r
  | CloseBrace :: r => "}" ++ expansion data r
  | Field name :: r =>
      match dict_get name data with
      | Some v => py_str v
      | None => EmptyString
      end ++ expansion data r
  end%string.

Definition piece_ok (data : dict) (p : piece) : Prop :=
  match p with
  | Text s => PyStr.contains_char is_brace s = false
  | OpenBrace | CloseBrace => True
  | Field name => plain_name name /\ exists v, dict_get name data = Some v
  end.

(** The same world with [stop()] happening at [c], or never. *)
Definition set_cancel (c : option Point) (w : World) : World :=
  mkWorld (input_is_file w) (probe w) (cropdetect w) (trim_run w) (merge_run w)
    (now_date w) (now_time w) (temp_dir w) (resolve w) c.

(** The events that are started processes, as opposed to signals. *)
Definition is_process (e : Event) : bool :=
  match e with
  | ProcProbe | ProcCropDetect | ProcTrim _ | ProcMerge _ _ => true
  | _ => false
  end.

(** The two signals that end an export. *)
Definition is_terminal (e : Event) : bool :=
  match e with
  | finished _ | error _ => true
  | _ => false
  end.

(** The trims and the merges started along a trace, in order. *)
Definition trim_calls (tr : Trace) : list TrimCall :=
  flat_map (fun e => match e with ProcTrim c => [c] | _ => [] end) tr.


(** The temporary file of clip [i] (counted from 0) of a merging job. *)
Definition temp_clip_path (w : World) (s : Settings) (i : nat) : string :=
  path_join (temp_dir w) ("temp_" ++ pad3 (S i) ++ video_extension_of s)%string.

(** The tool of a clip ran to the end and reported success. *)
Definition tool_succeeded (run : ToolRun) : Prop :=
  tool_missing run = false /\ returncode run = 0.

(** The template data of clip [i] (counted from 0) of a job that writes
    separate clips, and the file the clip is written to when the template
    is given piece by piece. *)
Definition clip_data (w : World) (s : Settings) (meta : VideoMeta) (i : nat) : dict :=
  let raw := nth i (segments_raw s) (0, 0)%Q in
  dict_union
    [("filename", PStr (sanitize_filename (input_stem s)));
     ("resolution", PStr (resolution meta));
     ("date", PStr (now_date w));
     ("time", PStr (now_time w))]
    [("num", PInt (Z.of_nat i + 1));
     ("start", PInt (PyStr.int_of_float (fst raw)));
     ("end", PInt (PyStr.int_of_float (snd raw)))].

Definition clip_path (w : World) (s : Settings) (meta : VideoMeta) (ps : list piece)
  (i : nat) : string :=
  path_join (output_dir s)
    (expansion (clip_data w s meta i) ps ++ video_extension_of s)%string.

(** A piece whose placeholder, if it is one, is one of the seven. *)
Definition piece_known (p : piece) : Prop :=
  match p with
  | Text t => PyStr.contains_char is_brace t = false
  | OpenBrace | CloseBrace => True
  | Field name => plain_name name /\ In name known_placeholders
  end.

(** The placeholders whose value differs from clip to clip. *)
Definition varies_by_clip (name : string) : bool :=
  String.eqb name "num" || String.eqb name "start" || String.eqb name "end".

(** The clips in seconds, as the job computes them from the segments. *)
Definition segments_in_seconds (s : Settings) (meta : VideoMeta) : list (Q * Q) :=
  if String.eqb (mode s) "frames"
  then map (fun x => (fst x / fps meta, snd x / fps meta)%Q) (segments_raw s)
  else segments_raw s.

(** A duration far enough from zero for the percentage of an elapsed
    time to be computed: an elapsed time read from the tool is below
    362440 seconds, so the quotient, also multiplied by 100, stays far
    below the magnitude where floats are infinite. *)
Definition measurable (duration : Q) : Prop :=
  (duration <= - (1 # 10 ^ 300))%Q \/ (1 # 10 ^ 300 <= duration)%Q.


End Observations.

(* ===================================================================== *)
(** ** Concrete inputs *)
(* ===================================================================== *)

Module Demo.
Import Engine Gui.

(** A store with four segments, used to run the handlers on. *)
Definition demo_app : App :=
  mkApp (mkStore [new_Segment 0 10 "red" "";
                  new_Segment 10 20 "blue" "B";
                  new_Segment 30 40 "green" "";
                  new_Segment 41 50 "grey" "D"] []) [] [].

(** One command of each kind, each built against the store it meets. *)
Definition demo_cmds : list Command :=
  [AddSegmentCommand (60, 70, "pink", "");
   DeleteSegmentCommand 1 (10, 20, "blue", "B");
   UpdateSegmentCommand 0 (0, 10, "red", "Segment [0-10]") (0, 12, "red", "");
   new_MergeSegmentsCommand [2; 1] (30, 50, "green", "Merged [30-50]");
   ImportSegmentsCommand
     [(0, 12, "red", "Segment [0-12]"); (30, 50, "green", "Merged [30-50]");
      (60, 70, "pink", "Segment [60-70]")]
     [(5, 6, "black", "")]].

(** The streams of the example of the specification, all of them audio. *)
Definition spec_streams : list Stream :=
  [mkStream 1 1 "audio" (Some "eng");
   mkStream 2 2 "audio" (Some "jpn");
   mkStream 3 3 "audio" (Some "und")].

(** A formatter for fields with accessors or a format specification that
    supports nothing: every such field is refused. *)
Definition plain_format (_ : dict) (_ : pyval) (_ _ : string) : result string :=
  Raise (ValueError "Invalid format specifier").

(** One video and one audio stream at 25 frames per second. *)
Definition demo_meta : VideoMeta :=
  mkVideoMeta [mkStream 0 0 "video" None; mkStream 1 1 "audio" (Some "eng")]
    (25 # 1) (60 # 1) "1920x1080".

(** A tool that writes the given lines and exits with code 0. *)
Definition quiet_run (lines : list string) : ToolRun := mkToolRun false lines 0.

(** A world where every tool succeeds; the trims report the given lines
    and [stop()] happens at [cancel] if at all. *)
Definition demo_world (lines : list string) (cancel : option Point) : World :=
  mkWorld true (ProbeOk demo_meta) CropNone (fun _ => quiet_run lines)
    (quiet_run []) "2025-01-01" "12-00-00" "/tmp/job" (fun p => p) cancel.

(** Two segments in frames, [(0,100)] and [(100,250)], as in the
    specification. *)
Definition demo_settings (template : string) (merging : bool) (vmode : string)
  : Settings :=
  mkSettings "movie" ".mkv" "frames" [(0 # 1, 100 # 1); (100 # 1, 250 # 1)]%Q
    template merging vmode false ["eng"] [1] "/out" "/out/merged.mp4".

(** A re-encode of ten seconds. *)
Definition demo_call : TrimCall :=
  mkTrimCall 0 "/out/clip.mp4" (0 # 1) (10 # 1) "re-encode" None [].

End Demo.

(* ===================================================================== *)
(** * Properties *)
(* ===================================================================== *)

(** ** Facts about the list primitives *)

Module PyListFacts.
Import PyList.

Section Generic.
Context {A : Type}.

Lemma pop_snoc (l : list A) (x : A) : pop (l ++ [x]) = Some (l, x).
Proof.
  unfold pop. rewrite rev_app_distr. simpl. now rewrite rev_involutive.
Qed.

Lemma pop_nil : pop (@nil A) = None.
Proof. reflexivity. Qed.

Lemma len_app (l1 l2 : list A) : len (l1 ++ l2) = len l1 + len l2.
Proof. unfold len. rewrite length_app. lia. Qed.

Lemma len_nonneg (l : list A) : 0 <= len l.
Proof. unfold len. lia. Qed.

Lemma getitem_last (l : list A) (x : A) : getitem (l ++ [x]) (-1) = Ok x.
Proof.
  unfold getitem. change (-1 <? 0) with true. cbv iota.
  rewrite len_app. change (len [x]) with 1.
  pose proof (len_nonneg l) as Hl.
  replace (-1 + (len l + 1)) with (len l) by lia.
  replace ((0 <=? len l) && (len l <? len l + 1)) with true
    by (symmetry; apply andb_true_iff; split; [apply Z.leb_le | apply Z.ltb_lt]; lia).
  unfold len. rewrite Nat2Z.id.
  rewrite nth_error_app2 by lia. now rewrite Nat.sub_diag.
Qed.

Lemma getitem_nat (l : list A) (n : nat) (x : A) :
  nth_error l n = Some x -> getitem l (Z.of_nat n) = Ok x.
Proof.
  intros H. unfold getitem.
  assert (n < List.length l)%nat as Hn by (apply nth_error_Some; congruence).
  replace (Z.of_nat n <? 0) with false by (symmetry; apply Z.ltb_ge; lia).
  replace ((0 <=? Z.of_nat n) && (Z.of_nat n <? len l)) with true
    by (symmetry; apply andb_true_iff; split;
        [apply Z.leb_le | apply Z.ltb_lt]; unfold len; lia).
  now rewrite Nat2Z.id, H.
Qed.

(** Inserting at a valid position. *)
Lemma insert_nat (n : nat) (x : A) (l : list A) :
  (n <= List.length l)%nat ->
  insert (Z.of_nat n) x l = firstn n l ++ x :: skipn n l.
Proof.
  intros H. unfold insert.
  replace (Z.of_nat n <? 0) with false by (symmetry; apply Z.ltb_ge; lia).
  rewrite Z.min_l by (unfold len; lia). now rewrite Nat2Z.id.
Qed.

Lemma insert_delete_nth (n : nat) (x : A) (l : list A) :
  nth_error l n = Some x ->
  firstn n (delete_nth n l) ++ x :: skipn n (delete_nth n l) = l.
Proof.
  revert l. induction n as [|n IH]; intros [|y l] H; simpl in *; try discriminate.
  - now inversion H.
  - f_equal. now apply IH.
Qed.

Lemma delete_nth_insert (n : nat) (x : A) (l : list A) :
  (n <= List.length l)%nat ->
  delete_nth n (firstn n l ++ x :: skipn n l) = l.
Proof.
  revert l. induction n as [|n IH]; intros l H.
  - reflexivity.
  - destruct l as [|y l]; simpl in H; [lia|].
    unfold delete_nth in *. simpl. f_equal. apply IH. lia.
Qed.

Lemma length_delete_nth (n : nat) (l : list A) :
  (n < List.length l)%nat ->
  List.length (delete_nth n l) = (List.length l - 1)%nat.
Proof.
  intros H. unfold delete_nth.
  rewrite length_app, length_firstn, length_skipn. lia.
Qed.

Lemma nth_error_delete_nth_lt (n i : nat) (l : list A) :
  (i < n)%nat -> nth_error (delete_nth n l) i = nth_error l i.
Proof.
  revert i l. induction n as [|n IH]; intros i l H; [lia|].
  destruct l as [|y l]; [now destruct i|].
  destruct i as [|i]; [reflexivity|].
  unfold delete_nth in *. simpl. apply IH. lia.
Qed.

Lemma delete_nth_snoc (l : list A) (x : A) :
  delete_nth (List.length l) (l ++ [x]) = l.
Proof.
  unfold delete_nth. rewrite firstn_app, Nat.sub_diag, firstn_all.
  rewrite (skipn_all2 (n := S (List.length l)))
    by (rewrite length_app; simpl; lia).
  simpl. now rewrite !app_nil_r.
Qed.

(** *** The insertion sort *)

Variable leb : A -> A -> bool.

Lemma insert_sorted_perm (x : A) (l : list A) :
  Permutation (insert_sorted leb x l) (x :: l).
Proof.
  induction l as [|y l IH]; simpl; [reflexivity|].
  destruct (leb y x); [|reflexivity].
  rewrite IH. apply perm_swap.
Qed.

Lemma fold_insert_perm (l acc : list A) :
  Permutation (fold_left (fun acc x => insert_sorted leb x acc) l acc) (acc ++ l).
Proof.
  revert acc. induction l as [|x l IH]; intros acc; simpl.
  - now rewrite app_nil_r.
  - rewrite IH, insert_sorted_perm. apply Permutation_middle.
Qed.

Lemma sorted_perm (l : list A) : Permutation (sorted leb l) l.
Proof. unfold sorted. now rewrite fold_insert_perm. Qed.

Lemma sorted_length (l : list A) : List.length (sorted leb l) = List.length l.
Proof. apply Permutation_length, sorted_perm. Qed.

Hypothesis leb_total : forall a b, leb a b = true \/ leb b a = true.
Hypothesis leb_trans : forall a b c, leb a b = true -> leb b c = true -> leb a c = true.

Lemma insert_sorted_sorted (x : A) (l : list A) :
  StronglySorted (le leb) l -> StronglySorted (le leb) (insert_sorted leb x l).
Proof.
  induction 1 as [|y l Hs IH Hall]; simpl.
  - repeat constructor.
  - destruct (leb y x) eqn:E.
    + constructor; [exact IH|].
      eapply Permutation_Forall; [symmetry; apply insert_sorted_perm|].
      constructor; assumption.
    + assert (le leb x y) as Hxy by (destruct (leb_total x y); [assumption|congruence]).
      constructor; [constructor; assumption|].
      constructor; [assumption|].
      eapply Forall_impl; [|exact Hall]. intros z Hz. eapply leb_trans; eassumption.
Qed.

Lemma sorted_sorted (l : list A) : StronglySorted (le leb) (sorted leb l).
Proof.
  unfold sorted.
  assert (forall acc, StronglySorted (le leb) acc ->
            StronglySorted (le leb) (fold_left (fun acc x => insert_sorted leb x acc) l acc))
    as H.
  { induction l as [|x l IH]; intros acc Hacc; simpl; [assumption|].
    apply IH, insert_sorted_sorted, Hacc. }
  apply H. constructor.
Qed.

End Generic.
End PyListFacts.

(** ** The segment store and its commands *)

Module GuiFacts.
Import PyList PyListFacts Gui.

Lemma default_name_not_empty (s e : Z) :
  ("Segment [" ++ str_of_Z s ++ "-" ++ str_of_Z e ++ "]")%string <> EmptyString.
Proof. discriminate. Qed.

Lemma named_Segment_of_data (d : SegData) : named (Segment_of_data d).
Proof.
  destruct d as [[[s e] c] nm]. unfold named, Segment_of_data, new_Segment. simpl.
  destruct (String.eqb nm "") eqn:E.
  - apply default_name_not_empty.
  - intros ->. discriminate.
Qed.

Lemma Segment_of_data_of (seg : Segment) :
  named seg -> Segment_of_data (data_of seg) = seg.
Proof.
  destruct seg as [s e c nm]. unfold named, data_of, Segment_of_data, new_Segment.
  simpl. intros H. destruct (String.eqb nm "") eqn:E.
  - apply String.eqb_eq in E. contradiction.
  - reflexivity.
Qed.

Lemma map_Segment_of_data_of (segs : list Segment) :
  constructed segs -> map Segment_of_data (map data_of segs) = segs.
Proof.
  induction 1 as [|seg segs Hn _ IH]; cbn [map]; [reflexivity|].
  now rewrite Segment_of_data_of, IH.
Qed.

Lemma in_range_true (i : Z) (n : Z) :
  0 <= i < n -> (0 <=? i) && (i <? n) = true.
Proof. intros H. apply andb_true_iff. split; [apply Z.leb_le | apply Z.ltb_lt]; lia. Qed.

Lemma in_range_false (i : Z) (n : Z) :
  ~ (0 <= i < n) -> (0 <=? i) && (i <? n) = false.
Proof.
  intros H. apply andb_false_iff.
  destruct (Z.leb_spec 0 i); [right; apply Z.ltb_ge; lia | now left].
Qed.

(** *** What each operation of the segment manager does to the list *)

Lemma segments_emit (s : Signal) (st : Store) : segments (emit s st) = segments st.
Proof. reflexivity. Qed.

Lemma segments_append (d : SegData) (st : Store) :
  segments (add_segment d (-1) st) = segments st ++ [Segment_of_data d].
Proof. reflexivity. Qed.

Lemma segments_insert (d : SegData) (n : nat) (st : Store) :
  (n <= List.length (segments st))%nat ->
  segments (add_segment d (Z.of_nat n) st)
  = firstn n (segments st) ++ Segment_of_data d :: skipn n (segments st).
Proof.
  intros H. unfold add_segment.
  replace (Z.of_nat n =? -1) with false by (symmetry; apply Z.eqb_neq; lia).
  simpl. now apply insert_nat.
Qed.

Lemma segments_remove (n : nat) (st : Store) :
  (n < List.length (segments st))%nat ->
  segments (remove_segment (Z.of_nat n) st) = delete_nth n (segments st).
Proof.
  intros H. unfold remove_segment.
  rewrite in_range_true by (unfold len; lia). simpl. now rewrite Nat2Z.id.
Qed.

Lemma segments_remove_out (i : Z) (st : Store) :
  ~ (0 <= i < len (segments st)) -> remove_segment i st = st.
Proof. intros H. unfold remove_segment. now rewrite in_range_false. Qed.

Lemma segments_update (n : nat) (d : SegData) (st : Store) :
  (n < List.length (segments st))%nat ->
  segments (update_segment (Z.of_nat n) d st)
  = set_nth n (Segment_of_data d) (segments st).
Proof.
  intros H. unfold update_segment.
  rewrite in_range_true by (unfold len; lia). simpl. now rewrite Nat2Z.id.
Qed.

Lemma set_nth_set_nth {A : Type} (n : nat) (x y : A) (l : list A) :
  set_nth n y (set_nth n x l) = set_nth n y l.
Proof.
  revert n. induction l as [|z l IH]; intros [|n]; simpl; try reflexivity.
  now rewrite IH.
Qed.

Lemma set_nth_same {A : Type} (n : nat) (x : A) (l : list A) :
  nth_error l n = Some x -> set_nth n x l = l.
Proof.
  revert n. induction l as [|z l IH]; intros [|n] H; simpl in *; try discriminate.
  - now inversion H.
  - now rewrite IH.
Qed.

Lemma length_set_nth {A : Type} (n : nat) (x : A) (l : list A) :
  List.length (set_nth n x l) = List.length l.
Proof.
  revert n. induction l as [|z l IH]; intros [|n]; simpl; try reflexivity.
  now rewrite IH.
Qed.

Lemma Forall_set_nth {A : Type} (P : A -> Prop) (n : nat) (x : A) (l : list A) :
  P x -> Forall P l -> Forall P (set_nth n x l).
Proof.
  intros Hx H. revert n. induction H as [|z l Hz Hl IH]; intros [|n]; simpl;
    try constructor; try assumption. apply IH.
Qed.

Lemma Forall_firstn {A : Type} (P : A -> Prop) (n : nat) (l : list A) :
  Forall P l -> Forall P (firstn n l).
Proof.
  intros H. rewrite <- (firstn_skipn n l) in H. now apply Forall_app in H.
Qed.

Lemma Forall_skipn {A : Type} (P : A -> Prop) (n : nat) (l : list A) :
  Forall P l -> Forall P (skipn n l).
Proof.
  intros H. rewrite <- (firstn_skipn n l) in H. now apply Forall_app in H.
Qed.

Lemma Forall_delete_nth {A : Type} (P : A -> Prop) (n : nat) (l : list A) :
  Forall P l -> Forall P (delete_nth n l).
Proof.
  intros H. unfold delete_nth. apply Forall_app. split.
  - now apply Forall_firstn.
  - now apply Forall_skipn.
Qed.

Lemma Forall_insert {A : Type} (P : A -> Prop) (i : Z) (x : A) (l : list A) :
  P x -> Forall P l -> Forall P (insert i x l).
Proof.
  intros Hx H. unfold insert. apply Forall_app. split.
  - now apply Forall_firstn.
  - constructor; [assumption | now apply Forall_skipn].
Qed.

(** The invariant of the store: every operation keeps all names non-empty. *)
Lemma constructed_add (d : SegData) (i : Z) (st : Store) :
  constructed (segments st) -> constructed (segments (add_segment d i st)).
Proof.
  intros H. unfold add_segment, constructed. simpl. destruct (i =? -1).
  - apply Forall_app. split; [assumption|]. repeat constructor.
    apply named_Segment_of_data.
  - apply Forall_insert; [apply named_Segment_of_data | assumption].
Qed.

Lemma constructed_remove (i : Z) (st : Store) :
  constructed (segments st) -> constructed (segments (remove_segment i st)).
Proof.
  intros H. unfold remove_segment.
  destruct ((0 <=? i) && (i <? len (segments st))); [|assumption].
  simpl. now apply Forall_delete_nth.
Qed.

Lemma constructed_update (i : Z) (d : SegData) (st : Store) :
  constructed (segments st) -> constructed (segments (update_segment i d st)).
Proof.
  intros H. unfold update_segment.
  destruct ((0 <=? i) && (i <? len (segments st))); [|assumption].
  simpl. apply Forall_set_nth; [apply named_Segment_of_data | assumption].
Qed.

Lemma constructed_set (ds : list SegData) (st : Store) :
  constructed (segments (set_segments ds st)).
Proof.
  unfold set_segments, constructed. simpl. apply Forall_map.
  apply Forall_forall. intros d _. apply named_Segment_of_data.
Qed.

Lemma constructed_remove_all (idxs : list Z) (st : Store) :
  constructed (segments st) -> constructed (segments (remove_all idxs st)).
Proof.
  revert st. induction idxs as [|i r IH]; intros st H; simpl; [assumption|].
  apply IH, constructed_remove, H.
Qed.

(** *** Index lists in decreasing order *)

Lemma desc_below_mono (b b' : Z) (D : list Z) :
  b <= b' -> desc_below b D -> desc_below b' D.
Proof. destruct D as [|d r]; simpl; [trivial|]. intros Hb [H1 H2]. split; [lia|assumption]. Qed.

Lemma desc_below_in (b : Z) (D : list Z) (i : Z) :
  desc_below b D -> In i D -> 0 <= i < b.
Proof.
  revert b. induction D as [|d r IH]; intros b H Hin; [contradiction|].
  destruct H as [H1 H2]. destruct Hin as [->|Hin]; [assumption|].
  specialize (IH d H2 Hin). lia.
Qed.

Lemma desc_below_last (b : Z) (pre : list Z) (m : Z) :
  desc_below b (pre ++ [m]) -> 0 <= m /\ m + len pre + 1 <= b.
Proof.
  revert b. induction pre as [|d r IH]; intros b H.
  - simpl in H. unfold len. simpl. lia.
  - destruct H as [H1 H2]. specialize (IH d H2). unfold len in *.
    cbn [List.length]. lia.
Qed.

Lemma exists_last_cons {A : Type} (l : list A) :
  l <> [] -> exists pre x, l = pre ++ [x].
Proof.
  intros H. destruct (exists_last H) as [pre [x ->]]. eauto.
Qed.

(** Sorting a decreasing list in increasing order reverses it. *)
Lemma insert_leb_front (d : Z) (acc : list Z) :
  (forall y, In y acc -> d < y) -> insert_sorted Z.leb d acc = d :: acc.
Proof.
  destruct acc as [|y acc]; intros H; simpl; [reflexivity|].
  replace (y <=? d) with false; [reflexivity|].
  symmetry. apply Z.leb_gt. apply H. now left.
Qed.

Lemma fold_insert_desc (D : list Z) :
  forall b acc, desc_below b D -> (forall y, In y acc -> b <= y) ->
    fold_left (fun acc x => insert_sorted Z.leb x acc) D acc = rev D ++ acc.
Proof.
  induction D as [|d r IH]; intros b acc H Hacc; simpl; [reflexivity|].
  destruct H as [H1 H2].
  rewrite insert_leb_front by (intros y Hy; specialize (Hacc y Hy); lia).
  rewrite (IH d (d :: acc) H2).
  - now rewrite <- app_assoc.
  - intros y [<-|Hy]; [lia|]. specialize (Hacc y Hy). lia.
Qed.

Lemma sorted_asc_desc (b : Z) (D : list Z) :
  desc_below b D -> sorted_asc D = rev D.
Proof.
  intros H. unfold sorted_asc, sorted.
  rewrite (fold_insert_desc D b []); [apply app_nil_r | assumption | contradiction].
Qed.

(** Sorting distinct valid indices in decreasing order. *)
Lemma insert_geb_desc (x : Z) (D : list Z) :
  forall b, desc_below b D -> 0 <= x < b -> ~ In x D ->
    desc_below b (insert_sorted Z.geb x D).
Proof.
  induction D as [|y r IH]; intros b H Hx Hn; simpl.
  - split; [assumption|trivial].
  - destruct H as [H1 H2]. destruct (Z.geb_spec y x) as [Hge|Hlt].
    + simpl. split; [assumption|]. apply IH; [assumption| |].
      * assert (x <> y) by (intros ->; apply Hn; now left). lia.
      * intros Hin. apply Hn. now right.
    + simpl. split; [assumption|]. split; [lia|assumption].
Qed.

Lemma sorted_desc_below (b : Z) (l : list Z) :
  NoDup l -> (forall i, In i l -> 0 <= i < b) -> desc_below b (sorted_desc l).
Proof.
  intros Hnd Hin. unfold sorted_desc, sorted.
  assert (forall acc, desc_below b acc -> (forall i, In i l -> ~ In i acc) ->
            desc_below b (fold_left (fun acc x => insert_sorted Z.geb x acc) l acc))
    as H.
  { induction l as [|x l IH]; intros acc Hacc Hfresh; simpl; [assumption|].
    inversion Hnd as [|? ? Hx Hnd']; subst.
    apply IH; try assumption.
    - intros i Hi. apply Hin. now right.
    - apply insert_geb_desc; [assumption | apply Hin; now left | apply Hfresh; now left].
    - intros i Hi Hi'.
      apply (Permutation_in _ (insert_sorted_perm Z.geb x acc)) in Hi'.
      destruct Hi' as [<-|Hi']; [contradiction|].
      apply (Hfresh i); [now right | assumption]. }
  apply H; [exact I | intros i _ []].
Qed.

(** *** The merge command: capture, removal and re-insertion *)

Lemma getitem_index {A : Type} (l : list A) (i : Z) (x : A) :
  0 <= i -> nth_error l (Z.to_nat i) = Some x -> getitem l i = Ok x.
Proof.
  intros Hi H. rewrite <- (Z2Nat.id i) by assumption. now apply getitem_nat.
Qed.

Lemma capture_app (segs : list Segment) (a b : list Z) :
  capture segs (a ++ b)
  = (x <- capture segs a ;; y <- capture segs b ;; Ok (x ++ y)).
Proof.
  induction a as [|i a IH]; simpl.
  - destruct (capture segs b); reflexivity.
  - destruct (getitem segs i); simpl; [|reflexivity].
    rewrite IH. destruct (capture segs a); simpl; [|reflexivity].
    destruct (capture segs b); reflexivity.
Qed.

Lemma getitem_delete_nth_lt (d : nat) (segs : list Segment) (i : Z) :
  0 <= i < Z.of_nat d -> (d < List.length segs)%nat ->
  getitem (delete_nth d segs) i = getitem segs i.
Proof.
  intros Hi Hd. unfold getitem.
  replace (i <? 0) with false by (symmetry; apply Z.ltb_ge; lia).
  rewrite !in_range_true
    by (unfold len; rewrite ?length_delete_nth by assumption; lia).
  rewrite nth_error_delete_nth_lt by lia. reflexivity.
Qed.

Lemma capture_delete_nth (d : nat) (segs : list Segment) (idxs : list Z) :
  (forall i, In i idxs -> 0 <= i < Z.of_nat d) -> (d < List.length segs)%nat ->
  capture (delete_nth d segs) idxs = capture segs idxs.
Proof.
  intros H Hd. induction idxs as [|i r IH]; simpl; [reflexivity|].
  rewrite getitem_delete_nth_lt by (try apply H; try assumption; now left).
  rewrite IH; [reflexivity|]. intros j Hj. apply H. now right.
Qed.

Lemma reinsert_app (od : list SegData) (a b : list Z) :
  forall k st,
    reinsert od k (a ++ b) st
    = (st1 <- reinsert od k a st ;; reinsert od (k + len a) b st1).
Proof.
  induction a as [|i a IH]; intros k st; simpl.
  - unfold len. simpl. now rewrite Z.add_0_r.
  - destruct (getitem od k); simpl; [|reflexivity].
    rewrite IH. unfold len. cbn [List.length].
    replace (k + 1 + Z.of_nat (List.length a)) with (k + Z.of_nat (S (List.length a)))
      by lia.
    reflexivity.
Qed.

Lemma getitem_app_l {A : Type} (l extra : list A) (k : Z) :
  0 <= k < len l -> getitem (l ++ extra) k = getitem l k.
Proof.
  intros Hk. unfold getitem.
  replace (k <? 0) with false by (symmetry; apply Z.ltb_ge; lia).
  rewrite !in_range_true by (rewrite ?len_app; pose proof (len_nonneg extra); lia).
  rewrite nth_error_app1 by (unfold len in Hk; lia). reflexivity.
Qed.

Lemma reinsert_ext (od extra : list SegData) (idxs : list Z) :
  forall k st, 0 <= k -> k + len idxs <= len od ->
    reinsert (od ++ extra) k idxs st = reinsert od k idxs st.
Proof.
  induction idxs as [|i r IH]; intros k st Hk Hlen; simpl; [reflexivity|].
  unfold len in Hlen. cbn [List.length] in Hlen.
  rewrite getitem_app_l by (unfold len; lia).
  destruct (getitem od k); simpl; [|reflexivity].
  apply IH; unfold len; lia.
Qed.

Lemma nth_error_in_range {A : Type} (l : list A) (i : Z) :
  0 <= i < len l -> exists x, nth_error l (Z.to_nat i) = Some x.
Proof.
  intros H. destruct (nth_error l (Z.to_nat i)) eqn:E; [eauto|].
  apply nth_error_None in E. unfold len in H. lia.
Qed.

Lemma remove_segment_index (i : Z) (st : Store) :
  0 <= i < len (segments st) ->
  segments (remove_segment i st) = delete_nth (Z.to_nat i) (segments st).
Proof.
  intros H. rewrite <- (Z2Nat.id i) at 1 by lia. apply segments_remove.
  unfold len in H. lia.
Qed.

Lemma add_segment_index (d : SegData) (i : Z) (st : Store) :
  0 <= i <= len (segments st) ->
  segments (add_segment d i st)
  = firstn (Z.to_nat i) (segments st)
    ++ Segment_of_data d :: skipn (Z.to_nat i) (segments st).
Proof.
  intros H. rewrite <- (Z2Nat.id i) at 1 by lia. apply segments_insert.
  unfold len in H. lia.
Qed.

(** Removing the indices from the greatest down and then re-inserting the
    captured data from the smallest up gives the list back. *)
Lemma merge_roundtrip (D : list Z) :
  forall st, constructed (segments st) -> desc_below (len (segments st)) D ->
    exists od,
      capture (segments st) (rev D) = Ok od /\
      List.length od = List.length D /\
      forall st', segments st' = segments (remove_all D st) ->
        exists st2, reinsert od 0 (rev D) st' = Ok st2 /\ segments st2 = segments st.
Proof.
  induction D as [|d r IH]; intros st Hc HD.
  - exists []. simpl. repeat split. intros st' E. exists st'. now split.
  - destruct HD as [Hd Hr].
    destruct (nth_error_in_range (segments st) d Hd) as [seg Hseg].
    assert (Z.to_nat d < List.length (segments st))%nat as Hdn
      by (unfold len in Hd; lia).
    set (st_d := remove_segment d st).
    assert (segments st_d = delete_nth (Z.to_nat d) (segments st)) as Esd
      by (apply remove_segment_index; assumption).
    destruct (IH st_d) as [od [Hcap [Hlen Hre]]].
    { apply constructed_remove, Hc. }
    { apply desc_below_mono with (b := d); [|assumption].
      rewrite Esd. unfold len. rewrite length_delete_nth by assumption.
      unfold len in Hd. lia. }
    assert (forall i, In i (rev r) -> 0 <= i < Z.of_nat (Z.to_nat d)) as Hlt.
    { intros i Hi. apply in_rev in Hi.
      pose proof (desc_below_in _ _ _ Hr Hi). lia. }
    exists (od ++ [data_of seg]). split; [|split].
    + simpl. rewrite capture_app.
      rewrite <- (capture_delete_nth (Z.to_nat d)) by assumption.
      rewrite <- Esd, Hcap. simpl.
      rewrite (getitem_index _ _ _ (proj1 Hd) Hseg). reflexivity.
    + rewrite length_app. simpl. lia.
    + intros st' Est'. simpl rev. rewrite reinsert_app.
      rewrite reinsert_ext
        by (unfold len; rewrite ?length_rev; lia).
      destruct (Hre st') as [st2 [Hst2 Eseg2]]; [exact Est'|].
      rewrite Hst2. simpl.
      replace (len (rev r)) with (Z.of_nat (List.length od))
        by (unfold len; rewrite length_rev; lia).
      rewrite (getitem_nat (od ++ [data_of seg]) (List.length od) (data_of seg))
        by (rewrite nth_error_app2, Nat.sub_diag by lia; reflexivity).
      simpl. eexists. split; [reflexivity|].
      rewrite add_segment_index.
      * rewrite Eseg2, Esd, Segment_of_data_of.
        -- now apply insert_delete_nth.
        -- eapply Forall_forall; [exact Hc|]. eapply nth_error_In, Hseg.
      * rewrite Eseg2, Esd. unfold len. rewrite length_delete_nth by assumption.
        unfold len in Hd. lia.
Qed.

Lemma length_remove_all (D : list Z) :
  forall st, desc_below (len (segments st)) D ->
    len (segments (remove_all D st)) = len (segments st) - len D.
Proof.
  induction D as [|d r IH]; intros st HD; simpl.
  - unfold len. simpl. lia.
  - destruct HD as [Hd Hr].
    assert (len (segments (remove_segment d st)) = len (segments st) - 1) as E.
    { rewrite remove_segment_index by assumption. unfold len in *.
      rewrite length_delete_nth by lia. lia. }
    rewrite IH.
    + rewrite E. unfold len. cbn [List.length]. lia.
    + apply desc_below_mono with (b := d); [lia | assumption].
Qed.

(** *** The list of segments after an operation depends on the list only *)

Lemma remove_segment_congr (i : Z) (st st' : Store) :
  segments st = segments st' ->
  segments (remove_segment i st) = segments (remove_segment i st').
Proof.
  intros E. unfold remove_segment. rewrite E.
  destruct ((0 <=? i) && (i <? len (segments st'))); simpl; congruence.
Qed.

Lemma add_segment_congr (d : SegData) (i : Z) (st st' : Store) :
  segments st = segments st' ->
  segments (add_segment d i st) = segments (add_segment d i st').
Proof. intros E. unfold add_segment. simpl. now rewrite E. Qed.

Lemma update_segment_congr (i : Z) (d : SegData) (st st' : Store) :
  segments st = segments st' ->
  segments (update_segment i d st) = segments (update_segment i d st').
Proof.
  intros E. unfold update_segment. rewrite E.
  destruct ((0 <=? i) && (i <? len (segments st'))); simpl; congruence.
Qed.

Lemma remove_all_congr (D : list Z) :
  forall st st', segments st = segments st' ->
    segments (remove_all D st) = segments (remove_all D st').
Proof.
  induction D as [|d r IH]; intros st st' E; simpl; [assumption|].
  apply IH, remove_segment_congr, E.
Qed.

(** *** Every valid command is reversible *)

Lemma add_reversible (d : SegData) (s0 : list Segment) :
  reversible (AddSegmentCommand d) s0 (s0 ++ [Segment_of_data d]).
Proof.
  split; intros st E; simpl; eexists; (split; [reflexivity|]).
  - now rewrite segments_append, E.
  - rewrite E. unfold len. rewrite length_app. simpl.
    replace (Z.of_nat (List.length s0 + 1) - 1) with (Z.of_nat (List.length s0)) by lia.
    rewrite segments_remove by (rewrite E, length_app; simpl; lia).
    rewrite E. apply delete_nth_snoc.
Qed.

Lemma delete_reversible (i : Z) (seg : Segment) (s0 : list Segment) :
  0 <= i -> nth_error s0 (Z.to_nat i) = Some seg -> named seg ->
  reversible (DeleteSegmentCommand i (data_of seg)) s0 (delete_nth (Z.to_nat i) s0).
Proof.
  intros Hi Hseg Hn.
  assert (Z.to_nat i < List.length s0)%nat as Hlt
    by (apply nth_error_Some; congruence).
  split; intros st E; simpl; eexists; (split; [reflexivity|]).
  - rewrite remove_segment_index by (rewrite E; unfold len; lia). now rewrite E.
  - rewrite add_segment_index
      by (rewrite E; unfold len; rewrite length_delete_nth by assumption; lia).
    rewrite E, Segment_of_data_of by assumption. now apply insert_delete_nth.
Qed.

Lemma update_reversible (i : Z) (seg : Segment) (new : SegData) (s0 : list Segment) :
  0 <= i -> nth_error s0 (Z.to_nat i) = Some seg -> named seg ->
  reversible (UpdateSegmentCommand i (data_of seg) new) s0
    (set_nth (Z.to_nat i) (Segment_of_data new) s0).
Proof.
  intros Hi Hseg Hn.
  assert (Z.to_nat i < List.length s0)%nat as Hlt
    by (apply nth_error_Some; congruence).
  split; intros st E; simpl; eexists; (split; [reflexivity|]).
  - rewrite <- (Z2Nat.id i) at 1 by assumption.
    rewrite segments_update by (rewrite E; assumption). now rewrite E.
  - rewrite <- (Z2Nat.id i) at 1 by assumption.
    rewrite segments_update by (rewrite E, length_set_nth; assumption).
    rewrite E, set_nth_set_nth, Segment_of_data_of by assumption.
    now apply set_nth_same.
Qed.

Lemma update_out_reversible (i : Z) (old new : SegData) (s0 : list Segment) :
  ~ (0 <= i < len s0) -> reversible (UpdateSegmentCommand i old new) s0 s0.
Proof.
  intros Hout.
  split; intros st E; simpl; exists st; unfold update_segment;
    rewrite E, in_range_false by assumption; now split.
Qed.

Lemma import_reversible (new : list SegData) (s0 : list Segment) :
  constructed s0 ->
  reversible (ImportSegmentsCommand (map data_of s0) new) s0 (map Segment_of_data new).
Proof.
  intros Hc. split; intros st E; simpl; eexists; (split; [reflexivity|]).
  - reflexivity.
  - simpl. now apply map_Segment_of_data_of.
Qed.

Lemma merge_reversible (D : list Z) (merged : SegData) (ins0 : Z) (st : Store) :
  constructed (segments st) -> D <> [] -> desc_below (len (segments st)) D ->
  exists od m st',
    cmd_execute (MergeSegmentsCommand D merged [] ins0) st
      = Ok (MergeSegmentsCommand D merged od m, st') /\
    getitem D (-1) = Ok m /\
    segments st' = segments (add_segment merged m (remove_all D st)) /\
    reversible (MergeSegmentsCommand D merged od m) (segments st) (segments st').
Proof.
  intros Hc Hne HD.
  destruct (exists_last_cons D Hne) as [pre [m ED]].
  assert (getitem D (-1) = Ok m) as Hm by (rewrite ED; apply getitem_last).
  destruct (merge_roundtrip D st Hc HD) as [od [Hcap [Hlen Hre]]].
  assert (0 <= m /\ m + len pre + 1 <= len (segments st)) as [Hm0 Hmb]
    by (apply desc_below_last; rewrite <- ED; assumption).
  assert (len D = len pre + 1) as HlenD
    by (rewrite ED, len_app; reflexivity).
  assert (forall s, segments s = segments st ->
            len (segments (remove_all D s)) = len (segments st) - len D) as HL.
  { intros s Es. rewrite (remove_all_congr D s st Es). now apply length_remove_all. }
  exists od, m, (add_segment merged m (remove_all D st)).
  split; [|split; [assumption|split; [reflexivity|]]].
  - unfold cmd_execute, get_all_segments.
    rewrite (sorted_asc_desc _ _ HD), Hcap. simpl. rewrite Hm. reflexivity.
  - split.
    + intros s Es. simpl.
      destruct od as [|o od']; [destruct D; [contradiction|discriminate]|].
      simpl. rewrite Hm. simpl. eexists. split; [reflexivity|].
      apply add_segment_congr, remove_all_congr, Es.
    + intros s Es. simpl. rewrite (sorted_asc_desc _ _ HD).
      apply Hre.
      rewrite remove_segment_index
        by (rewrite Es, add_segment_index by (rewrite HL by reflexivity; lia);
            unfold len; rewrite length_app, length_firstn; simpl;
            rewrite length_skipn;
            specialize (HL st eq_refl); unfold len in *; lia).
      rewrite Es, add_segment_index by (rewrite HL by reflexivity; lia).
      apply delete_nth_insert.
      specialize (HL st eq_refl). unfold len in *. lia.
Qed.

Lemma cmd_roundtrip (cmd : Command) (st : Store) :
  constructed (segments st) -> valid_cmd (segments st) cmd ->
  exists cmd' st',
    cmd_execute cmd st = Ok (cmd', st') /\
    constructed (segments st') /\
    reversible cmd' (segments st) (segments st').
Proof.
  intros Hc Hv. destruct cmd as [d | i d | i old new | old new | D merged od ins].
  - exists (AddSegmentCommand d), (add_segment d (-1) st).
    split; [reflexivity|]. split; [now apply constructed_add|].
    rewrite segments_append. apply add_reversible.
  - destruct Hv as [Hi [seg [Hseg ->]]].
    assert (named seg) as Hn
      by (eapply Forall_forall; [exact Hc | eapply nth_error_In, Hseg]).
    exists (DeleteSegmentCommand i (data_of seg)), (remove_segment i st).
    split; [reflexivity|]. split; [now apply constructed_remove|].
    rewrite remove_segment_index.
    + now apply delete_reversible.
    + assert (Z.to_nat i < List.length (segments st))%nat
        by (apply nth_error_Some; congruence).
      unfold len. lia.
  - destruct Hv as [Hout | [Hi [seg [Hseg ->]]]].
    { exists (UpdateSegmentCommand i old new), st.
      split; [simpl; unfold update_segment; now rewrite in_range_false|].
      split; [assumption|]. now apply update_out_reversible. }
    assert (named seg) as Hn
      by (eapply Forall_forall; [exact Hc | eapply nth_error_In, Hseg]).
    exists (UpdateSegmentCommand i (data_of seg) new), (update_segment i new st).
    split; [reflexivity|]. split; [now apply constructed_update|].
    assert (Z.to_nat i < List.length (segments st))%nat
      by (apply nth_error_Some; congruence).
    rewrite <- (Z2Nat.id i) at 2 by assumption.
    rewrite segments_update by assumption.
    now apply update_reversible.
  - simpl in Hv. subst old.
    exists (ImportSegmentsCommand (map data_of (segments st)) new), (set_segments new st).
    split; [reflexivity|]. split; [apply constructed_set|].
    now apply import_reversible.
  - destruct Hv as [-> [Hne HD]].
    destruct (merge_reversible D merged ins st Hc Hne HD)
      as [od [m [st' [Hex [_ [Eseg Hrev]]]]]].
    exists (MergeSegmentsCommand D merged od m), st'.
    split; [assumption|]. split; [|assumption].
    rewrite Eseg. apply constructed_add, constructed_remove_all, Hc.
Qed.

(** *** The undo manager *)

Lemma um_execute_ok (cmd cmd' : Command) (a : App) (st' : Store) :
  cmd_execute cmd (sm a) = Ok (cmd', st') ->
  exists a', um_execute cmd a = Ok a' /\
    segments (sm a') = segments st' /\
    undo_stack a' = undo_stack a ++ [cmd'] /\
    redo_stack a' = [].
Proof.
  intros H. unfold um_execute. rewrite H. simpl. eexists. split; [reflexivity|].
  repeat split.
Qed.

Lemma um_undo_step (a : App) (U : list Command) (c : Command) (s0 s1 : list Segment) :
  undo_stack a = U ++ [c] -> reversible c s0 s1 -> segments (sm a) = s1 ->
  exists a', um_undo a = Ok a' /\
    segments (sm a') = s0 /\
    undo_stack a' = U /\
    redo_stack a' = redo_stack a ++ [c].
Proof.
  intros HU [_ Hundo] Es. unfold um_undo. rewrite HU, pop_snoc.
  destruct (Hundo (sm a) Es) as [st' [Hst' Eseg]]. rewrite Hst'. simpl.
  eexists. split; [reflexivity|]. repeat split. exact Eseg.
Qed.

Lemma um_redo_step (a : App) (R : list Command) (c : Command) (s0 s1 : list Segment) :
  redo_stack a = R ++ [c] -> reversible c s0 s1 -> segments (sm a) = s0 ->
  exists a', um_redo a = Ok a' /\
    segments (sm a') = s1 /\
    undo_stack a' = undo_stack a ++ [c] /\
    redo_stack a' = R.
Proof.
  intros HR [Hexec _] Es. unfold um_redo. rewrite HR, pop_snoc.
  destruct (Hexec (sm a) Es) as [st' [Hst' Eseg]]. rewrite Hst'. simpl.
  eexists. split; [reflexivity|]. repeat split. exact Eseg.
Qed.

Lemma chain_snoc (cs : list Command) (c : Command) :
  forall s0 s2,
    chain (cs ++ [c]) s0 s2 <-> exists s1, chain cs s0 s1 /\ reversible c s1 s2.
Proof.
  induction cs as [|c0 cs IH]; intros s0 s2; simpl.
  - split.
    + intros [s [Hr <-]]. exists s0. now split.
    + intros [s1 [<- Hr]]. exists s2. now split.
  - split.
    + intros [s [Hr Hch]]. apply IH in Hch. destruct Hch as [s1 [Hch Hc]].
      exists s1. split; [|assumption]. exists s. now split.
    + intros [s1 [[s [Hr Hch]] Hc]]. exists s. split; [assumption|].
      apply IH. exists s1. now split.
Qed.

Lemma execute_all_chain (cmds : list Command) :
  forall a, constructed (segments (sm a)) -> valid_run cmds a ->
    exists a1 cs,
      execute_all cmds a = Ok a1 /\
      undo_stack a1 = undo_stack a ++ cs /\
      List.length cs = List.length cmds /\
      chain cs (segments (sm a)) (segments (sm a1)).
Proof.
  induction cmds as [|cmd r IH]; intros a Hc Hv.
  - exists a, []. simpl. rewrite app_nil_r. repeat split.
  - destruct Hv as [Hvc Hvr].
    destruct (cmd_roundtrip cmd (sm a) Hc Hvc) as [cmd' [st' [Hex [Hc' Hrev]]]].
    destruct (um_execute_ok _ _ a _ Hex) as [a' [Ha' [Eseg [EU ER]]]].
    rewrite Ha' in Hvr.
    destruct (IH a') as [a1 [cs [Hall [EU1 [Hlen Hch]]]]];
      [rewrite Eseg; assumption | assumption |].
    exists a1, (cmd' :: cs). simpl. rewrite Ha'. simpl.
    split; [assumption|]. split; [|split].
    + rewrite EU1, EU, <- app_assoc. reflexivity.
    + now rewrite Hlen.
    + exists (segments (sm a')). split; [rewrite Eseg|]; assumption.
Qed.

Lemma undo_n_chain (cs : list Command) :
  forall s0 s1 a U,
    chain cs s0 s1 -> undo_stack a = U ++ cs -> segments (sm a) = s1 ->
    exists a2, undo_n (List.length cs) a = Ok a2 /\
      segments (sm a2) = s0 /\
      undo_stack a2 = U /\
      redo_stack a2 = redo_stack a ++ rev cs.
Proof.
  induction cs as [|c cs IH] using rev_ind; intros s0 s1 a U Hch HU Es.
  - exists a. simpl in *. subst. rewrite !app_nil_r in *. repeat split. assumption.
  - apply chain_snoc in Hch. destruct Hch as [s [Hch Hrev]].
    rewrite app_assoc in HU.
    destruct (um_undo_step a _ c s s1 HU Hrev Es) as [a' [Ha' [Es' [EU ER]]]].
    destruct (IH s0 s a' U Hch EU Es') as [a2 [Hn [Es2 [EU2 ER2]]]].
    exists a2. rewrite length_app, Nat.add_1_r. simpl. rewrite Ha'. simpl.
    split; [assumption|]. repeat split; try assumption.
    rewrite ER2, ER, rev_app_distr, <- app_assoc. reflexivity.
Qed.

Lemma redo_n_chain (cs : list Command) :
  forall s0 s1 a R,
    chain cs s0 s1 -> redo_stack a = R ++ rev cs -> segments (sm a) = s0 ->
    exists a3, redo_n (List.length cs) a = Ok a3 /\
      segments (sm a3) = s1 /\
      undo_stack a3 = undo_stack a ++ cs /\
      redo_stack a3 = R.
Proof.
  induction cs as [|c cs IH]; intros s0 s1 a R Hch HR Es.
  - exists a. simpl in *. subst. rewrite !app_nil_r in *. repeat split. assumption.
  - destruct Hch as [s [Hrev Hch]]. simpl in HR. rewrite app_assoc in HR.
    destruct (um_redo_step a _ c s0 s HR Hrev Es) as [a' [Ha' [Es' [EU ER]]]].
    destruct (IH s s1 a' R Hch ER Es') as [a3 [Hn [Es3 [EU3 ER3]]]].
    exists a3. simpl. rewrite Ha'. simpl.
    split; [assumption|]. repeat split; try assumption.
    rewrite EU3, EU, <- app_assoc. reflexivity.
Qed.

(** *** The merge handler *)

Lemma unselected_from_none (rows : list nat) (l : list Segment) :
  forall i, (forall r, In r rows -> (r < i)%nat) -> unselected_from rows i l = l.
Proof.
  induction l as [|x l IH]; intros i H; simpl; [reflexivity|].
  replace (existsb (Nat.eqb i) rows) with false.
  - f_equal. apply IH. intros r Hr. specialize (H r Hr). lia.
  - symmetry. apply not_true_is_false. intros E. apply existsb_exists in E.
    destruct E as [r [Hr Er]]. apply Nat.eqb_eq in Er. specialize (H r Hr). lia.
Qed.

Lemma unselected_from_delete (D : list nat) :
  forall d l i, (forall r, In r D -> (r < i + d)%nat) -> (d < List.length l)%nat ->
    unselected_from D i (delete_nth d l) = unselected_from ((i + d)%nat :: D) i l.
Proof.
  induction d as [|d IH]; intros [|x l] i H Hd; simpl in Hd; try lia.
  - unfold delete_nth. simpl. rewrite Nat.add_0_r, Nat.eqb_refl. simpl.
    rewrite !unselected_from_none; [reflexivity | |].
    + intros r [<-|Hr]; [lia|]. specialize (H r Hr). lia.
    + intros r Hr. specialize (H r Hr). lia.
  - change (delete_nth (S d) (x :: l)) with (x :: delete_nth d l).
    simpl. replace (i =? i + S d)%nat with false by (symmetry; apply Nat.eqb_neq; lia).
    simpl. replace (i + S d)%nat with (S i + d)%nat by lia.
    destruct (existsb (Nat.eqb i) D); [|f_equal];
      apply IH; try lia; intros r Hr; specialize (H r Hr); lia.
Qed.

Lemma unselected_from_ext (R R' : list nat) (l : list Segment) :
  (forall r, In r R <-> In r R') ->
  forall i, unselected_from R i l = unselected_from R' i l.
Proof.
  intros H. induction l as [|x l IH]; intros i; simpl; [reflexivity|].
  assert (existsb (Nat.eqb i) R = existsb (Nat.eqb i) R') as ->.
  { apply eq_true_iff_eq. rewrite !existsb_exists.
    split; intros [r [Hr Er]]; exists r; (split; [apply H|]; assumption). }
  now rewrite !IH.
Qed.

Lemma remove_all_unselected (D : list Z) :
  forall st, desc_below (len (segments st)) D ->
    segments (remove_all D st) = unselected (map Z.to_nat D) (segments st).
Proof.
  induction D as [|d r IH]; intros st HD; simpl.
  - unfold unselected. now rewrite unselected_from_none by (intros ? []).
  - destruct HD as [Hd Hr].
    assert (Z.to_nat d < List.length (segments st))%nat as Hdn
      by (unfold len in Hd; lia).
    rewrite IH.
    + rewrite remove_segment_index by assumption. unfold unselected.
      apply (unselected_from_delete (map Z.to_nat r) (Z.to_nat d) (segments st) 0).
      * intros x Hx. apply in_map_iff in Hx. destruct Hx as [z [<- Hz]].
        pose proof (desc_below_in _ _ _ Hr Hz). lia.
      * assumption.
    + apply desc_below_mono with (b := d); [|assumption].
      rewrite remove_segment_index by assumption. unfold len in *.
      rewrite length_delete_nth by assumption. lia.
Qed.

Lemma selected_items_fst (rows : list nat) (a : App) :
  (forall r, In r rows -> (r < List.length (segments (sm a)))%nat) ->
  map fst (selected_items rows a) = map Z.of_nat rows.
Proof.
  unfold selected_items. induction rows as [|r rows IH]; intros H; simpl; [reflexivity|].
  destruct (nth_error (segments (sm a)) r) eqn:E.
  - simpl. f_equal. apply IH. intros x Hx. apply H. now right.
  - apply nth_error_None in E. specialize (H r (or_introl eq_refl)). lia.
Qed.

Lemma selected_items_in (rows : list nat) (a : App) (x : Z * Segment) :
  In x (selected_items rows a) <->
  exists r, In r rows /\ fst x = Z.of_nat r /\ nth_error (segments (sm a)) r = Some (snd x).
Proof.
  unfold selected_items. rewrite in_flat_map. split.
  - intros [r [Hr Hx]]. exists r. split; [assumption|].
    destruct (nth_error (segments (sm a)) r); [|contradiction].
    destruct Hx as [<-|[]]. now split.
  - intros [r [Hr [E1 E2]]]. exists r. split; [assumption|]. rewrite E2.
    left. destruct x; simpl in *. now subst.
Qed.

Lemma has_gap_false_iff (segs : list (Z * Segment)) :
  has_gap segs = false <-> adjacent_or_overlapping segs.
Proof.
  induction segs as [|x [|y r] IH].
  - split; [intros _ [|i] ? ? H; discriminate | reflexivity].
  - split; [intros _ [|[|i]] ? ? H1 H2; discriminate | reflexivity].
  - change (has_gap (x :: y :: r))
      with ((end_frame (snd x) <? start_frame (snd y) - 1) || has_gap (y :: r)).
    rewrite orb_false_iff, IH, Z.ltb_ge. split.
    + intros [H1 H2] [|i] u v Hu Hv.
      * simpl in Hu, Hv. inversion Hu; inversion Hv; subst. lia.
      * apply (H2 i u v); assumption.
    + intros H. split.
      * specialize (H 0%nat x y eq_refl eq_refl). lia.
      * intros i u v Hu Hv. apply (H (S i) u v); assumption.
Qed.

Lemma by_start_total (x y : Z * Segment) : by_start x y = true \/ by_start y x = true.
Proof. unfold by_start. rewrite !Z.leb_le. lia. Qed.

Lemma by_start_trans (x y z : Z * Segment) :
  by_start x y = true -> by_start y z = true -> by_start x z = true.
Proof. unfold by_start. rewrite !Z.leb_le. lia. Qed.

Lemma fold_max_bounds (l : list (Z * Segment)) :
  forall m : Z,
    let f := fun (m : Z) (x : Z * Segment) =>
               if m <? end_frame (snd x) then end_frame (snd x) else m in
    m <= fold_left f l m /\
    (forall x, In x l -> end_frame (snd x) <= fold_left f l m) /\
    (fold_left f l m = m \/ exists x, In x l /\ end_frame (snd x) = fold_left f l m).
Proof.
  induction l as [|y l IH]; intros m f; simpl.
  - split; [lia|]. split; [intros ? []| now left].
  - destruct (IH (f m y)) as [H1 [H2 H3]]. fold f in H1, H2, H3.
    assert (m <= f m y /\ end_frame (snd y) <= f m y /\
            (f m y = m \/ f m y = end_frame (snd y))) as [Hm [Hy Hc]]
      by (unfold f; destruct (Z.ltb_spec m (end_frame (snd y))); lia).
    split; [lia|]. split.
    + intros x [<-|Hx]; [lia | now apply H2].
    + destruct H3 as [H3|[x [Hx H3]]].
      * destruct Hc as [Hc|Hc].
        -- left. congruence.
        -- right. exists y. split; [now left | congruence].
      * right. exists x. split; [now right | assumption].
Qed.

Lemma max_end_bounds (first : Z * Segment) (others : list (Z * Segment)) :
  (forall x, In x (first :: others) -> end_frame (snd x) <= max_end first others) /\
  (exists x, In x (first :: others) /\ end_frame (snd x) = max_end first others).
Proof.
  unfold max_end.
  destruct (fold_max_bounds others (end_frame (snd first))) as [H1 [H2 H3]].
  split.
  - intros x [<-|Hx]; [assumption | now apply H2].
  - destruct H3 as [H3|[x [Hx H3]]].
    + exists first. split; [now left | now rewrite H3].
    + exists x. split; [now right | assumption].
Qed.

Section Handler.

Variables (rows : list nat) (a : App).
Hypothesis rows_distinct : NoDup rows.
Hypothesis rows_valid :
  forall r, In r rows -> (r < List.length (segments (sm a)))%nat.
Hypothesis rows_many : (2 <= List.length rows)%nat.

Let sel := selection_by_start rows a.

Lemma selection_perm : Permutation (map fst sel) (map Z.of_nat rows).
Proof.
  unfold sel, selection_by_start.
  rewrite <- (selected_items_fst rows a rows_valid).
  apply Permutation_map, sorted_perm.
Qed.

Lemma selection_length : List.length sel = List.length rows.
Proof.
  rewrite <- (length_map fst sel), (Permutation_length selection_perm).
  apply length_map.
Qed.

Lemma selection_in (x : Z * Segment) :
  In x sel <->
  exists r, In r rows /\ fst x = Z.of_nat r
            /\ nth_error (segments (sm a)) r = Some (snd x).
Proof.
  unfold sel, selection_by_start. rewrite <- selected_items_in. split.
  - apply Permutation_in, sorted_perm.
  - apply Permutation_in. symmetry. apply sorted_perm.
Qed.

Lemma selection_indices_below :
  desc_below (len (segments (sm a))) (sorted_desc (map fst sel)).
Proof using rows_distinct rows_valid.
  clear rows_many.
  apply sorted_desc_below.
  - apply (Permutation_NoDup (l := map Z.of_nat rows)).
    + symmetry. apply selection_perm.
    + apply Finite.Injective_map_NoDup; [|assumption].
      intros x y. apply Nat2Z.inj.
  - intros i Hi. apply (Permutation_in _ selection_perm) in Hi.
    apply in_map_iff in Hi. destruct Hi as [r [<- Hr]].
    specialize (rows_valid r Hr). unfold len. lia.
Qed.

Lemma selection_indices_in (z : Z) :
  In z (sorted_desc (map fst sel)) <-> In z (map Z.of_nat rows).
Proof.
  split; intros H.
  - apply (Permutation_in _ selection_perm).
    apply (Permutation_in _ (sorted_perm Z.geb (map fst sel))). assumption.
  - apply (Permutation_in (l := map fst sel)).
    + symmetry. apply sorted_perm.
    + apply (Permutation_in (l := map Z.of_nat rows)); [|assumption].
      symmetry. apply selection_perm.
Qed.

Lemma selection_indices_not_nil : sorted_desc (map fst sel) <> [].
Proof.
  intros E. apply (f_equal (@List.length Z)) in E.
  unfold sorted_desc in E. rewrite sorted_length, length_map, selection_length in E.
  simpl in E. lia.
Qed.

Lemma merge_handler_rejects :
  has_gap sel = true -> merge_selected_segments rows a = Ok a.
Proof.
  intros H. unfold merge_selected_segments. fold (selection_by_start rows a).
  fold sel. rewrite H. now destruct (len (selected_items rows a) <? 2).
Qed.

Lemma merge_handler_executes :
  has_gap sel = false ->
  exists first others,
    sel = first :: others /\
    merge_selected_segments rows a
    = um_execute
        (new_MergeSegmentsCommand (map fst sel)
           (start_frame (snd first), max_end first others, color (snd first),
            ("Merged [" ++ str_of_Z (start_frame (snd first)) ++ "-"
             ++ str_of_Z (max_end first others) ++ "]")%string)) a.
Proof.
  intros H. unfold merge_selected_segments. fold (selection_by_start rows a).
  fold sel. rewrite H.
  assert ((len (selected_items rows a) <? 2) = false) as ->.
  { apply Z.ltb_ge. unfold len.
    rewrite <- (length_map fst), selected_items_fst, length_map by assumption. lia. }
  pose proof selection_length as Hl.
  destruct sel as [|first others] eqn:E; [simpl in Hl; lia|].
  exists first, others. split; reflexivity.
Qed.

End Handler.

Lemma capture_in_range (segs : list Segment) (idxs : list Z) :
  (forall i, In i idxs -> 0 <= i < len segs) ->
  exists od, capture segs idxs = Ok od /\ List.length od = List.length idxs.
Proof.
  induction idxs as [|i r IH]; intros H; simpl.
  - now exists [].
  - destruct (nth_error_in_range segs i (H i (or_introl eq_refl))) as [seg Hseg].
    rewrite (getitem_index segs i seg) by (try assumption; apply H; now left).
    destruct IH as [od [Hod Hlen]]; [intros j Hj; apply H; now right|].
    rewrite Hod. simpl. eexists. split; [reflexivity|]. simpl. now rewrite Hlen.
Qed.

Lemma desc_last_min (pre : list Z) (m : Z) :
  forall b, desc_below b (pre ++ [m]) -> forall z, In z (pre ++ [m]) -> m <= z.
Proof.
  induction pre as [|d r IH]; intros b H z Hz.
  - destruct Hz as [<-|[]]. lia.
  - destruct H as [H1 H2]. destruct Hz as [<-|Hz].
    + assert (In m (r ++ [m])) as Hm by (apply in_or_app; right; now left).
      pose proof (desc_below_in _ _ _ H2 Hm). lia.
    + now apply (IH d).
Qed.

(** The first execution of a merge command on valid, distinct indices. *)
Lemma merge_executes (D : list Z) (merged : SegData) (ins0 : Z) (st : Store) :
  D <> [] -> desc_below (len (segments st)) D ->
  exists od m,
    cmd_execute (MergeSegmentsCommand D merged [] ins0) st
      = Ok (MergeSegmentsCommand D merged od m,
            add_segment merged m (remove_all D st)) /\
    In m D /\ (forall z, In z D -> m <= z) /\
    0 <= m /\ m + len D <= len (segments st).
Proof.
  intros Hne HD.
  destruct (exists_last_cons D Hne) as [pre [m ED]].
  assert (getitem D (-1) = Ok m) as Hm by (rewrite ED; apply getitem_last).
  destruct (capture_in_range (segments st) (rev D)) as [od [Hcap _]].
  { intros i Hi. apply in_rev in Hi. eapply desc_below_in; eassumption. }
  exists od, m. split; [|split; [|split]].
  - unfold cmd_execute, get_all_segments.
    rewrite (sorted_asc_desc _ _ HD), Hcap. simpl. now rewrite Hm.
  - rewrite ED. apply in_or_app. right. now left.
  - rewrite ED in HD |- *. now apply desc_last_min with (b := len (segments st)).
  - rewrite ED in HD. apply desc_below_last in HD.
    rewrite ED, len_app. change (len [m]) with 1. lia.
Qed.

End GuiFacts.

(** ** Merge, undo and redo on the segment store *)

Module SegmentStore.
Import PyList PyListFacts Gui GuiFacts Demo.

(** C5. For a store whose segments were all built by the constructor and
    a selection of at least two distinct rows whose frame ranges, sorted
    by start, touch or overlap pairwise, the merge handler executes one
    command, and undoing it gives back the original list of segments:
    every segment at its original index, in the original order. *)
Theorem merge_then_undo_restores (rows : list nat) (a : App) :
  constructed (segments (sm a)) ->
  NoDup rows ->
  (forall r, In r rows -> (r < List.length (segments (sm a)))%nat) ->
  (2 <= List.length rows)%nat ->
  adjacent_or_overlapping (selection_by_start rows a) ->
  exists a1 a2 cmd,
    merge_selected_segments rows a = Ok a1 /\
    undo_stack a1 = undo_stack a ++ [cmd] /\
    um_undo a1 = Ok a2 /\
    segments (sm a2) = segments (sm a) /\
    undo_stack a2 = undo_stack a.
Proof.
  intros Hc Hnd Hval Hmany Hadj.
  apply has_gap_false_iff in Hadj.
  destruct (merge_handler_executes rows a Hval Hmany Hadj)
    as [first [others [Esel Hrun]]].
  pose proof (selection_indices_below rows a Hnd Hval) as HD.
  pose proof (selection_indices_not_nil rows a Hval Hmany) as Hne.
  unfold new_MergeSegmentsCommand in Hrun.
  set (md := (start_frame (snd first), max_end first others, color (snd first),
              ("Merged [" ++ str_of_Z (start_frame (snd first)) ++ "-"
               ++ str_of_Z (max_end first others) ++ "]")%string)) in *.
  destruct (merge_reversible _ md (-1) (sm a) Hc Hne HD)
    as [od [m [st' [Hex [_ [_ Hrev]]]]]].
  destruct (um_execute_ok _ _ a _ Hex) as [a1 [Ha1 [Eseg [EU _]]]].
  destruct (um_undo_step a1 (undo_stack a) _ (segments (sm a)) (segments (sm a1)) EU)
    as [a2 [Ha2 [Es2 [EU2 _]]]]; [rewrite Eseg; assumption | reflexivity |].
  exists a1, a2, (MergeSegmentsCommand (sorted_desc (map fst (selection_by_start rows a)))
                    md od m).
  rewrite Hrun. repeat split; assumption.
Qed.

Lemma merge_then_undo_restores_witness :
  exists a1 a2 cmd,
    merge_selected_segments [3; 2]%nat demo_app = Ok a1 /\
    undo_stack a1 = undo_stack demo_app ++ [cmd] /\
    um_undo a1 = Ok a2 /\
    segments (sm a2) = segments (sm demo_app) /\
    undo_stack a2 = undo_stack demo_app.
Proof.
  apply (merge_then_undo_restores [3; 2]%nat demo_app).
  - repeat constructor; discriminate.
  - repeat constructor; simpl; intuition discriminate.
  - simpl. intros r [<-|[<-|[]]]; lia.
  - simpl. lia.
  - apply has_gap_false_iff. reflexivity.
Defined.

(** C6. For a store whose segments were all built by the constructor and
    a sequence of N commands (add, delete, update, import, merge), each
    built against the store it is executed on, N undo calls after the N
    executions give back the list of segments from before the sequence,
    and N redo calls after that give the list reached by the executions. *)
Theorem execute_undo_redo_round_trip (cmds : list Command) (a : App) :
  constructed (segments (sm a)) ->
  valid_run cmds a ->
  exists a1 a2 a3,
    execute_all cmds a = Ok a1 /\
    undo_n (List.length cmds) a1 = Ok a2 /\
    segments (sm a2) = segments (sm a) /\
    redo_n (List.length cmds) a2 = Ok a3 /\
    segments (sm a3) = segments (sm a1).
Proof.
  intros Hc Hv.
  destruct (execute_all_chain cmds a Hc Hv) as [a1 [cs [Hall [EU [Hlen Hch]]]]].
  destruct (undo_n_chain cs _ _ a1 (undo_stack a) Hch EU eq_refl)
    as [a2 [Hun [Es2 [EU2 ER2]]]].
  destruct (redo_n_chain cs _ _ a2 (redo_stack a1) Hch ER2 Es2)
    as [a3 [Hre [Es3 _]]].
  exists a1, a2, a3. rewrite <- Hlen. repeat split; assumption.
Qed.

Lemma execute_undo_redo_round_trip_witness :
  exists a1 a2 a3,
    execute_all demo_cmds demo_app = Ok a1 /\
    undo_n 5 a1 = Ok a2 /\
    segments (sm a2) = segments (sm demo_app) /\
    redo_n 5 a2 = Ok a3 /\
    segments (sm a3) = segments (sm a1).
Proof.
  apply (execute_undo_redo_round_trip demo_cmds demo_app).
  - repeat constructor; discriminate.
  - simpl. repeat split; try lia; try discriminate;
      try (eexists; split; reflexivity).
    right. split; [lia|]. eexists. split; reflexivity.
Defined.

(** An undo or a redo on an empty stack changes nothing and still emits
    the dirty signal. *)
Lemma um_undo_empty (a : App) :
  undo_stack a = [] -> um_undo a = Ok (emit_app command_executed a).
Proof. intros H. unfold um_undo. now rewrite H. Qed.

Lemma um_redo_empty (a : App) :
  redo_stack a = [] -> um_redo a = Ok (emit_app command_executed a).
Proof. intros H. unfold um_redo. now rewrite H. Qed.

(** C7. On a fresh application (empty store, empty stacks) a call of
    [undo], and likewise a call of [redo], leaves the store and the stacks
    as they are and emits the dirty signal [command_executed] once; the
    signal is not reserved to calls that change the store. *)
Theorem noop_undo_redo_emit_dirty :
  let a0 := mkApp (mkStore [] []) [] [] in
  (exists a1, um_undo a0 = Ok a1 /\
     segments (sm a1) = segments (sm a0) /\
     undo_stack a1 = [] /\ redo_stack a1 = [] /\
     emitted (sm a1) = [command_executed]) /\
  (exists a1, um_redo a0 = Ok a1 /\
     segments (sm a1) = segments (sm a0) /\
     undo_stack a1 = [] /\ redo_stack a1 = [] /\
     emitted (sm a1) = [command_executed]).
Proof.
  split; eexists; (split; [reflexivity|]); repeat split.
Qed.

(** The merged segment and where it goes, for a selection that passes the
    adjacency test. *)
Lemma merge_result (rows : list nat) (a : App) :
  NoDup rows ->
  (forall r, In r rows -> (r < List.length (segments (sm a)))%nat) ->
  (2 <= List.length rows)%nat ->
  has_gap (selection_by_start rows a) = false ->
  exists a' m first others,
    selection_by_start rows a = first :: others /\
    merge_selected_segments rows a = Ok a' /\
    In m rows /\ (forall r, In r rows -> (m <= r)%nat) /\
    nth_error (segments (sm a')) m
      = Some (mkSegment (start_frame (snd first)) (max_end first others)
                (color (snd first))
                ("Merged [" ++ str_of_Z (start_frame (snd first)) ++ "-"
                 ++ str_of_Z (max_end first others) ++ "]")%string) /\
    delete_nth m (segments (sm a')) = unselected rows (segments (sm a)).
Proof.
  intros Hnd Hval Hmany Hgap.
  destruct (merge_handler_executes rows a Hval Hmany Hgap)
    as [first [others [Esel Hrun]]].
  pose proof (selection_indices_below rows a Hnd Hval) as HD.
  pose proof (selection_indices_not_nil rows a Hval Hmany) as Hne.
  pose proof (selection_indices_in rows a Hval) as Hin.
  unfold new_MergeSegmentsCommand in Hrun.
  set (D := sorted_desc (map fst (selection_by_start rows a))) in *.
  set (md := (start_frame (snd first), max_end first others, color (snd first),
              ("Merged [" ++ str_of_Z (start_frame (snd first)) ++ "-"
               ++ str_of_Z (max_end first others) ++ "]")%string)) in *.
  destruct (merge_executes D md (-1) (sm a) Hne HD)
    as [od [m [Hex [HmD [Hmin [Hm0 Hmb]]]]]].
  destruct (um_execute_ok _ _ a _ Hex) as [a' [Ha' [Eseg _]]].
  pose proof (length_remove_all D (sm a) HD) as HlenL.
  assert (segments (sm a')
          = firstn (Z.to_nat m) (segments (remove_all D (sm a)))
            ++ Segment_of_data md
               :: skipn (Z.to_nat m) (segments (remove_all D (sm a)))) as Eres.
  { rewrite Eseg. apply add_segment_index. lia. }
  assert (Z.to_nat m <= List.length (segments (remove_all D (sm a))))%nat as HmL
    by (unfold len in *; lia).
  exists a', (Z.to_nat m), first, others.
  split; [assumption|]. split; [now rewrite Hrun|]. split; [|split; [|split]].
  - apply Hin in HmD. apply in_map_iff in HmD. destruct HmD as [r [<- Hr]].
    now rewrite Nat2Z.id.
  - intros r Hr.
    assert (In (Z.of_nat r) D) as HrD by (apply Hin, in_map, Hr).
    specialize (Hmin _ HrD). lia.
  - rewrite Eres, nth_error_app2 by (rewrite length_firstn; lia).
    rewrite length_firstn, Nat.min_l, Nat.sub_diag by assumption. reflexivity.
  - rewrite Eres, delete_nth_insert by assumption.
    rewrite remove_all_unselected by assumption. unfold unselected.
    apply unselected_from_ext. intros r. rewrite in_map_iff. split.
    + intros [z [<- Hz]]. apply Hin in Hz. apply in_map_iff in Hz.
      destruct Hz as [r' [<- Hr']]. now rewrite Nat2Z.id.
    + intros Hr. exists (Z.of_nat r). split; [apply Nat2Z.id|].
      apply Hin, in_map, Hr.
Qed.

(** C4. For a selection of at least two distinct rows: when the frame
    ranges, sorted by start, do not touch or overlap pairwise, the merge
    handler changes nothing (store, stacks and signals stay as they are);
    otherwise it replaces the selected segments by one new segment that
    sits at the smallest selected row, leaves the unselected segments in
    their order, starts at the least selected start frame with the colour
    of a segment that starts there, and ends at the greatest selected end
    frame. *)
Theorem merge_selected_segments_spec (rows : list nat) (a : App) :
  NoDup rows ->
  (forall r, In r rows -> (r < List.length (segments (sm a)))%nat) ->
  (2 <= List.length rows)%nat ->
  (~ adjacent_or_overlapping (selection_by_start rows a) ->
   merge_selected_segments rows a = Ok a) /\
  (adjacent_or_overlapping (selection_by_start rows a) ->
   exists a' m merged,
     merge_selected_segments rows a = Ok a' /\
     In m rows /\ (forall r, In r rows -> (m <= r)%nat) /\
     nth_error (segments (sm a')) m = Some merged /\
     delete_nth m (segments (sm a')) = unselected rows (segments (sm a)) /\
     (forall r seg, In r rows -> nth_error (segments (sm a)) r = Some seg ->
        start_frame merged <= start_frame seg /\ end_frame seg <= end_frame merged) /\
     (exists r seg, In r rows /\ nth_error (segments (sm a)) r = Some seg /\
        start_frame seg = start_frame merged /\ color seg = color merged) /\
     (exists r seg, In r rows /\ nth_error (segments (sm a)) r = Some seg /\
        end_frame seg = end_frame merged)).
Proof.
  intros Hnd Hval Hmany. split.
  - intros Hno. apply merge_handler_rejects.
    destruct (has_gap (selection_by_start rows a)) eqn:E; [reflexivity|].
    apply has_gap_false_iff in E. contradiction.
  - intros Hadj. apply has_gap_false_iff in Hadj.
    destruct (merge_result rows a Hnd Hval Hmany Hadj)
      as [a' [m [first [others [Esel [Hrun [Hm [Hmin [Hnth Hdel]]]]]]]]].
    pose proof (sorted_sorted by_start by_start_total by_start_trans
                  (selected_items rows a)) as Hsorted.
    fold (selection_by_start rows a) in Hsorted. rewrite Esel in Hsorted.
    apply StronglySorted_inv in Hsorted. destruct Hsorted as [_ Hfirst].
    assert (forall x, In x (first :: others) ->
              start_frame (snd first) <= start_frame (snd x)) as Hstart.
    { intros x [<-|Hx]; [lia|].
      rewrite Forall_forall in Hfirst. specialize (Hfirst x Hx).
      unfold le, by_start in Hfirst. now apply Z.leb_le. }
    destruct (max_end_bounds first others) as [Hend [xe [Hxe Exe]]].
    assert (forall x, In x (first :: others) ->
              exists r, In r rows /\ nth_error (segments (sm a)) r = Some (snd x))
      as Hback.
    { intros x Hx. rewrite <- Esel in Hx. apply selection_in in Hx.
      destruct Hx as [r [Hr [_ Er]]]. eauto. }
    eexists a', m, _. split; [exact Hrun|]. split; [exact Hm|].
    split; [exact Hmin|]. split; [exact Hnth|]. split; [exact Hdel|].
    simpl. split; [|split].
    + intros r seg Hr Hseg.
      assert (In (Z.of_nat r, seg) (first :: others)) as Hx.
      { rewrite <- Esel. apply selection_in. exists r. now repeat split. }
      split; [apply (Hstart _ Hx) | apply (Hend _ Hx)].
    + destruct (Hback first (or_introl eq_refl)) as [r [Hr Er]].
      exists r, (snd first). now repeat split.
    + destruct (Hback xe Hxe) as [r [Hr Er]].
      exists r, (snd xe). now repeat split.
Qed.

Lemma merge_selected_segments_spec_witness :
  merge_selected_segments [2; 0]%nat demo_app = Ok demo_app /\
  exists a' m merged,
    merge_selected_segments [3; 2]%nat demo_app = Ok a' /\
    In m [3; 2]%nat /\ (forall r, In r [3; 2]%nat -> (m <= r)%nat) /\
    nth_error (segments (sm a')) m = Some merged /\
    delete_nth m (segments (sm a'))
      = unselected [3; 2]%nat (segments (sm demo_app)) /\
    (forall r seg, In r [3; 2]%nat ->
       nth_error (segments (sm demo_app)) r = Some seg ->
       start_frame merged <= start_frame seg /\ end_frame seg <= end_frame merged) /\
    (exists r seg, In r [3; 2]%nat /\
       nth_error (segments (sm demo_app)) r = Some seg /\
       start_frame seg = start_frame merged /\ color seg = color merged) /\
    (exists r seg, In r [3; 2]%nat /\
       nth_error (segments (sm demo_app)) r = Some seg /\
       end_frame seg = end_frame merged).
Proof.
  split.
  - apply (merge_selected_segments_spec [2; 0]%nat demo_app).
    + repeat constructor; simpl; intuition discriminate.
    + simpl. intros r [<-|[<-|[]]]; lia.
    + simpl. lia.
    + intros H. apply has_gap_false_iff in H. discriminate.
  - apply (merge_selected_segments_spec [3; 2]%nat demo_app).
    + repeat constructor; simpl; intuition discriminate.
    + simpl. intros r [<-|[<-|[]]]; lia.
    + simpl. lia.
    + apply has_gap_false_iff. reflexivity.
Defined.

(** Merging rows 0 and 1 of the four demo segments: the merged segment is
    at row 0, and row 1, the last selected row, holds the unselected
    segment that used to be at row 2. *)
Lemma merge_not_at_last_selected_row :
  exists a',
    merge_selected_segments [0; 1]%nat demo_app = Ok a' /\
    nth_error (segments (sm a')) 0 = Some (mkSegment 0 20 "red" "Merged [0-20]") /\
    nth_error (segments (sm a')) 1 = Some (mkSegment 30 40 "green" "Segment [30-40]") /\
    nth_error (segments (sm a')) 1 <> Some (mkSegment 0 20 "red" "Merged [0-20]").
Proof.
  eexists. split; [vm_compute; reflexivity|]. repeat split. discriminate.
Qed.

(** The rejection leaves everything in place: rows 0 and 2 leave a gap. *)
Example merge_rejected_has_gap :
  merge_selected_segments [2; 0]%nat demo_app = Ok demo_app.
Proof. reflexivity. Qed.

End SegmentStore.

(** ** File names and track mapping *)

Module EngineFacts.
Import PyList PyListFacts Engine Observations.

(** *** sanitize_filename *)

Lemma sub_class_clean (in_class : ascii -> bool) (repl : ascii) (s : string) :
  in_class repl = false ->
  PyStr.contains_char in_class (PyStr.sub_class in_class repl s) = false.
Proof.
  intros H. induction s as [|c s IH]; simpl; [reflexivity|].
  rewrite IH, orb_false_r. destruct (in_class c) eqn:E; assumption.
Qed.

Lemma contains_char_get (p : ascii -> bool) (s : string) :
  PyStr.contains_char p s = false ->
  forall n c, String.get n s = Some c -> p c = false.
Proof.
  induction s as [|d s IH]; simpl; intros H n c Hget; [discriminate|].
  apply orb_false_iff in H. destruct H as [Hd Hs].
  destruct n as [|n]; [inversion Hget; now subst | now apply (IH Hs n)].
Qed.

(** *** The track mapper *)

Lemma list_index_Some (x : string) (l : list string) (p : nat) :
  list_index x l = Some p ->
  nth_error l p = Some x /\ forall q, (q < p)%nat -> nth_error l q <> Some x.
Proof.
  revert p. induction l as [|y l IH]; intros p H; simpl in H; [discriminate|].
  destruct (String.eqb y x) eqn:E.
  - inversion H; subst. apply String.eqb_eq in E. subst. split; [reflexivity|].
    intros q Hq. lia.
  - destruct (list_index x l) as [p'|]; [|discriminate]. inversion H; subst.
    destruct (IH p' eq_refl) as [H1 H2]. split; [exact H1|].
    intros [|q] Hq; simpl.
    + intros Heq. inversion Heq. subst. rewrite String.eqb_refl in E. discriminate.
    + apply H2. lia.
Qed.

Lemma list_index_None (x : string) (l : list string) :
  list_index x l = None <-> ~ In x l.
Proof.
  induction l as [|y l IH]; simpl; [intuition|].
  destruct (String.eqb y x) eqn:E.
  - apply String.eqb_eq in E. split; [discriminate | intros H; exfalso; auto].
  - apply String.eqb_neq in E. destruct (list_index x l); simpl.
    + split; [discriminate|]. intros H. exfalso.
      assert (~ In x l) as Hl by (intros Hin; apply H; now right).
      apply IH in Hl. discriminate.
    + split; [|reflexivity]. intros _ [H|H]; [congruence|].
      now apply (proj1 IH).
Qed.

Lemma sort_key_rank (prio : list string) (t : Stream) :
  sort_key prio t = (lang_rank prio t, id t).
Proof. unfold sort_key, lang_rank. now destruct (list_index (track_lang t) prio). Qed.

Lemma track_leb_before (prio : list string) (x y : Stream) :
  track_leb prio x y = true <-> track_before prio x y.
Proof.
  unfold track_leb, track_before, key_leb. rewrite !sort_key_rank. simpl.
  rewrite orb_true_iff, andb_true_iff, Z.ltb_lt, Z.eqb_eq, Z.leb_le. reflexivity.
Qed.

Lemma track_leb_total (prio : list string) (x y : Stream) :
  track_leb prio x y = true \/ track_leb prio y x = true.
Proof. rewrite !track_leb_before. unfold track_before. lia. Qed.

Lemma track_leb_trans (prio : list string) (x y z : Stream) :
  track_leb prio x y = true -> track_leb prio y z = true -> track_leb prio x z = true.
Proof. rewrite !track_leb_before. unfold track_before. lia. Qed.

Lemma selected_tracks_in (kind : string) (streams : list Stream) (sel : list Z)
  (t : Stream) :
  In t (selected_tracks kind streams sel) <->
  In t streams /\ codec_type t = kind /\ In (id t) sel.
Proof.
  unfold selected_tracks. rewrite filter_In, andb_true_iff, String.eqb_eq.
  rewrite existsb_exists. split.
  - intros [H1 [H2 [z [Hz Ez]]]]. apply Z.eqb_eq in Ez. subst. auto.
  - intros [H1 [H2 H3]]. repeat split; try assumption.
    exists (id t). split; [assumption | apply Z.eqb_refl].
Qed.

Lemma track_args_at (kind : string) (tracks : list Stream) :
  forall k i t, nth_error tracks i = Some t ->
    firstn 4 (skipn (4 * i) (track_args kind k tracks)) = directive kind (k + i) t.
Proof.
  induction tracks as [|x r IH]; intros k i t H; [destruct i; discriminate|].
  destruct i as [|i].
  - inversion H; subst. rewrite Nat.add_0_r. reflexivity.
  - replace (4 * S i)%nat with (4 * i + 4)%nat by lia.
    change (track_args kind k (x :: r))
      with (directive kind k x ++ track_args kind (S k) r).
    rewrite <- skipn_skipn.
    change (skipn 4 (directive kind k x ++ track_args kind (S k) r))
      with (track_args kind (S k) r).
    rewrite (IH (S k) i t H). f_equal. lia.
Qed.

(** The tracks of one type, in the order the mapper emits them. *)
Lemma sorted_tracks_spec (kind : string) (streams : list Stream) (sel : list Z)
  (prio : list string) :
  let T := sorted (track_leb prio) (selected_tracks kind streams sel) in
  (forall t, In t T <-> In t streams /\ codec_type t = kind /\ In (id t) sel) /\
  Permutation T (selected_tracks kind streams sel) /\
  StronglySorted (track_before prio) T.
Proof.
  intros T. split; [|split].
  - intros t. rewrite <- selected_tracks_in. unfold T. split.
    + apply Permutation_in, sorted_perm.
    + apply Permutation_in. symmetry. apply sorted_perm.
  - apply sorted_perm.
  - pose proof (sorted_sorted (track_leb prio) (track_leb_total prio)
                  (track_leb_trans prio) (selected_tracks kind streams sel)) as H.
    fold T in H. clearbody T. induction H as [|x l Hl IH Hx]; constructor.
    + exact IH.
    + eapply Forall_impl; [|exact Hx]. intros y Hy. now apply track_leb_before.
Qed.

Lemma sorted_nil {A : Type} (leb : A -> A -> bool) : sorted leb [] = [].
Proof. reflexivity. Qed.

Lemma generate_unfold (streams : list Stream) (sel : list Z) (prio : list string) :
  generate_ffmpeg_mapping_args streams sel prio
  = flat_map map_arg (filter (fun t => String.eqb (codec_type t) "video") streams)
    ++ type_args "a" "-an"
         (sorted (track_leb prio) (selected_tracks "audio" streams sel))
    ++ type_args "s" "-sn"
         (sorted (track_leb prio) (selected_tracks "subtitle" streams sel)).
Proof. reflexivity. Qed.

Lemma selected_tracks_none (kind : string) (streams : list Stream) (sel : list Z) :
  (forall t, In t streams -> codec_type t = kind -> ~ In (id t) sel) ->
  selected_tracks kind streams sel = [].
Proof.
  intros H. destruct (selected_tracks kind streams sel) as [|t r] eqn:E; [reflexivity|].
  assert (In t (selected_tracks kind streams sel)) as Hin by (rewrite E; now left).
  apply selected_tracks_in in Hin. destruct Hin as [H1 [H2 H3]].
  exfalso. exact (H t H1 H2 H3).
Qed.

(** *** Parsing the elapsed time and computing the percentage *)

Lemma digits_value_nonneg (s : string) :
  forall acc, PyStr.all_digits s = true -> 0 <= acc -> 0 <= PyStr.digits_value acc s.
Proof.
  induction s as [|c s IH]; intros acc H Hacc;
    cbn [PyStr.all_digits PyStr.digits_value] in *; [assumption|].
  apply andb_true_iff in H. destruct H as [Hc Hs]. apply IH; [assumption|].
  unfold PyStr.is_digit in Hc. apply andb_true_iff in Hc. destruct Hc as [H1 _].
  apply Nat.leb_le in H1. unfold PyStr.digit_value. lia.
Qed.

Lemma int_of_nonneg (s : string) (z : Z) : PyStr.int_of s = Ok z -> 0 <= z.
Proof.
  unfold PyStr.int_of. destruct s as [|c s]; [discriminate|].
  destruct (PyStr.all_digits (String c s)) eqn:E; [|discriminate].
  intros H. injection H as <-.
  apply (digits_value_nonneg (String c s) 0 E). lia.
Qed.

Lemma Qnonneg_num (x : Q) : (0 <= x)%Q <-> 0 <= Qnum x.
Proof. unfold Qle. simpl. lia. Qed.

Lemma float_of_nonneg (s : string) (q : Q) : PyStr.float_of s = Ok q -> (0 <= q)%Q.
Proof.
  unfold PyStr.float_of. destruct (PyStr.split (PyStr.chr 46) s) as [|ip [|fp [|? ?]]];
    try discriminate.
  destruct ip as [|a ip]; [discriminate|]. destruct fp as [|b fp]; [discriminate|].
  destruct (PyStr.all_digits (String a ip) && PyStr.all_digits (String b fp)) eqn:E;
    [|discriminate].
  apply andb_true_iff in E. destruct E as [E1 E2].
  intros H. injection H as <-.
  pose proof (digits_value_nonneg _ 0 E1 (Z.le_refl 0)) as H1.
  pose proof (digits_value_nonneg _ 0 E2 (Z.le_refl 0)) as H2.
  replace 0%Q with (0 + 0)%Q by reflexivity.
  apply Qplus_le_compat; apply Qnonneg_num; [exact H1 | exact H2].
Qed.

Lemma hhmmss_nonneg (g : string) (e : Q) : hhmmss_to_seconds g = Ok e -> (0 <= e)%Q.
Proof.
  unfold hhmmss_to_seconds.
  destruct (PyList.getitem (PyStr.split ":"%char g) 0) as [x0|]; simpl; [|discriminate].
  destruct (PyStr.int_of x0) as [h|] eqn:Eh; simpl; [|discriminate].
  destruct (PyList.getitem (PyStr.split ":"%char g) 1) as [x1|]; simpl; [|discriminate].
  destruct (PyStr.int_of x1) as [m|] eqn:Em; simpl; [|discriminate].
  destruct (PyList.getitem (PyStr.split ":"%char g) 2) as [x2|]; simpl; [|discriminate].
  destruct (PyStr.float_of x2) as [sec|] eqn:Es; simpl; [|discriminate].
  intros H. injection H as <-.
  apply int_of_nonneg in Eh. apply int_of_nonneg in Em. apply float_of_nonneg in Es.
  replace 0%Q with (0 + 0)%Q by reflexivity. apply Qplus_le_compat; [|assumption].
  apply Qnonneg_num. simpl. lia.
Qed.

Lemma percentage_of_pct (duration : Q) (g : string) (p : Z) :
  percentage_of duration g = Ok p ->
  exists e, hhmmss_to_seconds g = Ok e /\ p = pct duration e.
Proof.
  unfold percentage_of.
  destruct (hhmmss_to_seconds g) as [e|]; cbn [bind]; [|discriminate].
  destruct (Qeq_bool duration 0); [discriminate|]. cbv zeta.
  destruct (Qle_bool float_overflow _ || Qle_bool _ (- float_overflow));
    [discriminate|].
  intro H. injection H as <-. now exists e.
Qed.

Lemma scaled_nonneg (duration elapsed : Q) :
  (0 < duration)%Q -> (0 <= elapsed)%Q -> (0 <= (elapsed / duration) * 100)%Q.
Proof.
  intros Hd He. apply Qmult_le_0_compat; [|discriminate].
  apply Qmult_le_0_compat; [assumption|].
  apply Qinv_le_0_compat, Qlt_le_weak, Hd.
Qed.

Lemma int_of_float_floor (x : Q) : (0 <= x)%Q -> PyStr.int_of_float x = Qfloor x.
Proof.
  intros H. apply Qnonneg_num in H. destruct x as [n d]. simpl in *.
  unfold PyStr.int_of_float. simpl. apply Z.quot_div_nonneg; lia.
Qed.

Lemma pct_bounds (duration elapsed : Q) :
  (0 < duration)%Q -> (0 <= elapsed)%Q -> 0 <= pct duration elapsed <= 100.
Proof.
  intros Hd He. unfold pct.
  pose proof (scaled_nonneg duration elapsed Hd He) as H.
  rewrite int_of_float_floor by assumption.
  assert (0 <= Qfloor ((elapsed / duration) * 100)%Q).
  { change 0 with (Qfloor 0). now apply Qfloor_resp_le. }
  lia.
Qed.

Lemma pct_monotone (duration e1 e2 : Q) :
  (0 < duration)%Q -> (0 <= e1)%Q -> (e1 <= e2)%Q ->
  pct duration e1 <= pct duration e2.
Proof.
  intros Hd H1 H12. unfold pct.
  assert (0 <= e2)%Q as H2 by (eapply Qle_trans; eassumption).
  rewrite !int_of_float_floor by (apply scaled_nonneg; assumption).
  apply Z.min_le_compat_l, Qfloor_resp_le.
  apply Qmult_le_compat_r; [|discriminate].
  apply Qmult_le_compat_r; [assumption|].
  apply Qinv_le_0_compat, Qlt_le_weak, Hd.
Qed.

Lemma reported_times_nonneg (lines : list string) :
  Forall (fun e => (0 <= e)%Q) (reported_times lines).
Proof.
  unfold reported_times. apply Forall_flat_map. apply Forall_forall. intros line _.
  destruct (search_time line) as [g|]; [|constructor].
  destruct (hhmmss_to_seconds g) eqn:E; [|constructor].
  repeat constructor. eapply hhmmss_nonneg, E.
Qed.

(** *** Traces *)

Lemma snd_mbind {A B : Type} (m : M A) (k : A -> M B) :
  snd (mbind m k)
  = match fst m with
    | Ok a => snd m ++ snd (k a)
    | Raise _ => snd m
    end.
Proof.
  destruct m as [[a|e] t]; simpl; [|reflexivity]. now destruct (k a).
Qed.

Lemma fst_mbind {A B : Type} (m : M A) (k : A -> M B) :
  fst (mbind m k)
  = match fst m with
    | Ok a => fst (k a)
    | Raise e => Raise e
    end.
Proof.
  destruct m as [[a|e] t]; simpl; [|reflexivity]. now destruct (k a).
Qed.

Lemma percentages_app (t1 t2 : Trace) :
  percentages (t1 ++ t2) = percentages t1 ++ percentages t2.
Proof. apply flat_map_app. Qed.

Lemma read_stderr_silent (w : World) (worker : bool) (i : nat) (duration : Q)
  (video_mode : string) (lines : list string) :
  worker && negb (String.eqb video_mode "copy") = false ->
  forall j, percentages (snd (read_stderr w worker i j duration video_mode lines)) = [].
Proof.
  intros Hs. induction lines as [|line r IH]; intros j; [reflexivity|].
  cbn [read_stderr].
  destruct (worker && is_cancelled w (DuringClip i j)); [reflexivity|].
  rewrite snd_mbind, Hs.
  destruct (search_time line); simpl; apply IH.
Qed.

(** The percentages emitted while reading the error stream are those of a
    prefix of the reported times. *)
Lemma read_stderr_percentages (w : World) (worker : bool) (i : nat) (duration : Q)
  (video_mode : string) (lines : list string) :
  (0 < duration)%Q ->
  forall j, exists pre post,
    reported_times lines = pre ++ post /\
    percentages (snd (read_stderr w worker i j duration video_mode lines))
    = map (pct duration) pre.
Proof.
  intros Hd j.
  destruct (worker && negb (String.eqb video_mode "copy")) eqn:Eemit.
  2:{ exists [], (reported_times lines). split; [reflexivity|].
      now apply read_stderr_silent. }
  revert j. induction lines as [|line r IH]; intros j.
  - exists [], []. split; reflexivity.
  - cbn [read_stderr].
    destruct (worker && is_cancelled w (DuringClip i j)).
    { exists [], (reported_times (line :: r)). split; reflexivity. }
    destruct (IH (S j)) as [pre [post [Erep Eper]]].
    rewrite snd_mbind, Eemit.
    change (reported_times (line :: r))
      with ((match search_time line with
             | Some group => match hhmmss_to_seconds group with
                             | Ok t => [t] | Raise _ => [] end
             | None => []
             end) ++ reported_times r).
    destruct (search_time line) as [g|].
    + destruct (percentage_of duration g) as [p|x] eqn:Ep.
      * destruct (percentage_of_pct duration g p Ep) as [e [He ->]].
        rewrite He. simpl.
        exists (e :: pre), post. rewrite Erep. split; [reflexivity|].
        rewrite Eper. reflexivity.
      * simpl. eexists [], _. split; reflexivity.
    + simpl. exists pre, post. split; assumption.
Qed.

Lemma StronglySorted_prefix {A : Type} (R : A -> A -> Prop) (pre post : list A) :
  StronglySorted R (pre ++ post) -> StronglySorted R pre.
Proof.
  induction pre as [|x pre IH]; intros H; [constructor|].
  simpl in H. apply StronglySorted_inv in H. destruct H as [H1 H2].
  constructor; [now apply IH|]. apply Forall_app in H2. tauto.
Qed.

Lemma map_pct_sorted (duration : Q) (l : list Q) :
  (0 < duration)%Q -> Forall (fun e => (0 <= e)%Q) l ->
  StronglySorted Qle l -> StronglySorted Z.le (map (pct duration) l).
Proof.
  intros Hd Hn Hs. induction Hs as [|x l Hl IH Hx]; simpl; constructor.
  - apply IH. now inversion Hn.
  - apply Forall_map. inversion Hn; subst.
    eapply Forall_impl; [|exact Hx]. intros y Hy. now apply pct_monotone.
Qed.

Lemma map_pct_bounded (duration : Q) (l : list Q) :
  (0 < duration)%Q -> Forall (fun e => (0 <= e)%Q) l ->
  Forall (fun p => 0 <= p <= 100) (map (pct duration) l).
Proof.
  intros Hd Hn. apply Forall_map. eapply Forall_impl; [|exact Hn].
  intros e He. now apply pct_bounds.
Qed.

(** What a trim emits as percentages: nothing, the final 100 of a smart
    cut, or the percentages of a prefix of the times the tool reports. *)
Lemma trim_percentages (w : World) (worker : bool) (call : TrimCall) :
  (0 < end_sec call - start_sec call)%Q ->
  percentages (snd (trim_video_segment w worker call)) = [100] \/
  exists pre post,
    reported_times (stderr_lines (trim_run w (clip call))) = pre ++ post /\
    percentages (snd (trim_video_segment w worker call))
    = map (pct (end_sec call - start_sec call)) pre.
Proof.
  intros Hd. unfold trim_video_segment.
  destruct (String.eqb (trim_mode call) "smart-cut").
  - destruct (tool_missing (trim_run w (clip call))).
    + right. exists [], (reported_times (stderr_lines (trim_run w (clip call)))).
      split; reflexivity.
    + rewrite snd_mbind. simpl fst. cbv iota.
      destruct (returncode (trim_run w (clip call)) =? 0).
      * destruct worker; simpl; [now left|].
        right. exists [], (reported_times (stderr_lines (trim_run w (clip call)))).
        split; reflexivity.
      * right. exists [], (reported_times (stderr_lines (trim_run w (clip call)))).
        split; reflexivity.
  - destruct (tool_missing (trim_run w (clip call))).
    + right. exists [], (reported_times (stderr_lines (trim_run w (clip call)))).
      split; reflexivity.
    + right.
      destruct (read_stderr_percentages w worker (clip call)
                  (end_sec call - start_sec call) (trim_mode call)
                  (stderr_lines (trim_run w (clip call))) Hd 0%nat)
        as [pre [post [Erep Eper]]].
      exists pre, post. split; [assumption|].
      rewrite snd_mbind. simpl fst. cbv iota. rewrite snd_mbind.
      rewrite percentages_app. simpl (percentages (snd (log _))).
      destruct (fst (read_stderr w worker (clip call) 0
                       (end_sec call - start_sec call) (trim_mode call)
                       (stderr_lines (trim_run w (clip call))))) as [[|]|e].
      * rewrite percentages_app, Eper. simpl. now rewrite app_nil_r.
      * rewrite percentages_app, Eper.
        destruct (returncode (trim_run w (clip call)) =? 0); simpl;
          now rewrite app_nil_r.
      * simpl. exact Eper.
Qed.

(** *** Templates with an unknown placeholder *)

Lemma append_cons (c : ascii) (s t : string) :
  (String c s ++ t)%string = String c (s ++ t)%string.
Proof. reflexivity. Qed.

Lemma append_nil_r (s : string) : (s ++ "")%string = s.
Proof. induction s as [|c s IH]; simpl; [reflexivity | now rewrite IH]. Qed.

Lemma append_assoc (a b c : string) :
  ((a ++ b) ++ c)%string = (a ++ (b ++ c))%string.
Proof. induction a as [|x a IH]; simpl; [reflexivity | now rewrite IH]. Qed.

Lemma measurable_nonzero (duration : Q) : measurable duration -> ~ (duration == 0)%Q.
Proof.
  intros [H|H] E; rewrite E in H; exact (H eq_refl).
Qed.


Section Templates.

Variable format_value : dict -> pyval -> string -> string -> result string.
Variable data : dict.

Lemma scan_app (a b : string) :
  forall st,
    scan format_value data st (a ++ b)
    = ('(st1, out1) <- scan format_value data st a ;;
       '(st2, out2) <- scan format_value data st1 b ;;
       Ok (st2, (out1 ++ out2)%string)).
Proof.
  induction a as [|c a IH]; intros st.
  - simpl. destruct (scan format_value data st b) as [[st2 out2]|]; reflexivity.
  - rewrite append_cons. cbn [scan].
    destruct (scan_step format_value data st c) as [[st1 out1]|]; simpl;
      [|reflexivity].
    rewrite IH.
    destruct (scan format_value data st1 a) as [[st2 out2]|]; simpl; [|reflexivity].
    destruct (scan format_value data st2 b) as [[st3 out3]|]; simpl; [|reflexivity].
    now rewrite append_assoc.
Qed.

(** Text without braces is copied. *)
Lemma scan_literal (pre : string) :
  PyStr.contains_char is_brace pre = false ->
  scan format_value data Literal pre = Ok (Literal, pre).
Proof.
  induction pre as [|c pre IH]; intros H; [reflexivity|].
  simpl in H. apply orb_false_iff in H. destruct H as [Hc Hpre].
  unfold is_brace in Hc. apply orb_false_iff in Hc. destruct Hc as [Ho Hcl].
  cbn [scan scan_step]. rewrite Ho, Hcl. simpl. now rewrite IH.
Qed.

Lemma arg_name_plain (name : string) :
  PyStr.contains_char is_field_special name = false -> arg_name name = name.
Proof.
  induction name as [|c name IH]; intros H; [reflexivity|].
  simpl in H. apply orb_false_iff in H. destruct H as [Hc Hn].
  unfold is_field_special in Hc. repeat (apply orb_false_iff in Hc; destruct Hc as [Hc ?]).
  simpl. replace (Ascii.eqb c "." || Ascii.eqb c "[")%char with false
    by (symmetry; apply orb_false_iff; split; assumption).
  now rewrite IH.
Qed.

Lemma all_digits_app (a b : string) :
  PyStr.all_digits (a ++ b) = PyStr.all_digits a && PyStr.all_digits b.
Proof.
  induction a as [|c a IH]; simpl; [reflexivity|]. now rewrite IH, andb_assoc.
Qed.

Lemma contains_char_app (p : ascii -> bool) (a b : string) :
  PyStr.contains_char p (a ++ b) = PyStr.contains_char p a || PyStr.contains_char p b.
Proof.
  induction a as [|c a IH]; simpl; [reflexivity|]. now rewrite IH, orb_assoc.
Qed.

(** Inside a field name, plain characters accumulate up to the closing
    brace, where the field is rendered. *)
Lemma scan_field_name (name : string) :
  forall acc rest,
    PyStr.contains_char is_field_special name = false ->
    scan format_value data (InName acc false) (name ++ String "}" rest)
    = ('(st1, out1) <- (out <- render_field format_value data (acc ++ name) ""
                          ;; Ok (Literal, out)) ;;
       '(st2, out2) <- scan format_value data st1 rest ;;
       Ok (st2, (out1 ++ out2)%string)).
Proof.
  induction name as [|c name IH]; intros acc rest H.
  - simpl (EmptyString ++ _)%string. rewrite append_nil_r. reflexivity.
  - simpl in H. apply orb_false_iff in H. destruct H as [Hc Hn].
    unfold is_field_special, is_brace in Hc.
    repeat (apply orb_false_iff in Hc; destruct Hc as [Hc ?]).
    rewrite append_cons. cbn [scan scan_step].
    replace (Ascii.eqb c "{"%char) with false by (symmetry; assumption).
    replace (Ascii.eqb c "}"%char) with false by (symmetry; assumption).
    replace (Ascii.eqb c "!" || Ascii.eqb c ":")%char with false
      by (symmetry; apply orb_false_iff; split; assumption).
    replace (Ascii.eqb c "["%char) with false by (symmetry; assumption).
    simpl bind. rewrite (IH (PyStr.snoc acc c) rest Hn).
    unfold PyStr.snoc. rewrite append_assoc. simpl.
    destruct (render_field format_value data (acc ++ String c name) "");
      simpl; [|reflexivity].
    destruct (scan format_value data Literal rest) as [[? ?]|]; reflexivity.
Qed.

Lemma render_unknown (name : string) :
  plain_name name -> dict_get name data = None ->
  render_field format_value data name "" = Raise (KeyError name).
Proof.
  intros [Hd Hs] Hget. unfold render_field.
  rewrite (arg_name_plain name Hs), Hd, Hget. reflexivity.
Qed.

(** A template with a replacement field that names an argument the data
    does not have, after text that formats and ends outside any field. *)
Lemma format_unknown_placeholder (pre name rest out : string) :
  scan format_value data Literal pre = Ok (Literal, out) ->
  plain_name name -> dict_get name data = None ->
  format_output_filename format_value (pre ++ "{" ++ name ++ "}" ++ rest) data
  = Raise (ValueError ("Invalid placeholder '{" ++ name
                       ++ "}' in output template.")%string).
Proof.
  intros Hpre Hname Hget. unfold format_output_filename, str_format.
  rewrite scan_app, Hpre. simpl bind.
  destruct Hname as [Hd Hs].
  destruct name as [|c name]; [discriminate|].
  change ("{" ++ String c name ++ "}" ++ rest)%string
    with (String "{" (String c (name ++ String "}" rest))).
  pose proof Hs as Hs'. simpl in Hs'. apply orb_false_iff in Hs'.
  destruct Hs' as [Hc Hn]. unfold is_field_special, is_brace in Hc.
  repeat (apply orb_false_iff in Hc; destruct Hc as [Hc ?]).
  cbn [scan scan_step]. change (Ascii.eqb "{" "{")%char with true. cbv iota.
  simpl bind.
  replace (Ascii.eqb c "{"%char) with false by (symmetry; assumption).
  replace (Ascii.eqb c "}"%char) with false by (symmetry; assumption).
  replace (Ascii.eqb c "!" || Ascii.eqb c ":")%char with false
    by (symmetry; apply orb_false_iff; split; assumption).
  replace (Ascii.eqb c "["%char) with false by (symmetry; assumption).
  simpl bind. rewrite (scan_field_name name (String c "") rest Hn).
  change (String c "" ++ name)%string with (String c name).
  rewrite (render_unknown (String c name) (conj Hd Hs) Hget). reflexivity.
Qed.

End Templates.

(** *** The export job *)

Lemma seg_data_unknown (name : string) (base_vals : string * string * string * string)
  (n st en : Z) :
  ~ In name known_placeholders ->
  let '(f, r, d, t) := base_vals in
  dict_get name
    (dict_union [("filename", PStr f); ("resolution", PStr r);
                 ("date", PStr d); ("time", PStr t)]
                [("num", PInt n); ("start", PInt st); ("end", PInt en)]) = None.
Proof.
  intros H. destruct base_vals as [[[f r] d] t]. unfold dict_union.
  cbn [dict_get app].
  assert (forall k, In k known_placeholders -> String.eqb k name = false) as Hk.
  { intros k Hin. apply String.eqb_neq. intros ->. contradiction. }
  rewrite !Hk by (simpl; tauto). reflexivity.
Qed.

Lemma metadata_trace (w : World) :
  snd (get_video_metadata w) = [] \/ snd (get_video_metadata w) = [ProcProbe].
Proof.
  unfold get_video_metadata. destruct (input_is_file w); simpl; [|now left].
  destruct (probe w); simpl; auto.
Qed.

Lemma metadata_ok (w : World) (meta : VideoMeta) (t : Trace) :
  get_video_metadata w = (Ok meta, t) -> probe w = ProbeOk meta.
Proof.
  unfold get_video_metadata. destruct (input_is_file w); cbn [negb]; [|discriminate].
  destruct (probe w); cbn [mbind log ret raise]; try discriminate.
  intro H. injection H as <- _. reflexivity.
Qed.

Lemma crop_trace_quiet (w : World) (worker : bool) (P : Event -> bool) :
  (forall t, P (step_changed t) = false) -> P ProcCropDetect = false ->
  existsb P (snd (detect_black_bars w worker)) = false.
Proof.
  intros Hs Hc. unfold detect_black_bars.
  destruct worker, (cropdetect w); simpl; rewrite ?Hs, ?Hc; reflexivity.
Qed.

Lemma existsb_app_false {A : Type} (P : A -> bool) (l1 l2 : list A) :
  existsb P l1 = false -> existsb P l2 = false -> existsb P (l1 ++ l2) = false.
Proof. intros H1 H2. now rewrite existsb_app, H1, H2. Qed.

Section BadTemplate.

Variable format_value : dict -> pyval -> string -> string -> result string.
Variables (w : World) (s : Settings) (worker : bool).
Variables (pre name rest : string).
Hypothesis not_merging : merge s = false.
Hypothesis template_shape :
  output_template s = (pre ++ "{" ++ name ++ "}" ++ rest)%string.
Hypothesis pre_formats :
  forall meta, probe w = ProbeOk meta ->
    exists out, scan format_value (clip_data w s meta 0) Literal pre = Ok (Literal, out).
Hypothesis name_plain : plain_name name.
Hypothesis name_unknown : ~ In name known_placeholders.

(** The first iteration of the loop ends the loop, without any event. *)
Lemma clips_loop_stops (crop : option string) (mapping : list string)
  (ext : string) (total : Z) (meta : VideoMeta) (raw seg : Q * Q)
  (raws segs : list (Q * Q)) :
  probe w = ProbeOk meta ->
  segments_raw s = raw :: raws ->
  clips_loop format_value w worker s crop mapping ext
    [("filename", PStr (sanitize_filename (input_stem s)));
     ("resolution", PStr (resolution meta));
     ("date", PStr (now_date w)); ("time", PStr (now_time w))]
    total 0 (seg :: segs)
  = if worker && is_cancelled w (BeforeClip 0)
    then (Ok (Some "Cancelled"), [])
    else (Raise (ValueError ("Invalid placeholder '{" ++ name
                             ++ "}' in output template.")%string), []).
Proof.
  intros Hprobe Hraw. cbn [clips_loop]. destruct seg as [start end_].
  destruct (worker && is_cancelled w (BeforeClip 0)); [reflexivity|].
  destruct (pre_formats meta Hprobe) as [out Hout].
  unfold clip_data in Hout. rewrite Hraw in Hout. cbn [nth] in Hout.
  change (Z.of_nat 0) with 0 in Hout.
  change (Z.of_nat 0) with 0. rewrite Hraw.
  change (PyList.getitem (raw :: raws) 0) with (Ok raw).
  unfold lift at 1. cbn [mbind].
  rewrite template_shape.
  rewrite (format_unknown_placeholder format_value _ pre name rest out Hout name_plain
             (seg_data_unknown name (_, _, _, _) _ _ _ name_unknown)).
  reflexivity.
Qed.

Lemma bad_template_job :
  existsb is_trim_or_merge (snd (run_powertrim_job format_value w s worker)) = false /\
  (forall meta,
     input_is_file w = true -> probe w = ProbeOk meta ->
     (autocrop s = true -> cropdetect w <> CropToolMissing) ->
     worker && is_cancelled w (BeforeClip 0) = false ->
     is_value_error (fst (run_powertrim_job format_value w s worker)) = true).
Proof.
  unfold run_powertrim_job.
  destruct (segments_raw s) as [|raw0 raws] eqn:Eraw.
  { split; [reflexivity | intros; reflexivity]. }
  rewrite not_merging.
  split.
  - rewrite snd_mbind.
    destruct (get_video_metadata w) as [[meta|e] t0] eqn:Emeta;
      pose proof (metadata_trace w) as Ht0; rewrite Emeta in Ht0; simpl in Ht0;
      simpl fst; simpl snd; cbv iota.
    2:{ destruct Ht0 as [-> | ->]; reflexivity. }
    pose proof (metadata_ok w meta t0 Emeta) as Hprobe.
    apply existsb_app_false; [destruct Ht0 as [-> | ->]; reflexivity|].
    destruct (String.eqb (mode s) "frames" && Qeq_bool (fps meta) 0);
      [reflexivity|].
    match goal with
    | |- context [mbind (if autocrop s then ?x else ?y) _] =>
        set (c := if autocrop s then x else y)
    end.
    assert (existsb is_trim_or_merge (snd c) = false) as Hcrop.
    { subst c. destruct (autocrop s); [|reflexivity].
      apply crop_trace_quiet; reflexivity. }
    destruct c as [[crop|e] tc]; simpl in Hcrop; rewrite snd_mbind; simpl fst;
      simpl snd; cbv iota; [|exact Hcrop].
    apply existsb_app_false; [exact Hcrop|].
    rewrite snd_mbind.
    destruct (String.eqb (mode s) "frames"); cbn [map];
      rewrite (clips_loop_stops _ _ _ _ meta raw0 _ raws _ Hprobe Eraw);
      destruct (worker && is_cancelled w (BeforeClip 0)); reflexivity.
  - intros meta Hfile Hprobe Hcrop Hnot.
    unfold get_video_metadata. rewrite Hfile, Hprobe. simpl negb. cbv iota.
    cbn [mbind log ret].
    destruct (String.eqb (mode s) "frames" && Qeq_bool (fps meta) 0);
      [reflexivity|].
    match goal with
    | |- context [mbind (if autocrop s then ?x else ?y) _] =>
        set (c := if autocrop s then x else y)
    end.
    assert (exists crop tr, c = (Ok crop, tr)) as [crop [tr Ecrop]].
    { subst c. destruct (autocrop s); [|unfold ret; eauto].
      specialize (Hcrop eq_refl). unfold detect_black_bars.
      destruct worker, (cropdetect w); simpl; try contradiction; eauto. }
    rewrite Ecrop. cbn [mbind].
    destruct (String.eqb (mode s) "frames"); cbn [map];
      rewrite (clips_loop_stops _ _ _ _ meta raw0 _ raws _ Hprobe Eraw), Hnot;
      reflexivity.
Qed.

End BadTemplate.

(** *** Cancellation *)

Lemma quiet_bind {A B : Type} (P : Event -> bool) (m : M A) (k : A -> M B) :
  existsb P (snd m) = false ->
  (forall a, fst m = Ok a -> existsb P (snd (k a)) = false) ->
  existsb P (snd (mbind m k)) = false.
Proof.
  intros Hm Hk. rewrite snd_mbind. destruct (fst m) as [a|e] eqn:E; [|exact Hm].
  apply existsb_app_false; [exact Hm | now apply Hk].
Qed.

Lemma ok_bind {A B : Type} (m : M A) (k : A -> M B) (b : B) :
  fst (mbind m k) = Ok b -> exists a, fst m = Ok a /\ fst (k a) = Ok b.
Proof.
  rewrite fst_mbind. destruct (fst m) as [a|e]; [|discriminate]. eauto.
Qed.

Lemma point_leb_trans (p q r : Point) :
  point_leb p q = true -> point_leb q r = true -> point_leb p r = true.
Proof.
  unfold point_leb.
  destruct (point_rank p) as [[a1 b1] c1], (point_rank q) as [[a2 b2] c2],
           (point_rank r) as [[a3 b3] c3].
  rewrite !orb_true_iff, !andb_true_iff, !orb_true_iff, !andb_true_iff,
          !Nat.ltb_lt, !Nat.eqb_eq, !Nat.leb_le.
  lia.
Qed.

Section Cancellation.

Variable format_value : dict -> pyval -> string -> string -> result string.
Variables (w : World) (s : Settings) (i : nat) (c : Point).
Hypothesis stop_called : cancel_at w = Some c.
Hypothesis stop_before : point_leb c (BeforeClip i) = true.

(** The events to be excluded: none of those that may precede clip [i]. *)
Variable P : Event -> bool.
Hypothesis P_probe : P ProcProbe = false.
Hypothesis P_crop : P ProcCropDetect = false.
Hypothesis P_step : forall t, P (step_changed t) = false.
Hypothesis P_progress : forall p, P (progress_updated p) = false.
Hypothesis P_clip :
  forall k t, (k < i)%nat -> P (clip_started (Z.of_nat k + 1) t) = false.
Hypothesis P_trim : forall call, (clip call < i)%nat -> P (ProcTrim call) = false.

Lemma cancelled_at (p : Point) :
  point_leb (BeforeClip i) p = true -> is_cancelled w p = true.
Proof.
  intros H. unfold is_cancelled. rewrite stop_called.
  eapply point_leb_trans; eassumption.
Qed.

Lemma cancelled_from (k : nat) : (i <= k)%nat -> is_cancelled w (BeforeClip k) = true.
Proof.
  intros H. apply cancelled_at. unfold point_leb. simpl.
  destruct (Nat.ltb_spec i k); [reflexivity|].
  replace (i =? k)%nat with true by (symmetry; apply Nat.eqb_eq; lia). reflexivity.
Qed.

Lemma read_stderr_quiet (worker : bool) (k : nat) (duration : Q) (vmode : string)
  (lines : list string) :
  forall j, existsb P (snd (read_stderr w worker k j duration vmode lines)) = false.
Proof.
  induction lines as [|line r IH]; intros j; [reflexivity|].
  cbn [read_stderr].
  destruct (worker && is_cancelled w (DuringClip k j)); [reflexivity|].
  apply quiet_bind; [|intros _ _; apply IH].
  destruct (search_time line); [|reflexivity].
  destruct (worker && negb (String.eqb vmode "copy")); [|reflexivity].
  apply quiet_bind; [reflexivity|]. intros p _. simpl. now rewrite P_progress.
Qed.

Lemma trim_quiet (worker : bool) (call : TrimCall) :
  (clip call < i)%nat ->
  existsb P (snd (trim_video_segment w worker call)) = false.
Proof.
  intros Hk. unfold trim_video_segment.
  destruct (String.eqb (trim_mode call) "smart-cut");
    destruct (tool_missing (trim_run w (clip call))); try reflexivity.
  - apply quiet_bind; [simpl; now rewrite P_trim|]. intros _ _.
    destruct (returncode (trim_run w (clip call)) =? 0); [|reflexivity].
    destruct worker; simpl; [now rewrite P_progress | reflexivity].
  - apply quiet_bind; [simpl; now rewrite P_trim|]. intros _ _.
    apply quiet_bind; [apply read_stderr_quiet|]. intros [|] _; [reflexivity|].
    destruct (returncode (trim_run w (clip call)) =? 0); reflexivity.
Qed.

(** The loop of a merging job under a worker. *)
Lemma merge_loop_cancelled (crop : option string) (mapping : list string)
  (ext : string) (total : Z) (segs : list (Q * Q)) :
  forall k paths,
    existsb P (snd (merge_loop w true s crop mapping ext total k segs paths)) = false /\
    ((k <= i < k + List.length segs)%nat ->
     forall res,
       fst (merge_loop w true s crop mapping ext total k segs paths) = Ok res ->
       fst res = Some "Cancelled").
Proof.
  induction segs as [|[start end_] r IH]; intros k paths.
  - split; [reflexivity|]. simpl. lia.
  - cbn [merge_loop]. simpl andb.
    destruct (is_cancelled w (BeforeClip k)) eqn:Ecan.
    { split; [reflexivity|]. intros _ res H. simpl in H. now inversion H. }
    assert (k < i)%nat as Hk.
    { destruct (Nat.ltb_spec k i); [assumption|].
      rewrite cancelled_from in Ecan by lia. discriminate. }
    destruct (IH (S k) (paths ++ [path_join (temp_dir w)
                                    ("temp_" ++ pad3 (S k) ++ ext)%string]))
      as [IHq IHr].
    split.
    + apply quiet_bind; [simpl; now rewrite P_clip|]. intros _ _.
      apply quiet_bind; [simpl; now rewrite P_step|]. intros _ _.
      apply quiet_bind; [now apply trim_quiet|]. intros _ _. exact IHq.
    + intros Hi res H.
      apply ok_bind in H. destruct H as [_ [_ H]].
      apply ok_bind in H. destruct H as [_ [_ H]].
      apply ok_bind in H. destruct H as [_ [_ H]].
      apply IHr in H; [assumption|]. simpl in Hi. lia.
Qed.

(** The loop of a job that writes separate clips, under a worker. *)
Lemma clips_loop_cancelled (crop : option string) (mapping : list string)
  (ext : string) (base : dict) (total : Z) (segs : list (Q * Q)) :
  forall k,
    existsb P (snd (clips_loop format_value w true s crop mapping ext base total
                      k segs)) = false /\
    ((k <= i < k + List.length segs)%nat ->
     forall res,
       fst (clips_loop format_value w true s crop mapping ext base total k segs)
       = Ok res ->
       res = Some "Cancelled").
Proof.
  induction segs as [|[start end_] r IH]; intros k.
  - split; [reflexivity|]. simpl. lia.
  - cbn [clips_loop]. simpl andb.
    destruct (is_cancelled w (BeforeClip k)) eqn:Ecan.
    { split; [reflexivity|]. intros _ res H. simpl in H. now inversion H. }
    assert (k < i)%nat as Hk.
    { destruct (Nat.ltb_spec k i); [assumption|].
      rewrite cancelled_from in Ecan by lia. discriminate. }
    destruct (IH (S k)) as [IHq IHr].
    split.
    + apply quiet_bind; [reflexivity|]. intros raw _.
      apply quiet_bind; [reflexivity|]. intros output_name _.
      apply quiet_bind; [simpl; now rewrite P_clip|]. intros _ _.
      apply quiet_bind; [simpl; now rewrite P_step|]. intros _ _.
      apply quiet_bind; [now apply trim_quiet|]. intros _ _. exact IHq.
    + intros Hi res H.
      apply ok_bind in H. destruct H as [raw [_ H]].
      apply ok_bind in H. destruct H as [output_name [_ H]].
      apply ok_bind in H. destruct H as [_ [_ H]].
      apply ok_bind in H. destruct H as [_ [_ H]].
      apply ok_bind in H. destruct H as [_ [_ H]].
      apply IHr in H; [assumption|]. simpl in Hi. lia.
Qed.

Lemma metadata_quiet : existsb P (snd (get_video_metadata w)) = false.
Proof.
  destruct (metadata_trace w) as [-> | ->]; simpl; [reflexivity|].
  now rewrite P_probe.
Qed.

(** A job under a worker whose flag is set before clip [i]. *)
Lemma cancelled_job :
  (i < List.length (segments_raw s))%nat ->
  existsb P (snd (run_powertrim_job format_value w s true)) = false /\
  (forall r, fst (run_powertrim_job format_value w s true) = Ok r ->
             r = "Cancelled").
Proof.
  intros Hi. unfold run_powertrim_job.
  destruct (segments_raw s) as [|raw0 raws] eqn:Eraw; [simpl in Hi; lia|].
  assert (forall (m : VideoMeta),
            (0 <= i < 0 + List.length
               (if String.eqb (mode s) "frames"
                then map (fun x => (fst x / fps m, snd x / fps m)%Q) (raw0 :: raws)
                else raw0 :: raws))%nat) as Hlen.
  { intros m. destruct (String.eqb (mode s) "frames");
      rewrite ?length_map; simpl in *; lia. }
  split.
  - apply quiet_bind; [apply metadata_quiet|]. intros meta _.
    destruct (String.eqb (mode s) "frames" && Qeq_bool (fps meta) 0);
      [reflexivity|].
    apply quiet_bind.
    { destruct (autocrop s); [|reflexivity]. now apply crop_trace_quiet. }
    intros crop _. destruct (merge s).
    + apply quiet_bind; [apply merge_loop_cancelled|]. intros res Hres.
      apply (proj2 (merge_loop_cancelled _ _ _ _ _ _ _) (Hlen meta)) in Hres.
      rewrite Hres. reflexivity.
    + apply quiet_bind; [apply clips_loop_cancelled|]. intros res Hres.
      apply (proj2 (clips_loop_cancelled _ _ _ _ _ _ _) (Hlen meta)) in Hres.
      rewrite Hres. reflexivity.
  - intros r H.
    apply ok_bind in H. destruct H as [meta [_ H]].
    destruct (String.eqb (mode s) "frames" && Qeq_bool (fps meta) 0);
      [discriminate|].
    apply ok_bind in H. destruct H as [crop [_ H]].
    destruct (merge s).
    + apply ok_bind in H. destruct H as [res [Hres H]].
      apply (proj2 (merge_loop_cancelled _ _ _ _ _ _ _) (Hlen meta)) in Hres.
      rewrite Hres in H. simpl in H. now inversion H.
    + apply ok_bind in H. destruct H as [res [Hres H]].
      apply (proj2 (clips_loop_cancelled _ _ _ _ _ _ _) (Hlen meta)) in Hres.
      rewrite Hres in H. simpl in H. now inversion H.
Qed.

End Cancellation.

End EngineFacts.

(** ** Templates given piece by piece *)

Module TemplateFacts.
Import PyList PyListFacts Engine EngineFacts Observations.

Lemma substring_none (s : string) : forall n, substring n 0 s = EmptyString.
Proof. induction s as [|c s IH]; intros [|n]; cbn [substring]; auto. Qed.

Lemma render_bound (format_value : dict -> pyval -> string -> string -> result string)
  (data : dict) (name : string) (v : pyval) :
  plain_name name -> dict_get name data = Some v ->
  render_field format_value data name "" = Ok (py_str v).
Proof.
  intros [Hd Hs] Hget. unfold render_field.
  rewrite (arg_name_plain name Hs), Hd, Hget, Nat.sub_diag, substring_none.
  reflexivity.
Qed.

(** ASCII digits are decimal digits. *)
Lemma digit_decimal (c : ascii) :
  PyStr.is_digit c = true ->
  (PyStr.byte c <? 128) = true /\ PyStr.is_decimal (PyStr.byte c) = true.
Proof.
  unfold PyStr.is_digit, PyStr.byte. intro H. apply andb_true_iff in H.
  destruct H as [H1 H2]. apply Nat.leb_le in H1, H2.
  split; [apply Z.ltb_lt; lia|].
  unfold PyStr.is_decimal, PyStr.decimal_zeros. cbn [existsb].
  replace ((48 <=? Z.of_nat (nat_of_ascii c)) && (Z.of_nat (nat_of_ascii c) <? 48 + 10))
    with true; [reflexivity|].
  symmetry. apply andb_true_iff. split; [apply Z.leb_le | apply Z.ltb_lt]; lia.
Qed.

Lemma digits_decimal (s : string) :
  PyStr.all_digits s = true -> PyStr.all_decimal s = true.
Proof.
  induction s as [|c s IH]; intro H; [reflexivity|].
  cbn [PyStr.all_digits] in H. apply andb_true_iff in H. destruct H as [Hc Hs].
  destruct (digit_decimal c Hc) as [Hb Hd].
  cbn [PyStr.all_decimal]. cbv zeta. rewrite Hb, Hd, (IH Hs). reflexivity.
Qed.

Lemma render_positional (format_value : dict -> pyval -> string -> string -> result string)
  (data : dict) (number : string) :
  PyStr.all_digits number = true ->
  PyStr.contains_char is_field_special number = false ->
  render_field format_value data number ""
  = Raise (IndexError "Replacement index out of range for positional args tuple").
Proof.
  intros Hd Hs. unfold render_field.
  now rewrite (arg_name_plain number Hs), (digits_decimal number Hd).
Qed.

Lemma digit_not_special (c : ascii) :
  PyStr.is_digit c = true -> is_field_special c = false.
Proof.
  intro H. unfold is_field_special, is_brace.
  repeat match goal with
         | |- context [Ascii.eqb c ?x] =>
             destruct (Ascii.eqb_spec c x) as [->|_]; [discriminate H|]
         end.
  reflexivity.
Qed.

Lemma digits_not_special (s : string) :
  PyStr.all_digits s = true -> PyStr.contains_char is_field_special s = false.
Proof.
  induction s as [|c s IH]; intro H; [reflexivity|].
  cbn [PyStr.all_digits] in H. apply andb_true_iff in H. destruct H as [Hc Hs].
  cbn [PyStr.contains_char]. now rewrite (digit_not_special c Hc), IH.
Qed.

(** A replacement field that consists of a name only, met in literal text. *)
Lemma scan_open_field (format_value : dict -> pyval -> string -> string -> result string)
  (data : dict) (c : ascii) (name rest : string) :
  PyStr.contains_char is_field_special (String c name) = false ->
  scan format_value data Literal ("{" ++ String c name ++ "}" ++ rest)
  = match render_field format_value data (String c name) "" with
    | Ok out1 =>
        match scan format_value data Literal rest with
        | Ok (st2, out2) => Ok (st2, (out1 ++ out2)%string)
        | Raise e => Raise e
        end
    | Raise e => Raise e
    end.
Proof.
  intro Hs.
  change ("{" ++ String c name ++ "}" ++ rest)%string
    with (String "{" (String c (name ++ String "}" rest))).
  cbn [PyStr.contains_char] in Hs. apply orb_false_iff in Hs.
  destruct Hs as [Hc Hn]. unfold is_field_special, is_brace in Hc.
  repeat (apply orb_false_iff in Hc; destruct Hc as [Hc ?]).
  cbn [scan scan_step]. change (Ascii.eqb "{" "{")%char with true. cbv iota.
  cbn [bind scan_step].
  replace (Ascii.eqb c "{"%char) with false by (symmetry; assumption).
  replace (Ascii.eqb c "}"%char) with false by (symmetry; assumption).
  replace (Ascii.eqb c "!" || Ascii.eqb c ":")%char with false
    by (symmetry; apply orb_false_iff; split; assumption).
  replace (Ascii.eqb c "["%char) with false by (symmetry; assumption).
  cbn [bind]. rewrite (scan_field_name format_value data name (String c "") rest Hn).
  change (String c "" ++ name)%string with (String c name).
  destruct (render_field format_value data (String c name) "") as [out1|e];
    cbn [bind]; [|reflexivity].
  destruct (scan format_value data Literal rest) as [[st2 out2]|e]; reflexivity.
Qed.

Lemma scan_pieces (format_value : dict -> pyval -> string -> string -> result string)
  (data : dict) (ps : list piece) :
  Forall (piece_ok data) ps ->
  scan format_value data Literal (template_of ps) = Ok (Literal, expansion data ps).
Proof.
  induction 1 as [|p ps Hp _ IH]; [reflexivity|].
  destruct p as [s| | |name]; cbn [template_of expansion piece_ok] in *.
  - rewrite scan_app, (scan_literal format_value data s Hp). cbn [bind].
    rewrite IH. reflexivity.
  - change ("{{" ++ template_of ps)%string with (String "{" (String "{" (template_of ps))).
    cbn [scan]. cbn [scan_step]. change (Ascii.eqb "{" "{")%char with true. cbv iota.
    cbn [bind scan_step]. change (Ascii.eqb "{" "{")%char with true. cbv iota.
    cbn [bind]. rewrite IH. reflexivity.
  - change ("}}" ++ template_of ps)%string with (String "}" (String "}" (template_of ps))).
    cbn [scan]. cbn [scan_step]. change (Ascii.eqb "}" "{")%char with false.
    change (Ascii.eqb "}" "}")%char with true. cbv iota.
    cbn [bind scan_step]. change (Ascii.eqb "}" "}")%char with true. cbv iota.
    cbn [bind]. rewrite IH. reflexivity.
  - destruct Hp as [Hplain [v Hget]].
    assert (exists c n, name = String c n) as [c [n ->]].
    { destruct name as [|c n]; [destruct Hplain; discriminate|now exists c, n]. }
    rewrite (scan_open_field format_value data c n (template_of ps) (proj2 Hplain)).
    rewrite (render_bound format_value data (String c n) v Hplain Hget), IH, Hget.
    reflexivity.
Qed.

Lemma known_piece_ok (w : World) (s : Settings) (meta : VideoMeta) (i : nat) (p : piece) :
  piece_known p -> piece_ok (clip_data w s meta i) p.
Proof.
  destruct p as [t| | |name]; cbn [piece_known piece_ok]; auto.
  intros [Hplain Hin]. split; [exact Hplain|].
  unfold known_placeholders in Hin. cbn [In] in Hin.
  repeat (destruct Hin as [<-|Hin]; [eexists; reflexivity|]).
  destruct Hin.
Qed.

(** Text without braces, the escapes and the seven placeholders written
    as bare names format for every clip, and end outside any field. *)
Lemma known_pieces_format
  (format_value : dict -> pyval -> string -> string -> result string)
  (w : World) (s : Settings) (meta : VideoMeta) (i : nat) (ps : list piece) :
  Forall piece_known ps ->
  scan format_value (clip_data w s meta i) Literal (template_of ps)
  = Ok (Literal, expansion (clip_data w s meta i) ps).
Proof.
  intro H. apply scan_pieces.
  eapply Forall_impl; [|exact H]. intro p. apply known_piece_ok.
Qed.

End TemplateFacts.

Module FileNames.
Import PyList Engine EngineFacts.

(** C10. For every input string, no character of the result of
    [sanitize_filename] is one of the nine characters less-than,
    greater-than, colon, double quote, slash, backslash, vertical bar,
    question mark and asterisk (codes 60, 62, 58, 34, 47, 92, 124, 63 and
    42); a fullwidth colon of the input has become a colon first and an
    underscore then. *)
Theorem sanitize_filename_clean (name : string) :
  forall n c,
    String.get n (sanitize_filename name) = Some c ->
    ~ In (nat_of_ascii c) [60; 62; 58; 34; 47; 92; 124; 63; 42]%nat.
Proof.
  intros n c Hget Hin.
  assert (is_illegal c = false) as Hc.
  { eapply contains_char_get; [|exact Hget].
    unfold sanitize_filename. now apply sub_class_clean. }
  unfold is_illegal in Hc.
  assert (existsb (Nat.eqb (nat_of_ascii c)) illegal_codes = true) as Ht.
  { apply existsb_exists. exists (nat_of_ascii c). split; [exact Hin|].
    apply Nat.eqb_refl. }
  congruence.
Qed.

(** A fullwidth colon and a fullwidth bar among ordinary characters. *)
Example sanitize_fullwidth :
  sanitize_filename ("a" ++ fullwidth_colon ++ "b" ++ fullwidth_bar ++ "c:d")%string
  = "a_b-c_d".
Proof. reflexivity. Qed.

Lemma sanitize_filename_clean_witness :
  String.get 1 (sanitize_filename "a:b") = Some "_"%char /\
  ~ In (nat_of_ascii "_"%char) [60; 62; 58; 34; 47; 92; 124; 63; 42]%nat.
Proof.
  split; [reflexivity|].
  apply (sanitize_filename_clean "a:b" 1%nat "_"%char). reflexivity.
Defined.

End FileNames.

Module TrackMapper.
Import PyList PyListFacts Engine EngineFacts Demo.

(** C3. For every stream list, list of selected ids and language priority
    list, the mapper emits the video mappings, then the audio part, then
    the subtitle part.  The tracks of each of the two types are exactly
    the streams of that type whose id is selected, each as often as it is
    listed; they are sorted by the position in the priority list of the
    lowercased language tag, [und] standing for a missing tag and a tag
    that is not listed coming after all listed ones, and by stream id
    among equal positions; the track at position 0 is marked [default]
    and every later one gets [0].  On the example of the specification
    the order is 2, 1, 3 with stream 2 alone default. *)
Theorem mapping_order_and_disposition :
  (forall (streams : list Stream) (sel : list Z) (prio : list string),
     let A := sorted (track_leb prio) (selected_tracks "audio" streams sel) in
     let S := sorted (track_leb prio) (selected_tracks "subtitle" streams sel) in
     generate_ffmpeg_mapping_args streams sel prio
     = flat_map map_arg (filter (fun t => String.eqb (codec_type t) "video") streams)
       ++ type_args "a" "-an" A ++ type_args "s" "-sn" S /\
     (forall t, In t A <-> In t streams /\ codec_type t = "audio" /\ In (id t) sel) /\
     (forall t, In t S <-> In t streams /\ codec_type t = "subtitle" /\ In (id t) sel) /\
     Permutation A (selected_tracks "audio" streams sel) /\
     Permutation S (selected_tracks "subtitle" streams sel) /\
     StronglySorted (track_before prio) A /\
     StronglySorted (track_before prio) S /\
     (forall i t, nth_error A i = Some t ->
        firstn 4 (skipn (4 * i) (track_args "a" 0 A)) = directive "a" i t) /\
     (forall i t, nth_error S i = Some t ->
        firstn 4 (skipn (4 * i) (track_args "s" 0 S)) = directive "s" i t)) /\
  generate_ffmpeg_mapping_args spec_streams [1; 2; 3] ["jpn"; "eng"]
  = ["-map"; "0:2"; "-disposition:a:0"; "default";
     "-map"; "0:1"; "-disposition:a:1"; "0";
     "-map"; "0:3"; "-disposition:a:2"; "0"; "-sn"].
Proof.
  split; [|reflexivity].
  intros streams sel prio A S.
  destruct (sorted_tracks_spec "audio" streams sel prio) as [HA1 [HA2 HA3]].
  destruct (sorted_tracks_spec "subtitle" streams sel prio) as [HS1 [HS2 HS3]].
  split; [apply generate_unfold|].
  split; [exact HA1|]. split; [exact HS1|].
  split; [exact HA2|]. split; [exact HS2|].
  split; [exact HA3|]. split; [exact HS3|].
  split.
  - intros i t H. apply (track_args_at "a" A 0 i t H).
  - intros i t H. apply (track_args_at "s" S 0 i t H).
Qed.

Lemma mapping_order_and_disposition_witness :
  firstn 4 (skipn (4 * 0)
              (track_args "a" 0
                 (sorted (track_leb ["jpn"; "eng"])
                    (selected_tracks "audio" spec_streams [1; 2; 3]))))
  = directive "a" 0 (mkStream 2 2 "audio" (Some "jpn")).
Proof.
  destruct mapping_order_and_disposition as [H _].
  destruct (H spec_streams [1; 2; 3] ["jpn"; "eng"])
    as [_ [_ [_ [_ [_ [_ [_ [Ha _]]]]]]]].
  apply (Ha 0%nat). reflexivity.
Defined.

(** A stream without language tag, with [und] listed first: the mapper
    puts it first and makes it the default, where a missing language
    sorted after all listed priorities would put stream 1 first.  An
    upper-case tag is found at the position of its lower-case form. *)
Lemma missing_language_not_last :
  let streams := [mkStream 1 1 "audio" (Some "eng"); mkStream 2 2 "audio" None] in
  let upper := [mkStream 1 1 "audio" (Some "jpn"); mkStream 2 2 "audio" (Some "ENG")] in
  (map id (literal_order ["und"; "eng"] (selected_tracks "audio" streams [1; 2]))
   = [1; 2] /\
   generate_ffmpeg_mapping_args streams [1; 2] ["und"; "eng"]
   = ["-map"; "0:2"; "-disposition:a:0"; "default";
      "-map"; "0:1"; "-disposition:a:1"; "0"; "-sn"]) /\
  (map id (literal_order ["eng"; "jpn"] (selected_tracks "audio" upper [1; 2]))
   = [1; 2] /\
   generate_ffmpeg_mapping_args upper [1; 2] ["eng"; "jpn"]
   = ["-map"; "0:2"; "-disposition:a:0"; "default";
      "-map"; "0:1"; "-disposition:a:1"; "0"; "-sn"]).
Proof. repeat split. Qed.

(** C8. For every stream list and language priority: when no audio stream
    has its id among the selected ids the arguments contain [-an], and
    when no subtitle stream has its id among them they contain [-sn]. *)
Theorem no_track_directive (streams : list Stream) (sel : list Z) (prio : list string) :
  ((forall t, In t streams -> codec_type t = "audio" -> ~ In (id t) sel) ->
   In "-an" (generate_ffmpeg_mapping_args streams sel prio)) /\
  ((forall t, In t streams -> codec_type t = "subtitle" -> ~ In (id t) sel) ->
   In "-sn" (generate_ffmpeg_mapping_args streams sel prio)).
Proof.
  rewrite generate_unfold. split; intros H; apply selected_tracks_none in H;
    rewrite H, sorted_nil; simpl type_args.
  - apply in_or_app. right. now left.
  - apply in_or_app. right. apply in_or_app. right. now left.
Qed.

Lemma no_track_directive_witness :
  In "-an" (generate_ffmpeg_mapping_args [mkStream 0 0 "video" None] [0] ["eng"]) /\
  In "-sn" (generate_ffmpeg_mapping_args [mkStream 0 0 "video" None] [0] ["eng"]).
Proof.
  destruct (no_track_directive [mkStream 0 0 "video" None] [0] ["eng"]) as [Ha Hs].
  split; [apply Ha | apply Hs]; intros t [<-|[]]; discriminate.
Defined.

End TrackMapper.

(** ** Progress of a trim *)

Module Progress.
Import PyList Engine EngineFacts Demo.

(** C9. For every trim of one segment of positive duration, whatever the
    mode and whatever the tool writes, every percentage emitted lies in
    0..100, also when the reported elapsed time exceeds the duration; and
    when the elapsed times the tool reports do not decrease, the emitted
    percentages do not decrease either. *)
Theorem trim_progress_bounded_and_monotone (w : World) (worker : bool)
  (call : TrimCall) :
  (0 < end_sec call - start_sec call)%Q ->
  Forall (fun p => 0 <= p <= 100)
         (percentages (snd (trim_video_segment w worker call))) /\
  (StronglySorted Qle (reported_times (stderr_lines (trim_run w (clip call)))) ->
   StronglySorted Z.le (percentages (snd (trim_video_segment w worker call)))).
Proof.
  intros Hd.
  destruct (trim_percentages w worker call Hd) as [E | [pre [post [Erep E]]]];
    rewrite E.
  - split; [repeat constructor; lia | intros _; repeat constructor].
  - pose proof (reported_times_nonneg (stderr_lines (trim_run w (clip call)))) as Hn.
    rewrite Erep in Hn. apply Forall_app in Hn. destruct Hn as [Hn _].
    split; [now apply map_pct_bounded|].
    intros Hs. rewrite Erep in Hs. apply StronglySorted_prefix in Hs.
    now apply map_pct_sorted.
Qed.

(** Increasing reports, the last one far beyond the ten seconds of the
    segment. *)
Lemma trim_progress_bounded_and_monotone_witness :
  percentages (snd (trim_video_segment
                      (demo_world ["time=00:00:02.50"; "time=00:00:05.00";
                                   "time=00:01:00.00"] None) true demo_call))
  = [25; 50; 100] /\
  Forall (fun p => 0 <= p <= 100)
    (percentages (snd (trim_video_segment
                         (demo_world ["time=00:00:02.50"; "time=00:00:05.00";
                                      "time=00:01:00.00"] None) true demo_call))) /\
  StronglySorted Z.le
    (percentages (snd (trim_video_segment
                         (demo_world ["time=00:00:02.50"; "time=00:00:05.00";
                                      "time=00:01:00.00"] None) true demo_call))).
Proof.
  split; [reflexivity|].
  destruct (trim_progress_bounded_and_monotone
              (demo_world ["time=00:00:02.50"; "time=00:00:05.00";
                           "time=00:01:00.00"] None) true demo_call)
    as [Hb Hm]; [reflexivity|].
  split; [exact Hb|]. apply Hm.
  repeat constructor; discriminate.
Defined.

(** A tool that reports five seconds and then two: the percentages go
    from 50 down to 20. *)
Lemma progress_can_decrease :
  (0 < end_sec demo_call - start_sec demo_call)%Q /\
  percentages (snd (trim_video_segment
                      (demo_world ["time=00:00:05.00"; "time=00:00:02.00"] None)
                      true demo_call))
  = [50; 20] /\
  ~ StronglySorted Z.le
      (percentages (snd (trim_video_segment
                           (demo_world ["time=00:00:05.00"; "time=00:00:02.00"] None)
                           true demo_call))).
Proof.
  split; [reflexivity|]. split; [reflexivity|].
  intros H. change (StronglySorted Z.le [50; 20]) in H.
  apply StronglySorted_inv in H. destruct H as [_ H].
  inversion H as [|? ? H1 _]; subst. lia.
Qed.

End Progress.

(** ** The export job *)

Module ExportJob.
Import PyList Engine EngineFacts Observations Gui Demo.

(** C1. In the mode that writes separate clips, for an output template
    with a placeholder other than [filename], [num], [start], [end],
    [resolution], [date] and [time], wherever it stands in the template,
    provided the text before it formats on the data of the first clip
    and ends outside any replacement field: the job starts no trim and
    no merge, whatever the world does; and when the input file exists,
    the probe succeeds, crop detection (if requested) finds its tool and
    the job is not cancelled before the first clip, the job raises
    [ValueError].  The probe, and crop detection when requested, have
    run by then.  The placeholder is a name that is not a number in the
    digits of any script. *)
Theorem unknown_placeholder_rejected_before_trim
  (format_value : dict -> pyval -> string -> string -> result string)
  (w : World) (s : Settings) (worker : bool) (pre name rest : string) :
  merge s = false ->
  output_template s = (pre ++ "{" ++ name ++ "}" ++ rest)%string ->
  (forall meta, probe w = ProbeOk meta ->
     exists out,
       scan format_value (clip_data w s meta 0) Literal pre = Ok (Literal, out)) ->
  plain_name name ->
  ~ In name known_placeholders ->
  existsb is_trim_or_merge (snd (run_powertrim_job format_value w s worker)) = false /\
  (forall meta,
     input_is_file w = true -> probe w = ProbeOk meta ->
     (autocrop s = true -> cropdetect w <> CropToolMissing) ->
     worker && is_cancelled w (BeforeClip 0) = false ->
     is_value_error (fst (run_powertrim_job format_value w s worker)) = true).
Proof.
  intros Hm Ht Hpre Hname Hunk.
  exact (bad_template_job format_value w s worker pre name rest Hm Ht Hpre Hname Hunk).
Qed.

Lemma unknown_placeholder_rejected_before_trim_witness :
  run_powertrim_job plain_format (demo_world [] None)
    (demo_settings "{filename}_{bogus}" false "copy") true
  = (Raise (ValueError "Invalid placeholder '{bogus}' in output template."),
     [ProcProbe]) /\
  existsb is_trim_or_merge
    (snd (run_powertrim_job plain_format (demo_world [] None)
            (demo_settings "{filename}_{bogus}" false "copy") true)) = false /\
  is_value_error
    (fst (run_powertrim_job plain_format (demo_world [] None)
            (demo_settings "{filename}_{bogus}" false "copy") true)) = true.
Proof.
  split; [reflexivity|].
  destruct (unknown_placeholder_rejected_before_trim plain_format (demo_world [] None)
              (demo_settings "{filename}_{bogus}" false "copy") true
              "{filename}_" "bogus" "") as [H1 H2].
  - reflexivity.
  - reflexivity.
  - intros meta _. eexists.
    apply (TemplateFacts.known_pieces_format plain_format _ _ meta 0
             [Field "filename"; Text "_"]).
    repeat constructor; cbn; tauto.
  - split; reflexivity.
  - simpl. intros [H|[H|[H|[H|[H|[H|[H|[]]]]]]]]; discriminate.
  - split; [exact H1|]. apply (H2 demo_meta); try reflexivity.
    intros _. discriminate.
Defined.

(** The same unknown placeholder in a merging job: no error, both clips
    are trimmed and merged, and the worker reports the merged file.  In
    the other mode the error comes after the probe has run. *)
Lemma unknown_placeholder_merge_job_runs :
  (fst (run_powertrim_job plain_format (demo_world [] None)
          (demo_settings "{bogus}" true "copy") true) = Ok "/out/merged.mp4" /\
   existsb is_trim_or_merge
     (snd (run_powertrim_job plain_format (demo_world [] None)
             (demo_settings "{bogus}" true "copy") true)) = true /\
   In (finished "/out/merged.mp4")
      (ExportWorker_run plain_format (demo_world [] None)
         (demo_settings "{bogus}" true "copy"))) /\
  run_powertrim_job plain_format (demo_world [] None)
    (demo_settings "{bogus}" false "copy") true
  = (Raise (ValueError "Invalid placeholder '{bogus}' in output template."),
     [ProcProbe]).
Proof.
  split; [split; [reflexivity | split; [reflexivity|]] | reflexivity].
  vm_compute. repeat (try (left; reflexivity); right).
Qed.

(** Cancellation in general.  For every job run by the worker and every
    clip [i] of it (counted from 0): when [stop()] has set the flag by the
    time the loop looks at it before clip [i], no work on clip [i] or a
    later clip starts (no [clip_started], no trim) and no merge starts; a
    job that returns, returns the marker [Cancelled]; and the worker then
    emits nothing after the job, so the [finished] signal is never
    emitted, not even with the marker. *)
Theorem cancelled_before_clip
  (format_value : dict -> pyval -> string -> string -> result string)
  (w : World) (s : Settings) (i : nat) (c : Point) :
  cancel_at w = Some c ->
  point_leb c (BeforeClip i) = true ->
  (i < List.length (segments_raw s))%nat ->
  existsb (starts_from i) (ExportWorker_run format_value w s) = false /\
  existsb is_finished (ExportWorker_run format_value w s) = false /\
  (forall r, fst (run_powertrim_job format_value w s true) = Ok r ->
     r = "Cancelled" /\
     ExportWorker_run format_value w s
     = snd (run_powertrim_job format_value w s true)).
Proof.
  intros Hc Hle Hi.
  assert (is_cancelled w AfterJob = true) as Hend
    by (apply (cancelled_at w i c Hc Hle); reflexivity).
  destruct (cancelled_job format_value w s i c Hc Hle (starts_from i)) as [Hq1 Hr];
    try reflexivity; try assumption.
  { intros k t Hk. simpl. apply Z.leb_gt. lia. }
  { intros call Hk. simpl. apply Nat.leb_gt. lia. }
  destruct (cancelled_job format_value w s i c Hc Hle is_finished) as [Hq2 _];
    try reflexivity; try assumption.
  unfold ExportWorker_run.
  destruct (run_powertrim_job format_value w s true) as [[r|e] tr];
    simpl in Hq1, Hq2, Hr |- *; rewrite ?Hend; simpl.
  - split; [assumption|]. split; [assumption|]. intros r' Hr'. split; [|reflexivity].
    now apply Hr.
  - rewrite !existsb_app, Hq1, Hq2. simpl.
    split; [reflexivity|]. split; [reflexivity|]. intros r' Hr'. discriminate.
Qed.

Lemma cancelled_before_clip_witness :
  existsb (starts_from 1)
    (ExportWorker_run plain_format (demo_world [] (Some (BeforeClip 1)))
       (demo_settings "{filename}_{num}" true "copy")) = false /\
  existsb is_finished
    (ExportWorker_run plain_format (demo_world [] (Some (BeforeClip 1)))
       (demo_settings "{filename}_{num}" true "copy")) = false /\
  (forall r,
     fst (run_powertrim_job plain_format (demo_world [] (Some (BeforeClip 1)))
            (demo_settings "{filename}_{num}" true "copy") true) = Ok r ->
     r = "Cancelled" /\
     ExportWorker_run plain_format (demo_world [] (Some (BeforeClip 1)))
       (demo_settings "{filename}_{num}" true "copy")
     = snd (run_powertrim_job plain_format (demo_world [] (Some (BeforeClip 1)))
              (demo_settings "{filename}_{num}" true "copy") true)).
Proof.
  apply (cancelled_before_clip plain_format (demo_world [] (Some (BeforeClip 1)))
           (demo_settings "{filename}_{num}" true "copy") 1%nat (BeforeClip 1)).
  - reflexivity.
  - reflexivity.
  - simpl. lia.
Defined.

(** C2. The two segments of the specification at 25 frames per second,
    merging by stream copy, with [stop()] called after clip 1 and before
    the loop looks at the flag for clip 2: the job returns the marker
    [Cancelled] and the trim of clip 2 never starts, but the worker
    emits no [finished] signal, so the caller does not observe
    [finished] with the marker. *)
Lemma cancelled_job_emits_no_finished :
  fst (run_powertrim_job plain_format (demo_world [] (Some (BeforeClip 1)))
         (demo_settings "{filename}_{num}" true "copy") true) = Ok "Cancelled" /\
  ExportWorker_run plain_format (demo_world [] (Some (BeforeClip 1)))
    (demo_settings "{filename}_{num}" true "copy")
  = [ProcProbe; clip_started 1 2; step_changed "Processing clip 1 of 2...";
     ProcTrim (mkTrimCall 0 "/tmp/job/temp_001.mkv" ((0 # 1) / (25 # 1))
                 ((100 # 1) / (25 # 1)) "copy" None
                 ["-map"; "0:0"; "-map"; "0:1"; "-disposition:a:0"; "default"; "-sn"])] /\
  ~ In (finished "Cancelled")
       (ExportWorker_run plain_format (demo_world [] (Some (BeforeClip 1)))
          (demo_settings "{filename}_{num}" true "copy")).
Proof.
  split; [reflexivity|]. split; [reflexivity|].
  intros H. vm_compute in H. intuition discriminate.
Qed.

End ExportJob.

(** ** The undo manager as a whole, and the handlers around it *)

Module HandlersFacts.
Import PyList PyListFacts Gui GuiFacts Handlers.

Lemma count_dirty_app (l1 l2 : list Signal) :
  count_dirty (l1 ++ l2) = (count_dirty l1 + count_dirty l2)%nat.
Proof. unfold count_dirty. now rewrite filter_app, length_app. Qed.

Lemma dirty_emit_model (st : Store) :
  count_dirty (emitted (emit model_changed st)) = count_dirty (emitted st).
Proof. unfold emit; cbn [emitted]. rewrite count_dirty_app. cbn. lia. Qed.

Lemma dirty_add (d : SegData) (i : Z) (st : Store) :
  count_dirty (emitted (add_segment d i st)) = count_dirty (emitted st).
Proof. unfold add_segment. now rewrite dirty_emit_model. Qed.

Lemma dirty_remove (i : Z) (st : Store) :
  count_dirty (emitted (remove_segment i st)) = count_dirty (emitted st).
Proof.
  unfold remove_segment.
  destruct ((0 <=? i) && (i <? len (segments st))); [|reflexivity].
  now rewrite dirty_emit_model.
Qed.

Lemma dirty_update (i : Z) (d : SegData) (st : Store) :
  count_dirty (emitted (update_segment i d st)) = count_dirty (emitted st).
Proof.
  unfold update_segment.
  destruct ((0 <=? i) && (i <? len (segments st))); [|reflexivity].
  now rewrite dirty_emit_model.
Qed.

Lemma dirty_set (ds : list SegData) (st : Store) :
  count_dirty (emitted (set_segments ds st)) = count_dirty (emitted st).
Proof. unfold set_segments. now rewrite dirty_emit_model. Qed.

Lemma dirty_remove_all (D : list Z) :
  forall st, count_dirty (emitted (remove_all D st)) = count_dirty (emitted st).
Proof.
  unfold remove_all. induction D as [|d D IH]; intro st; [reflexivity|].
  cbn [fold_left]. rewrite IH. apply dirty_remove.
Qed.

Lemma dirty_reinsert (od : list SegData) (idxs : list Z) :
  forall k st st', reinsert od k idxs st = Ok st' ->
    count_dirty (emitted st') = count_dirty (emitted st).
Proof.
  induction idxs as [|i idxs IH]; intros k st st' H; cbn [reinsert] in H.
  - now injection H as <-.
  - destruct (getitem od k) as [d|e]; [|discriminate]. cbn [bind] in H.
    apply IH in H. rewrite H. apply dirty_add.
Qed.

Lemma dirty_cmd_execute (cmd cmd' : Command) (st st' : Store) :
  cmd_execute cmd st = Ok (cmd', st') ->
  count_dirty (emitted st') = count_dirty (emitted st).
Proof.
  destruct cmd as [d|i d|i o n|o n|D md od ins]; cbn [cmd_execute]; intro H.
  - injection H as _ <-. apply dirty_add.
  - injection H as _ <-. apply dirty_remove.
  - injection H as _ <-. apply dirty_update.
  - injection H as _ <-. apply dirty_set.
  - destruct (match od with [] => _ | _ => _ end) as [od'|e]; [|discriminate].
    cbn [bind] in H.
    destruct (getitem D (-1)) as [m|e]; [|discriminate]. cbn [bind] in H.
    injection H as _ <-. rewrite dirty_add. apply dirty_remove_all.
Qed.

Lemma dirty_cmd_undo (cmd : Command) (st st' : Store) :
  cmd_undo cmd st = Ok st' ->
  count_dirty (emitted st') = count_dirty (emitted st).
Proof.
  destruct cmd as [d|i d|i o n|o n|D md od ins]; cbn [cmd_undo]; intro H.
  - injection H as <-. apply dirty_remove.
  - injection H as <-. apply dirty_add.
  - injection H as <-. apply dirty_update.
  - injection H as <-. apply dirty_set.
  - apply dirty_reinsert in H. rewrite H. apply dirty_remove.
Qed.

Lemma dirty_stack_states (a : App) :
  count_dirty (emitted (sm (update_stack_states a))) = count_dirty (emitted (sm a)).
Proof.
  unfold update_stack_states, emit_app, emit. cbn [sm emitted].
  rewrite !count_dirty_app. cbn. lia.
Qed.

Lemma dirty_executed (a : App) :
  count_dirty (emitted (sm (emit_app command_executed a)))
  = S (count_dirty (emitted (sm a))).
Proof.
  unfold emit_app, emit. cbn [sm emitted]. rewrite count_dirty_app. cbn. lia.
Qed.

Lemma constructed_reinsert (od : list SegData) (idxs : list Z) :
  forall k st st', constructed (segments st) -> reinsert od k idxs st = Ok st' ->
    constructed (segments st').
Proof.
  induction idxs as [|i idxs IH]; intros k st st' Hc H; cbn [reinsert] in H.
  - now injection H as <-.
  - destruct (getitem od k) as [d|e]; [|discriminate]. cbn [bind] in H.
    eapply IH; [|exact H]. now apply constructed_add.
Qed.

Lemma constructed_cmd_execute (cmd cmd' : Command) (st st' : Store) :
  constructed (segments st) -> cmd_execute cmd st = Ok (cmd', st') ->
  constructed (segments st').
Proof.
  intro Hc.
  destruct cmd as [d|i d|i o n|o n|D md od ins]; cbn [cmd_execute]; intro H.
  - injection H as _ <-. now apply constructed_add.
  - injection H as _ <-. now apply constructed_remove.
  - injection H as _ <-. now apply constructed_update.
  - injection H as _ <-. apply constructed_set.
  - destruct (match od with [] => _ | _ => _ end) as [od'|e]; [|discriminate].
    cbn [bind] in H.
    destruct (getitem D (-1)) as [m|e]; [|discriminate]. cbn [bind] in H.
    injection H as _ <-. apply constructed_add. now apply constructed_remove_all.
Qed.

Lemma constructed_cmd_undo (cmd : Command) (st st' : Store) :
  constructed (segments st) -> cmd_undo cmd st = Ok st' ->
  constructed (segments st').
Proof.
  intro Hc.
  destruct cmd as [d|i d|i o n|o n|D md od ins]; cbn [cmd_undo]; intro H.
  - injection H as <-. now apply constructed_remove.
  - injection H as <-. now apply constructed_add.
  - injection H as <-. now apply constructed_update.
  - injection H as <-. apply constructed_set.
  - eapply constructed_reinsert; [|exact H]. now apply constructed_remove.
Qed.

Lemma exists_last_or_nil {A : Type} (l : list A) :
  l = [] \/ exists pre x, l = pre ++ [x].
Proof.
  destruct l as [|y l]; [now left|right].
  apply exists_last_cons. discriminate.
Qed.

(** What a successful call of the undo manager looks like from outside. *)
Lemma um_execute_inv (cmd : Command) (a a' : App) :
  um_execute cmd a = Ok a' ->
  exists cmd' st,
    cmd_execute cmd (sm a) = Ok (cmd', st) /\
    a' = emit_app command_executed
           (update_stack_states (mkApp st (undo_stack a ++ [cmd']) [])).
Proof.
  unfold um_execute. destruct (cmd_execute cmd (sm a)) as [[cmd' st]|e]; [|discriminate].
  cbn [bind]. intro H. injection H as <-. now exists cmd', st.
Qed.

Lemma um_undo_inv (a a' : App) :
  um_undo a = Ok a' ->
  (undo_stack a = [] /\ a' = emit_app command_executed a) \/
  (exists rest cmd st,
     undo_stack a = rest ++ [cmd] /\ cmd_undo cmd (sm a) = Ok st /\
     a' = emit_app command_executed
            (update_stack_states (mkApp st rest (redo_stack a ++ [cmd])))).
Proof.
  unfold um_undo.
  destruct (exists_last_or_nil (undo_stack a)) as [EU|[U0 [c0 EU]]]; rewrite EU.
  - cbn. intro H. injection H as <-. now left.
  - rewrite pop_snoc.
    destruct (cmd_undo c0 (sm a)) as [st|e] eqn:E; [|discriminate].
    cbn [bind]. intro H. injection H as <-. right. now exists U0, c0, st.
Qed.

Lemma um_redo_inv (a a' : App) :
  um_redo a = Ok a' ->
  (redo_stack a = [] /\ a' = emit_app command_executed a) \/
  (exists rest cmd cmd' st,
     redo_stack a = rest ++ [cmd] /\ cmd_execute cmd (sm a) = Ok (cmd', st) /\
     a' = emit_app command_executed
            (update_stack_states (mkApp st (undo_stack a ++ [cmd']) rest))).
Proof.
  unfold um_redo.
  destruct (exists_last_or_nil (redo_stack a)) as [EU|[U0 [c0 EU]]]; rewrite EU.
  - cbn. intro H. injection H as <-. now left.
  - rewrite pop_snoc.
    destruct (cmd_execute c0 (sm a)) as [[cmd' st]|e] eqn:E; [|discriminate].
    cbn [bind]. intro H. injection H as <-. right. now exists U0, c0, cmd', st.
Qed.

Lemma redo_n_empty (n : nat) :
  forall a, redo_stack a = [] ->
    exists a2, redo_n n a = Ok a2 /\
      segments (sm a2) = segments (sm a) /\
      undo_stack a2 = undo_stack a /\
      redo_stack a2 = [].
Proof.
  induction n as [|n IH]; intros a H; [now exists a|].
  cbn [redo_n]. rewrite (SegmentStore.um_redo_empty a H). cbn [bind].
  destruct (IH (emit_app command_executed a) H) as [a2 [E1 E2]].
  now exists a2.
Qed.

End HandlersFacts.

(** ** Undo history and selection handlers *)

Module UndoHistory.
Import PyList PyListFacts Gui GuiFacts Handlers HandlersFacts Demo.

(** X1. No call of the undo manager leaves a segment with an empty name
    in the store: when every segment of the store has a name, so has every
    segment after a successful [execute], [undo] or [redo], whatever the
    command and whatever the two stacks hold. *)
Theorem undo_manager_keeps_names (cmd : Command) (a a' : App) :
  constructed (segments (sm a)) ->
  um_execute cmd a = Ok a' \/ um_undo a = Ok a' \/ um_redo a = Ok a' ->
  constructed (segments (sm a')).
Proof.
  intros Hc [H|[H|H]].
  - apply um_execute_inv in H. destruct H as [cmd' [st [Hex ->]]].
    cbn [emit_app update_stack_states sm emit segments].
    eapply constructed_cmd_execute; eassumption.
  - apply um_undo_inv in H. destruct H as [[_ ->]|[rest [c [st [_ [Hu ->]]]]]].
    + exact Hc.
    + cbn [emit_app update_stack_states sm emit segments].
      eapply constructed_cmd_undo; eassumption.
  - apply um_redo_inv in H. destruct H as [[_ ->]|[rest [c [c' [st [_ [Hex ->]]]]]]].
    + exact Hc.
    + cbn [emit_app update_stack_states sm emit segments].
      eapply constructed_cmd_execute; eassumption.
Qed.

Lemma undo_manager_keeps_names_witness :
  exists a',
    um_execute (new_MergeSegmentsCommand [1; 0] (0, 20, "red", "")) demo_app = Ok a' /\
    constructed (segments (sm a')).
Proof.
  eexists. split; [reflexivity|].
  apply (undo_manager_keeps_names
           (new_MergeSegmentsCommand [1; 0] (0, 20, "red", "")) demo_app).
  - repeat constructor; discriminate.
  - left. reflexivity.
Defined.

(** X2. Every successful call of [execute], [undo] or [redo] emits the
    [command_executed] signal exactly once, at any state of the stacks;
    the calls of the segment manager made on the way emit none. *)
Theorem undo_manager_marks_dirty_once (cmd : Command) (a a' : App) :
  um_execute cmd a = Ok a' \/ um_undo a = Ok a' \/ um_redo a = Ok a' ->
  count_dirty (emitted (sm a')) = S (count_dirty (emitted (sm a))).
Proof.
  intros [H|[H|H]].
  - apply um_execute_inv in H. destruct H as [cmd' [st [Hex ->]]].
    rewrite dirty_executed, dirty_stack_states. cbn [sm].
    f_equal. eapply dirty_cmd_execute; eassumption.
  - apply um_undo_inv in H. destruct H as [[_ ->]|[rest [c [st [_ [Hu ->]]]]]].
    + apply dirty_executed.
    + rewrite dirty_executed, dirty_stack_states. cbn [sm].
      f_equal. eapply dirty_cmd_undo; eassumption.
  - apply um_redo_inv in H. destruct H as [[_ ->]|[rest [c [c' [st [_ [Hex ->]]]]]]].
    + apply dirty_executed.
    + rewrite dirty_executed, dirty_stack_states. cbn [sm].
      f_equal. eapply dirty_cmd_execute; eassumption.
Qed.

Lemma undo_manager_marks_dirty_once_witness :
  exists a',
    um_execute (new_MergeSegmentsCommand [1; 0] (0, 20, "red", "")) demo_app = Ok a' /\
    count_dirty (emitted (sm a')) = S (count_dirty (emitted (sm demo_app))).
Proof.
  eexists. split; [reflexivity|].
  apply (undo_manager_marks_dirty_once
           (new_MergeSegmentsCommand [1; 0] (0, 20, "red", "")) demo_app).
  left. reflexivity.
Defined.

(** X3. A newly executed command discards the redo history: after a
    successful [execute] the redo stack is empty, whatever it held
    before, and no number of calls of [redo] changes the segments or the
    undo stack. *)
Theorem execute_discards_redo_history (cmd : Command) (a a' : App) (n : nat) :
  um_execute cmd a = Ok a' ->
  redo_stack a' = [] /\
  exists a'', redo_n n a' = Ok a'' /\
    segments (sm a'') = segments (sm a') /\
    undo_stack a'' = undo_stack a' /\
    redo_stack a'' = [].
Proof.
  intro H. apply um_execute_inv in H. destruct H as [cmd' [st [_ ->]]].
  split; [reflexivity|]. now apply redo_n_empty.
Qed.

Lemma execute_discards_redo_history_witness :
  exists a',
    um_execute (AddSegmentCommand (80, 90, "pink", ""))
      (mkApp (sm demo_app) [] [DeleteSegmentCommand 0 (0, 10, "red", "Segment [0-10]")])
    = Ok a' /\
    redo_stack a' = [] /\
    exists a'', redo_n 3 a' = Ok a'' /\
      segments (sm a'') = segments (sm a') /\
      undo_stack a'' = undo_stack a' /\
      redo_stack a'' = [].
Proof.
  eexists. split; [reflexivity|].
  apply (execute_discards_redo_history (AddSegmentCommand (80, 90, "pink", ""))
           (mkApp (sm demo_app) []
              [DeleteSegmentCommand 0 (0, 10, "red", "Segment [0-10]")])).
  reflexivity.
Defined.

(** X4. A delete command whose index misses the store is not reversible:
    executing it changes no segment (the segment manager ignores an index
    out of range), yet undoing it inserts the segment of its data, so the
    store ends up one segment longer than before the command. *)
Theorem stale_delete_undo_grows_store (index : Z) (data : SegData) (a : App) :
  ~ (0 <= index < len (segments (sm a))) ->
  exists a1 a2,
    um_execute (DeleteSegmentCommand index data) a = Ok a1 /\
    segments (sm a1) = segments (sm a) /\
    um_undo a1 = Ok a2 /\
    In (Segment_of_data data) (segments (sm a2)) /\
    List.length (segments (sm a2)) = S (List.length (segments (sm a))).
Proof.
  intro Hout.
  assert (cmd_execute (DeleteSegmentCommand index data) (sm a)
          = Ok (DeleteSegmentCommand index data, sm a)) as Hex.
  { cbn [cmd_execute]. now rewrite (segments_remove_out index (sm a) Hout). }
  destruct (um_execute_ok _ _ a _ Hex) as [a1 [Ha1 [Eseg [EU _]]]].
  exists a1. eexists. split; [exact Ha1|]. split; [exact Eseg|].
  unfold um_undo. rewrite EU, pop_snoc. cbn [cmd_undo bind].
  split; [reflexivity|].
  cbn [sm emit_app update_stack_states emit segments].
  unfold add_segment. cbn [emit segments]. rewrite Eseg.
  destruct (index =? -1).
  - split; [apply in_or_app; right; left; reflexivity|].
    rewrite length_app. cbn. lia.
  - unfold insert.
    set (j := Z.to_nat _).
    split; [apply in_or_app; right; left; reflexivity|].
    rewrite length_app. cbn [List.length].
    rewrite <- (firstn_skipn j (segments (sm a))) at 3.
    rewrite length_app. lia.
Qed.

Lemma stale_delete_undo_grows_store_witness :
  exists a1 a2,
    um_execute (DeleteSegmentCommand 4 (41, 50, "grey", "D")) demo_app = Ok a1 /\
    segments (sm a1) = segments (sm demo_app) /\
    um_undo a1 = Ok a2 /\
    In (Segment_of_data (41, 50, "grey", "D")) (segments (sm a2)) /\
    List.length (segments (sm a2)) = S (List.length (segments (sm demo_app))).
Proof.
  apply (stale_delete_undo_grows_store 4 (41, 50, "grey", "D") demo_app).
  cbn. lia.
Defined.

(** X5. The merge handler does nothing for a selection of fewer than two
    rows; for a valid selection of at least two distinct rows whose
    ranges touch or overlap, the store afterwards holds one segment in
    place of the selected ones, one command was pushed on the undo stack
    and the redo stack is empty. *)
Theorem merge_handler_size (rows : list nat) (a : App) :
  ((List.length rows < 2)%nat -> merge_selected_segments rows a = Ok a) /\
  (NoDup rows ->
   (forall r, In r rows -> (r < List.length (segments (sm a)))%nat) ->
   (2 <= List.length rows)%nat ->
   adjacent_or_overlapping (selection_by_start rows a) ->
   exists a' cmd,
     merge_selected_segments rows a = Ok a' /\
     (List.length (segments (sm a')) + List.length rows
      = List.length (segments (sm a)) + 1)%nat /\
     undo_stack a' = undo_stack a ++ [cmd] /\
     redo_stack a' = []).
Proof.
  split.
  - intro Hfew. unfold merge_selected_segments.
    assert (List.length (selected_items rows a) <= List.length rows)%nat as Hle.
    { unfold selected_items. clear Hfew. induction rows as [|r rows IH]; [cbn; lia|].
      cbn [flat_map]. rewrite length_app.
      destruct (nth_error (segments (sm a)) r); cbn [List.length]; lia. }
    replace (len (selected_items rows a) <? 2) with true; [reflexivity|].
    symmetry. apply Z.ltb_lt. unfold len. lia.
  - intros Hnd Hval Hmany Hadj.
    apply has_gap_false_iff in Hadj.
    destruct (merge_handler_executes rows a Hval Hmany Hadj)
      as [first [others [Esel Hrun]]].
    pose proof (selection_indices_below rows a Hnd Hval) as HD.
    pose proof (selection_indices_not_nil rows a Hval Hmany) as Hne.
    pose proof (selection_length rows a Hval) as Hlen.
    unfold new_MergeSegmentsCommand in Hrun.
    set (md := (start_frame (snd first), max_end first others, color (snd first),
                ("Merged [" ++ str_of_Z (start_frame (snd first)) ++ "-"
                 ++ str_of_Z (max_end first others) ++ "]")%string)) in *.
    set (D := sorted_desc (map fst (selection_by_start rows a))) in *.
    destruct (merge_executes D md (-1) (sm a) Hne HD)
      as [od [m [Hex [_ [_ [Hm0 Hm1]]]]]].
    destruct (um_execute_ok _ _ a _ Hex) as [a' [Ha' [Eseg [EU ER]]]].
    exists a', (MergeSegmentsCommand D md od m).
    rewrite Hrun. split; [exact Ha'|]. split; [|split; assumption].
    rewrite Eseg.
    pose proof (length_remove_all D (sm a) HD) as Hrem.
    assert (len D = len rows) as HlenD.
    { unfold len, D, sorted_desc. rewrite sorted_length, length_map, Hlen.
      reflexivity. }
    rewrite add_segment_index by lia.
    rewrite length_app. cbn [List.length].
    rewrite <- (firstn_skipn (Z.to_nat m) (segments (remove_all D (sm a)))) in Hrem.
    unfold len in *. rewrite length_app in Hrem. lia.
Qed.

Lemma merge_handler_size_witness :
  merge_selected_segments [2]%nat demo_app = Ok demo_app /\
  exists a' cmd,
    merge_selected_segments [3; 2]%nat demo_app = Ok a' /\
    (List.length (segments (sm a')) + List.length [3; 2]%nat
     = List.length (segments (sm demo_app)) + 1)%nat /\
    undo_stack a' = undo_stack demo_app ++ [cmd] /\
    redo_stack a' = [].
Proof.
  split.
  - apply (merge_handler_size [2]%nat demo_app). cbn. lia.
  - apply (merge_handler_size [3; 2]%nat demo_app).
    + repeat constructor; simpl; intuition discriminate.
    + simpl. intros r [<-|[<-|[]]]; lia.
    + simpl. lia.
    + apply has_gap_false_iff. reflexivity.
Defined.

(** X6. The delete handler removes the first selected row only, however
    many rows are selected, and does nothing for an empty selection; the
    command it executes is reversible: one [undo] puts the segment back
    at its row. *)
Theorem delete_handler_first_selected_only (r : nat) (others : list nat) (a : App) :
  constructed (segments (sm a)) ->
  (r < List.length (segments (sm a)))%nat ->
  delete_selected_segment [] a = Ok a /\
  exists a1 a2,
    delete_selected_segment (r :: others) a = Ok a1 /\
    segments (sm a1) = delete_nth r (segments (sm a)) /\
    um_undo a1 = Ok a2 /\
    segments (sm a2) = segments (sm a) /\
    undo_stack a2 = undo_stack a.
Proof.
  intros Hc Hr. split; [reflexivity|].
  destruct (nth_error (segments (sm a)) r) as [seg|] eqn:En;
    [|apply nth_error_None in En; lia].
  assert (named seg) as Hn.
  { unfold constructed in Hc. rewrite Forall_forall in Hc.
    apply Hc. eapply nth_error_In; eassumption. }
  unfold delete_selected_segment, selected_items. cbn [flat_map]. rewrite En.
  cbn [app]. replace (0 <=? Z.of_nat r) with true by (symmetry; apply Z.leb_le; lia).
  unfold get_all_segments.
  rewrite (getitem_index (segments (sm a)) (Z.of_nat r) seg)
    by (try lia; now rewrite Nat2Z.id).
  cbn [bind].
  pose proof (delete_reversible (Z.of_nat r) seg (segments (sm a))) as Hrev.
  rewrite Nat2Z.id in Hrev. specialize (Hrev ltac:(lia) En Hn).
  destruct Hrev as [Hfwd Hback].
  destruct (Hfwd (sm a) eq_refl) as [st' [Hex Est']].
  destruct (um_execute_ok _ _ a _ Hex) as [a1 [Ha1 [Eseg [EU _]]]].
  destruct (um_undo_step a1 (undo_stack a) _ (segments (sm a)) (segments (sm a1)) EU)
    as [a2 [Ha2 [Es2 [EU2 _]]]].
  { rewrite Eseg, Est'. split; assumption. }
  { reflexivity. }
  exists a1, a2. rewrite Eseg, Est'. repeat split; assumption.
Qed.

Lemma delete_handler_first_selected_only_witness :
  delete_selected_segment [] demo_app = Ok demo_app /\
  exists a1 a2,
    delete_selected_segment [1; 3]%nat demo_app = Ok a1 /\
    segments (sm a1) = delete_nth 1 (segments (sm demo_app)) /\
    um_undo a1 = Ok a2 /\
    segments (sm a2) = segments (sm demo_app) /\
    undo_stack a2 = undo_stack demo_app.
Proof.
  apply (delete_handler_first_selected_only 1 [3]%nat demo_app).
  - repeat constructor; discriminate.
  - cbn. lia.
Defined.

(** X7. Marking an out point adds at most one segment, at the end of the
    store, and only a well-formed one: it runs from the in point to the
    frame under the playhead with 0 <= start < end, and both marks are
    reset afterwards. It is added whenever the in point is set at a frame
    before the playhead. *)
Theorem marking_adds_wellformed_segment (c : Color) (cs : list Color)
  (m : Marks) (a : App) :
  (forall m' a', set_out_point c cs m a = Ok (m', a') ->
     a' = a \/
     (exists seg, segments (sm a') = segments (sm a) ++ [seg] /\
        start_frame seg = in_point m /\ end_frame seg = current_frame m /\
        0 <= start_frame seg < end_frame seg /\
        in_point m' = -1 /\ out_point m' = -1 /\
        color_idx m' = color_idx m + 1)) /\
  (0 <= in_point m < current_frame m ->
   exists m' a',
     set_out_point c cs m a = Ok (m', a') /\
     segments (sm a')
     = segments (sm a)
       ++ [new_Segment (in_point m) (current_frame m)
             (palette_color c cs (color_idx m)) ""]).
Proof.
  unfold set_out_point, add_segment_from_in_out.
  cbn [in_point out_point current_frame color_idx].
  split.
  - intros m' a'.
    destruct (in_point m =? -1); [intro H; injection H as _ <-; now left|].
    destruct (in_point m <? current_frame m) eqn:Elt;
      [|intro H; injection H as _ <-; now left].
    destruct (0 <=? in_point m) eqn:Ege; cbn [andb];
      [|intro H; injection H as _ <-; now left].
    unfold um_execute. cbn [cmd_execute bind].
    intro H. injection H as <- <-. right.
    apply Z.ltb_lt in Elt. apply Z.leb_le in Ege.
    eexists. split; [reflexivity|].
    cbn. repeat split; lia.
  - intros [Hge Hlt].
    replace (in_point m =? -1) with false by (symmetry; apply Z.eqb_neq; lia).
    replace (in_point m <? current_frame m) with true by (symmetry; apply Z.ltb_lt; lia).
    replace (0 <=? in_point m) with true by (symmetry; apply Z.leb_le; lia).
    cbn [andb]. unfold um_execute. cbn [cmd_execute bind].
    eexists. eexists. split; reflexivity.
Qed.

Lemma marking_adds_wellformed_segment_witness :
  exists m' a',
    set_out_point "red" ["blue"] (mkMarks 5 (-1) 9 3) demo_app = Ok (m', a') /\
    (a' = demo_app \/
     (exists seg, segments (sm a') = segments (sm demo_app) ++ [seg] /\
        start_frame seg = 5 /\ end_frame seg = 9 /\
        0 <= start_frame seg < end_frame seg /\
        in_point m' = -1 /\ out_point m' = -1 /\
        color_idx m' = 3 + 1)) /\
    exists m2 a2,
      set_out_point "red" ["blue"] (mkMarks 5 (-1) 9 3) demo_app = Ok (m2, a2) /\
      segments (sm a2)
      = segments (sm demo_app) ++ [new_Segment 5 9 (palette_color "red" ["blue"] 3) ""].
Proof.
  eexists. eexists. split; [reflexivity|].
  split.
  - apply (proj1 (marking_adds_wellformed_segment "red" ["blue"]
                    (mkMarks 5 (-1) 9 3) demo_app)).
    reflexivity.
  - apply (proj2 (marking_adds_wellformed_segment "red" ["blue"]
                    (mkMarks 5 (-1) 9 3) demo_app)).
    cbn. lia.
Defined.

End UndoHistory.

(** ** Boundaries of the timeline and CSV files *)

Module TimelineFacts.
Import PyList PyListFacts Gui GuiFacts Handlers.

Lemma leb_total (x y : Z) : Z.leb x y = true \/ Z.leb y x = true.
Proof. destruct (Z.leb_spec x y); [now left|right; apply Z.leb_le; lia]. Qed.

Lemma leb_trans (x y z : Z) :
  Z.leb x y = true -> Z.leb y z = true -> Z.leb x z = true.
Proof. rewrite !Z.leb_le. lia. Qed.

Lemma sorted_strict (l : list Z) :
  StronglySorted (le Z.leb) l -> NoDup l -> StronglySorted Z.lt l.
Proof.
  induction 1 as [|x l Hs IH Hall]; intro Hnd; [constructor|].
  inversion Hnd as [|? ? Hnotin Hnd']; subst.
  constructor; [now apply IH|].
  rewrite Forall_forall in *. intros y Hy.
  specialize (Hall y Hy). unfold le in Hall. apply Z.leb_le in Hall.
  assert (x <> y) by (intros ->; contradiction). lia.
Qed.

Lemma boundaries_in (segs : list Segment) (f : Z) :
  In f (get_sorted_boundaries segs) <-> is_boundary segs f.
Proof.
  unfold get_sorted_boundaries, is_boundary.
  rewrite (Permutation_in' (eq_refl f) (sorted_perm Z.leb _)).
  rewrite nodup_In, in_flat_map.
  split; intros [s [Hs H]]; exists s; (split; [exact Hs|]).
  - destruct H as [<-|[<-|[]]]; [now left|now right].
  - destruct H as [->| ->]; [now left|right; now left].
Qed.

Lemma boundaries_sorted (segs : list Segment) :
  StronglySorted Z.lt (get_sorted_boundaries segs).
Proof.
  apply sorted_strict.
  - apply sorted_sorted; [exact leb_total|exact leb_trans].
  - unfold get_sorted_boundaries.
    eapply Permutation_NoDup; [symmetry; apply sorted_perm|]. apply NoDup_nodup.
Qed.

(** The first element of a list that passes a test, with the elements
    before it. *)
Lemma find_split {A : Type} (p : A -> bool) (l : list A) :
  match find p l with
  | Some x => exists l1 l2, l = l1 ++ x :: l2 /\ p x = true /\
                            forall y, In y l1 -> p y = false
  | None => forall y, In y l -> p y = false
  end.
Proof.
  induction l as [|y l IH]; cbn [find]; [intros ? []|].
  destruct (p y) eqn:E.
  - exists [], l. repeat split; [exact E|intros ? []].
  - destruct (find p l) as [x|].
    + destruct IH as [l1 [l2 [-> [Hx Hb]]]]. exists (y :: l1), l2.
      repeat split; [exact Hx|]. intros z [<-|Hz]; [exact E|now apply Hb].
    + intros z [<-|Hz]; [exact E|now apply IH].
Qed.

Lemma sorted_app_lt (l1 l2 : list Z) (x : Z) :
  StronglySorted Z.lt (l1 ++ x :: l2) ->
  (forall y, In y l1 -> y < x) /\ (forall y, In y l2 -> x < y).
Proof.
  induction l1 as [|z l1 IH]; cbn [app]; intro H.
  - inversion H as [|? ? _ Hall]; subst. rewrite Forall_forall in Hall.
    split; [intros ? []|exact Hall].
  - inversion H as [|? ? Hs Hall]; subst. rewrite Forall_forall in Hall.
    destruct (IH Hs) as [H1 H2]. split; [|exact H2].
    intros y [<-|Hy]; [|now apply H1].
    apply Hall, in_or_app. right. now left.
Qed.

Lemma digits_of_uint_acc (d : Decimal.uint) :
  forall p : positive,
    PyStr.digits_value (Zpos p) (NilEmpty.string_of_uint d)
    = Zpos (Pos.of_uint_acc d p).
Proof.
  induction d; intro p; cbn [NilEmpty.string_of_uint Pos.of_uint_acc PyStr.digits_value];
    [reflexivity|rewrite <- IHd; f_equal..];
    match goal with
    | |- context [PyStr.digit_value ?c] =>
        let v := eval vm_compute in (PyStr.digit_value c) in
        change (PyStr.digit_value c) with v
    end; lia.
Qed.

Lemma digits_of_uint (d : Decimal.uint) :
  PyStr.digits_value 0 (NilEmpty.string_of_uint d) = Z.of_N (Pos.of_uint d).
Proof.
  induction d; cbn [NilEmpty.string_of_uint Pos.of_uint PyStr.digits_value];
    [reflexivity|exact IHd|apply (digits_of_uint_acc d)..].
Qed.

Lemma all_digits_of_uint (d : Decimal.uint) :
  PyStr.all_digits (NilEmpty.string_of_uint d) = true.
Proof. induction d; cbn [NilEmpty.string_of_uint PyStr.all_digits]; auto. Qed.

(** [str(z)] of a natural number is a numeral that [int] reads back. *)
Lemma str_of_Z_digits (z : Z) :
  0 <= z -> isdigit (str_of_Z z) = true /\ PyStr.digits_value 0 (str_of_Z z) = z.
Proof.
  intro Hz. unfold str_of_Z. destruct z as [|p|p]; [split; reflexivity| |lia].
  cbn [Z.to_int NilZero.string_of_int]. unfold NilZero.string_of_uint.
  pose proof (DecimalPos.Unsigned.of_to p) as Hof.
  destruct (Pos.to_uint p) eqn:E; [discriminate Hof|..];
    (split; [apply (all_digits_of_uint (_ u)) || apply all_digits_of_uint
            |rewrite digits_of_uint, Hof; reflexivity]).
Qed.

End TimelineFacts.

(** ** Seeking to boundaries; exporting and importing CSV files *)

Module Timeline.
Import PyList PyListFacts Gui GuiFacts Handlers TimelineFacts Demo.

(** X8. Seeking to the next boundary sends the player to the least
    start or end frame of any segment that lies after the current frame,
    and seeking to the previous boundary to the greatest one before it;
    the player is left alone exactly when there is no such frame. *)
Theorem seek_reaches_nearest_boundary (segs : list Segment) (current : Z) :
  match seek_to_next_boundary segs current with
  | Some f => is_boundary segs f /\ current < f /\
              forall g, is_boundary segs g -> current < g -> f <= g
  | None => forall g, is_boundary segs g -> g <= current
  end /\
  match seek_to_prev_boundary segs current with
  | Some f => is_boundary segs f /\ f < current /\
              forall g, is_boundary segs g -> g < current -> g <= f
  | None => forall g, is_boundary segs g -> current <= g
  end.
Proof.
  pose proof (boundaries_sorted segs) as Hs.
  split.
  - unfold seek_to_next_boundary.
    pose proof (find_split (fun frame => current <? frame) (get_sorted_boundaries segs))
      as Hf.
    destruct (find _ (get_sorted_boundaries segs)) as [f|].
    + destruct Hf as [l1 [l2 [E [Hp Hb]]]]. apply Z.ltb_lt in Hp.
      rewrite E in Hs. apply sorted_app_lt in Hs. destruct Hs as [_ Hafter].
      split; [apply boundaries_in; rewrite E; apply in_or_app; right; now left|].
      split; [exact Hp|].
      intros g Hg Hlt. apply boundaries_in in Hg. rewrite E in Hg.
      apply in_app_or in Hg. destruct Hg as [Hg|[<-|Hg]].
      * apply Hb in Hg. apply Z.ltb_ge in Hg. lia.
      * lia.
      * apply Hafter in Hg. lia.
    + intros g Hg. apply boundaries_in in Hg. apply Hf in Hg.
      now apply Z.ltb_ge in Hg.
  - unfold seek_to_prev_boundary.
    pose proof (find_split (fun frame => frame <? current)
                  (rev (get_sorted_boundaries segs))) as Hf.
    destruct (find _ (rev (get_sorted_boundaries segs))) as [f|].
    + destruct Hf as [l1 [l2 [E [Hp Hb]]]]. apply Z.ltb_lt in Hp.
      apply (f_equal (@rev Z)) in E. rewrite rev_involutive, rev_app_distr in E.
      cbn [rev] in E. rewrite <- app_assoc in E. cbn [app] in E.
      rewrite E in Hs. apply sorted_app_lt in Hs. destruct Hs as [Hbefore _].
      split; [apply boundaries_in; rewrite E; apply in_or_app; right; now left|].
      split; [exact Hp|].
      intros g Hg Hlt. apply boundaries_in in Hg. rewrite E in Hg.
      apply in_app_or in Hg. destruct Hg as [Hg|[<-|Hg]].
      * apply Hbefore in Hg. lia.
      * lia.
      * apply in_rev in Hg. apply Hb in Hg. apply Z.ltb_ge in Hg. lia.
    + intros g Hg. apply boundaries_in in Hg. apply in_rev in Hg. apply Hf in Hg.
      now apply Z.ltb_ge in Hg.
Qed.

(** X9. Exporting the segments to CSV and importing the written rows
    again replaces the store by the same frame ranges in the order of
    their start frames; names and colours do not survive: every imported
    segment gets the default name of its range and the palette colour of
    its row in the file. This holds for a non-empty store whose frames
    are not negative. *)
Theorem csv_export_import_round_trip (c : Color) (cs : list Color) (a : App) :
  segments (sm a) <> [] ->
  (forall seg, In seg (segments (sm a)) -> 0 <= start_frame seg /\ 0 <= end_frame seg) ->
  exists rows a',
    export_rows a = Some rows /\
    handle_import_csv c cs rows a = Ok a' /\
    List.length (segments (sm a')) = List.length (segments (sm a)) /\
    forall k seg,
      nth_error (PyList.sorted segment_by_start (segments (sm a))) k = Some seg ->
      nth_error (segments (sm a')) k
      = Some (new_Segment (start_frame seg) (end_frame seg)
                (palette_color c cs (Z.of_nat k + 1)) "").
Proof.
  intros Hne Hpos.
  set (row := fun seg : Segment =>
                [str_of_Z (start_frame seg); str_of_Z (end_frame seg); name seg]).
  assert (forall s l i, 0 <= start_frame s -> 0 <= end_frame s ->
            import_rows c cs i (row s :: l)
            = (start_frame s, end_frame s, palette_color c cs i, EmptyString)
              :: import_rows c cs (i + 1) l) as Hstep.
  { intros s l i H0 H1. subst row. cbn [import_rows].
    destruct (str_of_Z_digits _ H0) as [D0 V0].
    destruct (str_of_Z_digits _ H1) as [D1 V1].
    now rewrite D0, D1, V0, V1. }
  assert (forall l i,
            (forall seg, In seg l -> 0 <= start_frame seg /\ 0 <= end_frame seg) ->
            List.length (import_rows c cs i (map row l)) = List.length l /\
            forall k seg, nth_error l k = Some seg ->
              nth_error (import_rows c cs i (map row l)) k
              = Some (start_frame seg, end_frame seg,
                      palette_color c cs (i + Z.of_nat k), EmptyString)) as Himp.
  { induction l as [|s l IH]; intros i Hl.
    - split; [reflexivity|]. intros [|k] seg H; discriminate H.
    - cbn [map]. destruct (Hl s (or_introl eq_refl)) as [H0 H1].
      rewrite (Hstep s _ i H0 H1).
      destruct (IH (i + 1) (fun seg H => Hl seg (or_intror H))) as [Hlen Hnth].
      split; [cbn [List.length]; now rewrite Hlen|].
      intros [|k] seg H; cbn [nth_error] in *.
      + injection H as <-. cbn [Z.of_nat]. now rewrite Z.add_0_r.
      + rewrite (Hnth k seg H).
        now replace (i + Z.of_nat (S k)) with (i + 1 + Z.of_nat k) by lia. }
  set (sorted_segs := PyList.sorted segment_by_start (segments (sm a))).
  assert (forall seg, In seg sorted_segs -> 0 <= start_frame seg /\ 0 <= end_frame seg)
    as Hpos'.
  { intros seg H. apply Hpos.
    eapply Permutation_in; [apply sorted_perm|exact H]. }
  destruct (Himp sorted_segs 1 Hpos') as [Hlen Hnth].
  exists (["start_frame"; "end_frame"; "name"] :: map row sorted_segs).
  eexists. split.
  { unfold export_rows, get_all_segments.
    destruct (segments (sm a)) eqn:E; [congruence|reflexivity]. }
  split; [reflexivity|].
  cbn [bind cmd_execute emit_app update_stack_states sm emit segments set_segments].
  change (import_rows c cs 0 (["start_frame"; "end_frame"; "name"] :: map row sorted_segs))
    with (import_rows c cs (0 + 1) (map row sorted_segs)).
  change (0 + 1) with 1.
  split.
  - rewrite length_map, Hlen. apply sorted_length.
  - intros k seg H. rewrite nth_error_map, (Hnth k seg H). cbn [option_map].
    now replace (1 + Z.of_nat k) with (Z.of_nat k + 1) by lia.
Qed.

Lemma csv_export_import_round_trip_witness :
  exists rows a',
    export_rows demo_app = Some rows /\
    handle_import_csv "red" ["blue"] rows demo_app = Ok a' /\
    List.length (segments (sm a')) = List.length (segments (sm demo_app)) /\
    forall k seg,
      nth_error (PyList.sorted segment_by_start (segments (sm demo_app))) k = Some seg ->
      nth_error (segments (sm a')) k
      = Some (new_Segment (start_frame seg) (end_frame seg)
                (palette_color "red" ["blue"] (Z.of_nat k + 1)) "").
Proof.
  apply (csv_export_import_round_trip "red" ["blue"] demo_app).
  - discriminate.
  - intros seg H. cbn in H.
    destruct H as [<-|[<-|[<-|[<-|[]]]]]; cbn; lia.
Defined.

End Timeline.

(** ** More facts about the engine *)

Module EngineLaws.
Import PyList PyListFacts Engine EngineFacts.

(** *** Replacing and substituting *)

Lemma prefix_nil (s : string) : String.prefix "" s = true.
Proof. now destruct s. Qed.

Lemma contains_nil (Q : string) (q : ascii) :
  PyStr.contains (String q Q) "" = false.
Proof. reflexivity. Qed.

Lemma contains_cons (Q : string) (x : ascii) (r : string) :
  PyStr.contains Q (String x r) = String.prefix Q (String x r) || PyStr.contains Q r.
Proof. reflexivity. Qed.

(** A match of [Q] at the head of the replaced text was one in the
    source, when the replacement character does not occur in [Q]. *)
Lemma prefix_replace (old : string) (n : ascii) (Q : string) :
  forall s,
    PyStr.contains_char (Ascii.eqb n) Q = false ->
    String.prefix Q (PyStr.replace_from old (String n "") 0 s) = true ->
    String.prefix Q s = true.
Proof.
  induction Q as [|q Q IH]; intros s Hn H; [apply prefix_nil|].
  cbn [PyStr.contains_char] in Hn. apply orb_false_iff in Hn. destruct Hn as [Hq Hn].
  apply Ascii.eqb_neq in Hq.
  destruct s as [|x r]; [discriminate H|].
  cbn [PyStr.replace_from] in H.
  destruct (String.prefix old (String x r)).
  - cbn [append String.prefix] in H.
    destruct (ascii_dec q n); [congruence|discriminate].
  - cbn [String.prefix] in *.
    destruct (ascii_dec q x); [|discriminate]. now apply IH.
Qed.

Lemma replace_removes (old : string) (n q : ascii) (Q : string) :
  PyStr.contains_char (Ascii.eqb n) (String q Q) = false ->
  forall s, String q Q = old \/ PyStr.contains (String q Q) s = false ->
    forall k, PyStr.contains (String q Q) (PyStr.replace_from old (String n "") k s) = false.
Proof.
  intro Hn. induction s as [|x r IH]; intros Hs k.
  - reflexivity.
  - assert (String q Q = old \/ PyStr.contains (String q Q) r = false) as Hr.
    { destruct Hs as [Hs|Hs]; [now left|right].
      rewrite contains_cons in Hs. now apply orb_false_iff in Hs. }
    destruct k as [|k]; [|cbn [PyStr.replace_from]; now apply IH].
    pose proof (prefix_replace old n (String q Q) (String x r) Hn) as Hp.
    cbn [PyStr.replace_from] in *.
    destruct (String.prefix old (String x r)) eqn:E.
    + cbn [append]. rewrite contains_cons. apply orb_false_iff. split; [|now apply IH].
      cbn [PyStr.contains_char] in Hn. apply orb_false_iff in Hn.
      destruct Hn as [Hq _]. apply Ascii.eqb_neq in Hq.
      cbn [String.prefix]. destruct (ascii_dec q n); [congruence|reflexivity].
    + rewrite contains_cons. apply orb_false_iff. split; [|now apply IH].
      destruct (String.prefix (String q Q) (String x (PyStr.replace_from old (String n "") 0 r)))
        eqn:E2; [|reflexivity].
      specialize (Hp eq_refl). destruct Hs as [Hs|Hs].
      * rewrite Hs in Hp. congruence.
      * rewrite contains_cons in Hs. apply orb_false_iff in Hs. destruct Hs. congruence.
Qed.

Lemma prefix_sub_class (p : ascii -> bool) (c : ascii) (Q : string) :
  forall s,
    PyStr.contains_char p Q = false ->
    PyStr.contains_char (Ascii.eqb c) Q = false ->
    String.prefix Q (PyStr.sub_class p c s) = true -> String.prefix Q s = true.
Proof.
  induction Q as [|q Q IH]; intros s Hp Hc H; [apply prefix_nil|].
  cbn [PyStr.contains_char] in Hp, Hc.
  apply orb_false_iff in Hp. destruct Hp as [Hq Hp].
  apply orb_false_iff in Hc. destruct Hc as [Hqc Hc]. apply Ascii.eqb_neq in Hqc.
  destruct s as [|x r]; [discriminate H|].
  cbn [PyStr.sub_class String.prefix] in *.
  destruct (p x) eqn:Ex.
  - destruct (ascii_dec q c); [congruence|discriminate].
  - destruct (ascii_dec q x); [|discriminate]. now apply IH.
Qed.

Lemma sub_class_keeps_absent (p : ascii -> bool) (c : ascii) (Q : string) :
  PyStr.contains_char p Q = false ->
  PyStr.contains_char (Ascii.eqb c) Q = false ->
  forall s, PyStr.contains Q s = false ->
            PyStr.contains Q (PyStr.sub_class p c s) = false.
Proof.
  intros Hp Hc. induction s as [|x r IH]; intro H.
  - exact H.
  - rewrite contains_cons in H. apply orb_false_iff in H. destruct H as [H1 H2].
    change (PyStr.sub_class p c (String x r))
      with (String (if p x then c else x) (PyStr.sub_class p c r)).
    rewrite contains_cons. apply orb_false_iff. split; [|now apply IH].
    destruct (String.prefix Q (String (if p x then c else x) (PyStr.sub_class p c r)))
      eqn:E; [|reflexivity].
    apply (prefix_sub_class p c Q (String x r) Hp Hc) in E. congruence.
Qed.

Lemma replace_absent (old new : string) :
  forall s, PyStr.contains old s = false -> PyStr.replace old new s = s.
Proof.
  unfold PyStr.replace. induction s as [|x r IH]; intro H; [reflexivity|].
  rewrite contains_cons in H. apply orb_false_iff in H. destruct H as [H1 H2].
  cbn [PyStr.replace_from]. rewrite H1. f_equal. now apply IH.
Qed.

Lemma sub_class_absent (p : ascii -> bool) (c : ascii) :
  forall s, PyStr.contains_char p s = false -> PyStr.sub_class p c s = s.
Proof.
  induction s as [|x r IH]; intro H; [reflexivity|].
  cbn [PyStr.contains_char] in H. apply orb_false_iff in H. destruct H as [H1 H2].
  cbn [PyStr.sub_class]. rewrite H1. f_equal. now apply IH.
Qed.

End EngineLaws.

(** ** File names, once more *)

Module FileNameLaws.
Import PyList PyListFacts Engine EngineFacts EngineLaws.

(** X10. Sanitising is idempotent: a sanitised name holds no fullwidth
    bar, no fullwidth colon and no illegal character, so sanitising it
    again changes nothing. *)
Theorem sanitize_filename_idempotent (name : string) :
  sanitize_filename (sanitize_filename name) = sanitize_filename name.
Proof.
  unfold sanitize_filename.
  set (s1 := PyStr.replace fullwidth_bar "-" name).
  set (s2 := PyStr.replace fullwidth_colon ":" s1).
  set (t := PyStr.sub_class is_illegal "_" s2).
  assert (PyStr.contains fullwidth_bar s1 = false) as B1.
  { apply (replace_removes fullwidth_bar "-"); [reflexivity|now left]. }
  assert (PyStr.contains fullwidth_bar s2 = false) as B2.
  { apply (replace_removes fullwidth_colon ":"); [reflexivity|now right]. }
  assert (PyStr.contains fullwidth_colon s2 = false) as C2.
  { apply (replace_removes fullwidth_colon ":"); [reflexivity|now left]. }
  assert (PyStr.contains fullwidth_bar t = false) as Bt.
  { apply sub_class_keeps_absent; [reflexivity|reflexivity|exact B2]. }
  assert (PyStr.contains fullwidth_colon t = false) as Ct.
  { apply sub_class_keeps_absent; [reflexivity|reflexivity|exact C2]. }
  assert (PyStr.contains_char is_illegal t = false) as It.
  { apply sub_class_clean. reflexivity. }
  rewrite (replace_absent fullwidth_bar "-" t Bt).
  rewrite (replace_absent fullwidth_colon ":" t Ct).
  now apply sub_class_absent.
Qed.

End FileNameLaws.

(** ** Output templates that format *)

Module Templates.
Import PyList PyListFacts Engine EngineFacts TemplateFacts Observations.

(** X11. A template made of text without braces, the escapes for the two
    braces, and placeholders written as a bare name for which a value is
    given, formats to the text with each placeholder replaced by [str] of
    its value and each escape by one brace; no format specification is
    involved, so this holds for every implementation of the rest of
    Python's formatting. *)
Theorem template_expansion
  (format_value : dict -> pyval -> string -> string -> result string)
  (data : dict) (ps : list piece) :
  Forall (piece_ok data) ps ->
  format_output_filename format_value (template_of ps) data = Ok (expansion data ps).
Proof.
  intro H. unfold format_output_filename, str_format.
  now rewrite (scan_pieces format_value data ps H).
Qed.

Lemma template_expansion_witness :
  format_output_filename (fun _ _ _ _ => Raise (ValueError "unsupported"))
    "{filename}_{{{num}}}.part"
    [("filename", PStr "movie"); ("num", PInt 7)]
  = Ok "movie_{7}.part".
Proof.
  apply (template_expansion (fun _ _ _ _ => Raise (ValueError "unsupported"))
           [("filename", PStr "movie"); ("num", PInt 7)]
           [Field "filename"; Text "_"; OpenBrace; Field "num"; CloseBrace;
            Text ".part"]).
  repeat constructor; eexists; reflexivity.
Defined.

(** X12. A positional replacement field, written with empty braces or
    with a number of up to nine digits, after text without braces: the
    formatter raises [IndexError], which [format_output_filename] does
    not turn into the [ValueError] that names the placeholder. *)
Theorem positional_field_raises_index_error
  (format_value : dict -> pyval -> string -> string -> result string)
  (data : dict) (pre number rest : string) :
  PyStr.contains_char is_brace pre = false ->
  PyStr.all_digits number = true ->
  (String.length number <= 9)%nat ->
  exists msg,
    format_output_filename format_value (pre ++ "{" ++ number ++ "}" ++ rest) data
    = Raise (IndexError msg).
Proof.
  intros Hpre Hd _.
  exists "Replacement index out of range for positional args tuple".
  unfold format_output_filename, str_format.
  rewrite scan_app, (scan_literal format_value data pre Hpre). cbn [bind].
  destruct number as [|c number].
  - change ("{" ++ "" ++ "}" ++ rest)%string with (String "{" (String "}" rest)).
    cbn [scan]. cbn [scan_step]. change (Ascii.eqb "{" "{")%char with true. cbv iota.
    cbn [bind scan_step]. change (Ascii.eqb "}" "{")%char with false.
    change (Ascii.eqb "}" "}")%char with true. cbv iota. cbn [bind].
    unfold render_field. cbn [arg_name PyStr.all_digits bind]. reflexivity.
  - rewrite (scan_open_field format_value data c number rest (digits_not_special _ Hd)).
    rewrite (render_positional format_value data _ Hd (digits_not_special _ Hd)).
    reflexivity.
Qed.

Lemma positional_field_raises_index_error_witness :
  exists msg,
    format_output_filename (fun _ _ _ _ => Raise (ValueError "unsupported"))
      ("clip_" ++ "{" ++ "0" ++ "}" ++ "_{num}")
      [("filename", PStr "movie"); ("num", PInt 7)]
    = Raise (IndexError msg).
Proof.
  apply (positional_field_raises_index_error
           (fun _ _ _ _ => Raise (ValueError "unsupported"))
           [("filename", PStr "movie"); ("num", PInt 7)] "clip_" "0" "_{num}").
  - reflexivity.
  - reflexivity.
  - cbn. lia.
Defined.

End Templates.

(** ** Track selection and the progress of a trim *)

Module Trimming.
Import PyList PyListFacts Engine EngineFacts Observations Demo.

Lemma existsb_eqb_In (z : Z) (l : list Z) : existsb (Z.eqb z) l = true <-> In z l.
Proof.
  rewrite existsb_exists. split.
  - intros [x [Hx E]]. apply Z.eqb_eq in E. now subst.
  - intro H. exists z. split; [exact H|apply Z.eqb_refl].
Qed.

(** X13. The mapper reads the selected ids as a set: two selections that
    agree on the ids of the streams of the file (whatever their order,
    repetitions, or ids of no stream) give the same arguments. *)
Theorem selection_is_a_set (streams : list Stream) (sel sel' : list Z)
  (prio : list string) :
  (forall t, In t streams -> (In (id t) sel <-> In (id t) sel')) ->
  generate_ffmpeg_mapping_args streams sel prio
  = generate_ffmpeg_mapping_args streams sel' prio.
Proof.
  intro H.
  assert (forall kind, selected_tracks kind streams sel
                       = selected_tracks kind streams sel') as E.
  { intro kind. unfold selected_tracks. apply filter_ext_in. intros t Ht.
    f_equal. apply eq_true_iff_eq. rewrite !existsb_eqb_In. now apply H. }
  unfold generate_ffmpeg_mapping_args. now rewrite !E.
Qed.

Lemma selection_is_a_set_witness :
  generate_ffmpeg_mapping_args spec_streams [3; 1; 1; 99] ["jpn"; "eng"]
  = generate_ffmpeg_mapping_args spec_streams [1; 3] ["jpn"; "eng"].
Proof.
  apply (selection_is_a_set spec_streams [3; 1; 1; 99] [1; 3] ["jpn"; "eng"]).
  intros t Ht. cbn in Ht. destruct Ht as [<-|[<-|[<-|[]]]]; cbn; intuition lia.
Defined.

Lemma digit_not_separator (c : ascii) :
  PyStr.is_digit c = true ->
  Ascii.eqb c ":"%char = false /\ Ascii.eqb c (PyStr.chr 46) = false.
Proof.
  intro H. split.
  - destruct (Ascii.eqb_spec c ":"%char) as [->|_]; [discriminate H|reflexivity].
  - destruct (Ascii.eqb_spec c (PyStr.chr 46)) as [->|_]; [discriminate H|reflexivity].
Qed.

Lemma match_shape_cons (p : ascii -> bool) (ps : list (ascii -> bool)) (s g : string) :
  match_shape (p :: ps) s = Some g ->
  exists c g' s', g = String c g' /\ p c = true /\ match_shape ps s' = Some g'.
Proof.
  cbn [match_shape]. destruct s as [|c s]; [discriminate|].
  destruct (p c) eqn:E; [|discriminate].
  destruct (match_shape ps s) as [g'|] eqn:E'; [|discriminate].
  cbn [option_map]. intro H. injection H as <-. now exists c, g', s.
Qed.

Lemma digit_value_range (c : ascii) :
  PyStr.is_digit c = true -> 0 <= PyStr.digit_value c <= 9.
Proof.
  unfold PyStr.is_digit, PyStr.digit_value. intro H.
  apply andb_true_iff in H. destruct H as [H1 H2].
  apply Nat.leb_le in H1, H2. lia.
Qed.

(** A string of the shape of the group is read by [hhmmss_to_seconds], as
    a time below 362440 seconds. *)
Lemma shape_parses (s g : string) :
  match_shape time_shape s = Some g ->
  exists t, hhmmss_to_seconds g = Ok t /\ (t <= 362440 # 1)%Q.
Proof.
  unfold time_shape. intro H.
  repeat match type of H with
         | match_shape (_ :: _) _ = Some _ =>
             let c := fresh "c" in
             let E := fresh "E" in
             apply match_shape_cons in H;
             destruct H as [c [? [? [-> [E H]]]]]
         end.
  cbn [match_shape] in H. injection H as <-.
  repeat match goal with
         | E : PyStr.is_digit ?c = true |- _ =>
             destruct (digit_not_separator c E); revert E
         | E : Ascii.eqb _ ?c = true |- _ => apply Ascii.eqb_eq in E; subst c
         end.
  intros.
  unfold hhmmss_to_seconds, PyStr.split.
  repeat (cbn [PyStr.split_on PyStr.snoc append];
          repeat match goal with
                 | E : Ascii.eqb ?c ":"%char = false |- context [Ascii.eqb ?c ":"%char] =>
                     rewrite E
                 end;
          change (Ascii.eqb ":" ":")%char with true;
          change (Ascii.eqb "." ":")%char with false; cbv iota).
  match goal with
  | |- context [getitem (?a :: ?b :: ?c :: nil) 0] =>
      change (getitem [a; b; c] 0) with (Ok a);
      change (getitem [a; b; c] 1) with (Ok b);
      change (getitem [a; b; c] 2) with (Ok c)
  end.
  cbn [bind].
  unfold PyStr.int_of, PyStr.float_of, PyStr.split.
  repeat (cbn [PyStr.split_on PyStr.snoc append PyStr.all_digits];
          repeat match goal with
                 | E : Ascii.eqb ?c (PyStr.chr 46) = false
                   |- context [Ascii.eqb ?c (PyStr.chr 46)] => rewrite E
                 | E : PyStr.is_digit ?c = true |- context [PyStr.is_digit ?c] =>
                     rewrite E
                 end;
          change (Ascii.eqb "." (PyStr.chr 46))%char with true; cbv iota).
  cbn [andb bind]. eexists. split; [reflexivity|].
  repeat match goal with
         | E : PyStr.is_digit ?c = true |- _ => apply digit_value_range in E
         end.
  cbn [PyStr.digits_value String.length].
  change (10 ^ Pos.of_nat 2)%positive with 100%positive.
  unfold Qle, Qplus, inject_Z. cbn [Qnum Qden]. lia.
Qed.

Lemma search_time_shape (line g : string) :
  search_time line = Some g -> exists s, match_shape time_shape s = Some g.
Proof.
  induction line as [|c line IH]; cbn [search_time]; unfold match_time_here.
  - destruct (String.prefix "time=" ""); [|discriminate].
    destruct (match_shape time_shape _) as [g'|] eqn:E; [|discriminate].
    intro H. injection H as <-. eexists. exact E.
  - destruct (String.prefix "time=" (String c line)).
    + destruct (match_shape time_shape _) as [g'|] eqn:E.
      * intro H. injection H as <-. eexists. exact E.
      * exact IH.
    + exact IH.
Qed.

Lemma matched_bounded (line g : string) :
  search_time line = Some g ->
  exists t, hhmmss_to_seconds g = Ok t /\ (0 <= t)%Q /\ (t <= 362440 # 1)%Q.
Proof.
  intro H. apply search_time_shape in H. destruct H as [s H].
  apply shape_parses in H. destruct H as [t [Ht Hle]].
  exists t. split; [exact Ht|]. split; [now apply (hhmmss_nonneg g)|exact Hle].
Qed.

Lemma matched_parses (line g : string) :
  search_time line = Some g -> exists t, hhmmss_to_seconds g = Ok t.
Proof.
  intro H. destruct (matched_bounded line g H) as [t [Ht _]]. now exists t.
Qed.

Lemma zero_duration_raises (line g : string) (duration : Q) :
  search_time line = Some g -> (duration == 0)%Q ->
  percentage_of duration g = Raise (ZeroDivisionError "float division by zero").
Proof.
  intros H Hd. destruct (matched_parses line g H) as [t Ht].
  unfold percentage_of. rewrite Ht. cbn [bind].
  apply Qeq_bool_iff in Hd. now rewrite Hd.
Qed.

(** A quotient of at most 362440 by at least 10^-300 is far below the
    floats that overflow, also multiplied by 100. *)
Lemma quotient_in_range (n d : Q) :
  (- (362440 # 1) <= n)%Q -> (n <= 362440 # 1)%Q -> (1 # 10 ^ 300 <= d)%Q ->
  (- inject_Z (36244000 * 10 ^ 300) <= n / d * 100)%Q /\
  (n / d * 100 <= inject_Z (36244000 * 10 ^ 300))%Q.
Proof.
  intros Hlo Hhi Hd.
  assert (0 < d)%Q as Hpos by (eapply Qlt_le_trans; [|exact Hd]; reflexivity).
  set (B := inject_Z (362440 * 10 ^ 300)).
  assert (B * (1 # 10 ^ 300) <= B * d)%Q as Hscale.
  { apply Qmult_le_l; [reflexivity|exact Hd]. }
  assert (B * (1 # 10 ^ 300) == 362440 # 1)%Q as HB by (vm_compute; reflexivity).
  assert (- B <= n / d)%Q as H1.
  { apply Qle_shift_div_l; [exact Hpos|].
    setoid_replace (- B * d)%Q with (- (B * d))%Q by ring.
    eapply Qle_trans; [|exact Hlo]. rewrite <- HB. now apply Qopp_le_compat. }
  assert (n / d <= B)%Q as H2.
  { apply Qle_shift_div_r; [exact Hpos|].
    eapply Qle_trans; [exact Hhi|]. now rewrite <- HB. }
  split.
  - setoid_replace (- inject_Z (36244000 * 10 ^ 300))%Q with (- B * 100)%Q
      by (vm_compute; reflexivity).
    apply Qmult_le_compat_r; [exact H1|discriminate].
  - setoid_replace (inject_Z (36244000 * 10 ^ 300))%Q with (B * 100)%Q
      by (vm_compute; reflexivity).
    apply Qmult_le_compat_r; [exact H2|discriminate].
Qed.

Lemma measurable_in_range (t duration : Q) :
  (0 <= t)%Q -> (t <= 362440 # 1)%Q -> measurable duration ->
  Qle_bool float_overflow (t / duration * 100)
  || Qle_bool (t / duration * 100) (- float_overflow) = false.
Proof.
  intros H0 Hle Hd.
  assert ((- inject_Z (36244000 * 10 ^ 300) <= t / duration * 100)%Q /\
          (t / duration * 100 <= inject_Z (36244000 * 10 ^ 300))%Q) as [Hlo Hhi].
  { destruct Hd as [Hd|Hd].
    - assert (~ duration == 0)%Q as Hnz
        by (intro E; rewrite E in Hd; exact (Hd eq_refl)).
      setoid_replace (t / duration)%Q with (- t / - duration)%Q by (field; exact Hnz).
      apply quotient_in_range.
      + apply Qopp_le_compat in Hle. exact Hle.
      + eapply Qle_trans; [|apply (Qle_trans _ 0); [|discriminate]];
          [|apply Qle_refl].
        apply Qopp_le_compat in H0. exact H0.
      + apply Qopp_le_compat in Hd.
        setoid_replace (1 # 10 ^ 300)%Q with (- - (1 # 10 ^ 300))%Q
          by (symmetry; apply Qopp_involutive).
        exact Hd.
    - apply quotient_in_range; [|exact Hle|exact Hd].
      eapply Qle_trans; [|exact H0]. discriminate. }
  apply orb_false_iff. split.
  - destruct (Qle_bool float_overflow _) eqn:E; [|reflexivity]. exfalso.
    apply Qle_bool_iff in E.
    apply (Qlt_not_le (inject_Z (36244000 * 10 ^ 300)) float_overflow);
      [reflexivity|]. eapply Qle_trans; eassumption.
  - destruct (Qle_bool _ (- float_overflow)) eqn:E; [|reflexivity]. exfalso.
    apply Qle_bool_iff in E.
    apply (Qlt_not_le (- float_overflow) (- inject_Z (36244000 * 10 ^ 300)));
      [reflexivity|]. eapply Qle_trans; eassumption.
Qed.

Lemma measurable_percentage (line g : string) (duration : Q) :
  search_time line = Some g -> measurable duration ->
  exists p, percentage_of duration g = Ok p /\ p <= 100.
Proof.
  intros H Hd. destruct (matched_bounded line g H) as [t [Ht [H0 Hle]]].
  unfold percentage_of. rewrite Ht. cbn [bind].
  destruct (Qeq_bool duration 0) eqn:E;
    [apply Qeq_bool_iff in E; now apply measurable_nonzero in Hd|].
  cbv zeta. rewrite (measurable_in_range t duration H0 Hle Hd).
  eexists. split; [reflexivity|]. apply Z.le_min_l.
Qed.

(** X14. Whatever the tool writes in ASCII, the text that the pattern of
    the progress line captures is always read as a time: the conversion
    to seconds never raises on it and gives a value that is not negative
    and below 362440.  For a duration of 10^-300 seconds at least, in
    absolute value, a percentage is computed from it, at most 100; for a
    duration of zero the division raises [ZeroDivisionError]. *)
Theorem matched_time_always_parses (line g : string) (duration : Q) :
  PyStr.is_ascii line = true ->
  search_time line = Some g ->
  (exists t, hhmmss_to_seconds g = Ok t /\ (0 <= t)%Q /\ (t <= 362440 # 1)%Q) /\
  (measurable duration ->
   exists p, percentage_of duration g = Ok p /\ p <= 100) /\
  ((duration == 0)%Q ->
   percentage_of duration g = Raise (ZeroDivisionError "float division by zero")).
Proof.
  intros _ H.
  split; [exact (matched_bounded line g H)|].
  split; intro Hd.
  - now apply (measurable_percentage line).
  - now apply (zero_duration_raises line).
Qed.

Lemma matched_time_always_parses_witness :
  (exists t, hhmmss_to_seconds "00:01:02.50" = Ok t /\ (0 <= t)%Q /\ (t <= 362440 # 1)%Q) /\
  (exists p, percentage_of (10 # 1) "00:01:02.50" = Ok p /\ p <= 100) /\
  percentage_of (0 # 1) "00:01:02.50"
  = Raise (ZeroDivisionError "float division by zero").
Proof.
  split; [|split].
  - apply (matched_time_always_parses "frame=  12 time=00:01:02.50 bitrate=1"
             "00:01:02.50" (10 # 1)); reflexivity.
  - apply (matched_time_always_parses "frame=  12 time=00:01:02.50 bitrate=1"
             "00:01:02.50" (10 # 1)); [reflexivity|reflexivity|].
    right. intro H. discriminate H.
  - apply (matched_time_always_parses "frame=  12 time=00:01:02.50 bitrate=1"
             "00:01:02.50" (0 # 1)); reflexivity.
Defined.

Lemma read_stderr_zero_length (w : World) (i : nat) (duration : Q) (vmode : string)
  (line g : string) (quiet rest : list string) :
  cancel_at w = None ->
  String.eqb vmode "copy" = false ->
  (duration == 0)%Q ->
  Forall (fun l => search_time l = None) quiet ->
  search_time line = Some g ->
  forall j,
    read_stderr w true i j duration vmode (quiet ++ line :: rest)
    = (Raise (ZeroDivisionError "float division by zero"), []).
Proof.
  intros Hc Hm Hd Hq Hg.
  assert (forall p, is_cancelled w p = false) as Hnc
    by (intro p; unfold is_cancelled; now rewrite Hc).
  induction Hq as [|l quiet Hl _ IH]; intro j; cbn [app read_stderr];
    rewrite Hnc; cbn [andb].
  - rewrite Hg, Hm. cbn [negb andb].
    rewrite (zero_duration_raises line g duration Hg Hd). reflexivity.
  - rewrite Hl. cbn [mbind ret]. rewrite IH. reflexivity.
Qed.

(** X15. Re-encoding a range of length zero for a worker fails as soon as
    the tool reports a time: the process has been started, no percentage
    is emitted, and the call ends in [ZeroDivisionError]. *)
Theorem zero_length_reencode_raises (w : World) (call : TrimCall)
  (line g : string) (quiet rest : list string) :
  String.eqb (trim_mode call) "smart-cut" = false ->
  String.eqb (trim_mode call) "copy" = false ->
  (end_sec call == start_sec call)%Q ->
  cancel_at w = None ->
  tool_missing (trim_run w (clip call)) = false ->
  stderr_lines (trim_run w (clip call)) = quiet ++ line :: rest ->
  Forall (fun l => search_time l = None) quiet ->
  search_time line = Some g ->
  trim_video_segment w true call
  = (Raise (ZeroDivisionError "float division by zero"), [ProcTrim call]).
Proof.
  intros Hs Hm Hz Hc Ht Hl Hq Hg.
  unfold trim_video_segment. rewrite Hs, Ht, Hl.
  rewrite (read_stderr_zero_length w (clip call) _ (trim_mode call) line g quiet rest
             Hc Hm); try assumption.
  - reflexivity.
  - rewrite Hz. ring.
Qed.

Lemma zero_length_reencode_raises_witness :
  trim_video_segment
    (demo_world ["ffmpeg version 7"; "frame= 1 time=00:00:00.04 speed=1x"] None) true
    (mkTrimCall 0 "/out/clip.mp4" (4 # 1) (4 # 1) "re-encode" None [])
  = (Raise (ZeroDivisionError "float division by zero"),
     [ProcTrim (mkTrimCall 0 "/out/clip.mp4" (4 # 1) (4 # 1) "re-encode" None [])]).
Proof.
  apply (zero_length_reencode_raises
           (demo_world ["ffmpeg version 7"; "frame= 1 time=00:00:00.04 speed=1x"] None)
           (mkTrimCall 0 "/out/clip.mp4" (4 # 1) (4 # 1) "re-encode" None [])
           "frame= 1 time=00:00:00.04 speed=1x" "00:00:00.04" ["ffmpeg version 7"] []);
    try reflexivity.
  repeat constructor.
Defined.



End Trimming.

(** ** Facts about the export job *)

Module JobLaws.
Import PyList PyListFacts Engine EngineFacts Observations.

(** *** Events a job never logs *)

Section Quiet.

Variable format_value : dict -> pyval -> string -> string -> result string.
Variables (w : World) (s : Settings) (worker : bool).
Variable P : Event -> bool.
Hypothesis P_probe : P ProcProbe = false.
Hypothesis P_crop : P ProcCropDetect = false.
Hypothesis P_trim : forall call, P (ProcTrim call) = false.
Hypothesis P_merge : forall clips out, P (ProcMerge clips out) = false.
Hypothesis P_step : worker = true -> forall t, P (step_changed t) = false.
Hypothesis P_progress : worker = true -> forall p, P (progress_updated p) = false.
Hypothesis P_clip : worker = true -> forall a b, P (clip_started a b) = false.

Lemma emit_quiet (e : Event) :
  (worker = true -> P e = false) -> existsb P (snd (emit_if worker e)) = false.
Proof using Type.
  clear P_step P_progress P_clip.
  intro H. unfold emit_if. destruct worker; [|reflexivity].
  cbn. now rewrite H.
Qed.

Lemma read_stderr_no (k : nat) (duration : Q) (vmode : string) (lines : list string) :
  forall j, existsb P (snd (read_stderr w worker k j duration vmode lines)) = false.
Proof using P_progress.
  induction lines as [|line r IH]; intros j; [reflexivity|].
  cbn [read_stderr].
  destruct (worker && is_cancelled w (DuringClip k j)); [reflexivity|].
  apply quiet_bind; [|intros _ _; apply IH].
  destruct (search_time line); [|reflexivity].
  destruct (worker && negb (String.eqb vmode "copy")) eqn:E; [|reflexivity].
  apply andb_true_iff in E. destruct E as [Hw _].
  apply quiet_bind; [reflexivity|]. intros p _. cbn. now rewrite (P_progress Hw).
Qed.

Lemma trim_no (call : TrimCall) :
  existsb P (snd (trim_video_segment w worker call)) = false.
Proof using P_progress P_trim.
  unfold trim_video_segment.
  destruct (String.eqb (trim_mode call) "smart-cut");
    destruct (tool_missing (trim_run w (clip call))); try reflexivity.
  - apply quiet_bind; [cbn; now rewrite P_trim|]. intros _ _.
    destruct (returncode (trim_run w (clip call)) =? 0); [|reflexivity].
    apply emit_quiet. intro Hw. now apply P_progress.
  - apply quiet_bind; [cbn; now rewrite P_trim|]. intros _ _.
    apply quiet_bind; [apply read_stderr_no|]. intros [|] _; [reflexivity|].
    destruct (returncode (trim_run w (clip call)) =? 0); reflexivity.
Qed.

Lemma merge_videos_no (clips : list string) (out : string) :
  existsb P (snd (merge_videos w clips out)) = false.
Proof using P_merge.
  unfold merge_videos. destruct (tool_missing (merge_run w)); [reflexivity|].
  apply quiet_bind; [cbn; now rewrite P_merge|]. intros _ _.
  destruct (returncode (merge_run w) =? 0); reflexivity.
Qed.

Lemma merge_loop_no (crop : option string) (mapping : list string)
  (ext : string) (total : Z) (segs : list (Q * Q)) :
  forall k paths,
    existsb P (snd (merge_loop w worker s crop mapping ext total k segs paths)) = false.
Proof using P_progress P_trim P_step P_clip.
  induction segs as [|[start end_] r IH]; intros k paths; [reflexivity|].
  cbn [merge_loop].
  destruct (worker && is_cancelled w (BeforeClip k)); [reflexivity|].
  apply quiet_bind; [apply emit_quiet; intro; now apply P_clip|]. intros _ _.
  apply quiet_bind; [apply emit_quiet; intro; now apply P_step|]. intros _ _.
  apply quiet_bind; [apply trim_no|]. intros _ _. apply IH.
Qed.

Lemma clips_loop_no (crop : option string) (mapping : list string)
  (ext : string) (base : dict) (total : Z) (segs : list (Q * Q)) :
  forall k,
    existsb P (snd (clips_loop format_value w worker s crop mapping ext base total
                      k segs)) = false.
Proof using P_progress P_trim P_step P_clip.
  induction segs as [|[start end_] r IH]; intros k; [reflexivity|].
  cbn [clips_loop].
  destruct (worker && is_cancelled w (BeforeClip k)); [reflexivity|].
  apply quiet_bind; [reflexivity|]. intros raw _.
  apply quiet_bind; [reflexivity|]. intros output_name _.
  apply quiet_bind; [apply emit_quiet; intro; now apply P_clip|]. intros _ _.
  apply quiet_bind; [apply emit_quiet; intro; now apply P_step|]. intros _ _.
  apply quiet_bind; [apply trim_no|]. intros _ _. apply IH.
Qed.

Lemma metadata_no : existsb P (snd (get_video_metadata w)) = false.
Proof using P_probe.
  destruct (metadata_trace w) as [-> | ->]; cbn; [reflexivity|].
  now rewrite P_probe.
Qed.

Lemma crop_no : existsb P (snd (detect_black_bars w worker)) = false.
Proof using P_crop P_step.
  unfold detect_black_bars.
  apply quiet_bind; [apply emit_quiet; intro; now apply P_step|]. intros _ _.
  destruct (cropdetect w); [reflexivity| |].
  - apply quiet_bind; [cbn; now rewrite P_crop|]. intros _ _.
    apply quiet_bind; [apply emit_quiet; intro; now apply P_step|]. intros _ _.
    reflexivity.
  - apply quiet_bind; [cbn; now rewrite P_crop|]. intros _ _. reflexivity.
Qed.

Lemma job_no : existsb P (snd (run_powertrim_job format_value w s worker)) = false.
Proof using P_probe P_crop P_trim P_merge P_step P_progress P_clip.
  unfold run_powertrim_job.
  destruct (segments_raw s) as [|raw0 raws]; [reflexivity|].
  apply quiet_bind; [apply metadata_no|]. intros meta _.
  destruct (String.eqb (mode s) "frames" && Qeq_bool (fps meta) 0); [reflexivity|].
  apply quiet_bind.
  { destruct (autocrop s); [apply crop_no|reflexivity]. }
  intros crop _. destruct (merge s).
  - apply quiet_bind; [apply merge_loop_no|]. intros res _.
    destruct (fst res); [reflexivity|].
    destruct (worker && is_cancelled w AfterClips); [reflexivity|].
    apply quiet_bind; [apply emit_quiet; intro; now apply P_step|]. intros _ _.
    apply quiet_bind; [apply merge_videos_no|]. intros _ _. reflexivity.
  - apply quiet_bind; [apply clips_loop_no|]. intros res _.
    destruct res; reflexivity.
Qed.

End Quiet.

(** *** A job without a worker never reads the flag *)

Lemma read_stderr_unwatched (c : option Point) (w : World) (k : nat) (duration : Q)
  (vmode : string) (lines : list string) :
  forall j,
    read_stderr (set_cancel c w) false k j duration vmode lines
    = read_stderr w false k j duration vmode lines.
Proof.
  induction lines as [|line r IH]; intro j; [reflexivity|].
  cbn [read_stderr andb]. now rewrite IH.
Qed.

Lemma trim_unwatched (c : option Point) (w : World) (call : TrimCall) :
  trim_video_segment (set_cancel c w) false call = trim_video_segment w false call.
Proof.
  unfold trim_video_segment. cbn [set_cancel trim_run].
  now rewrite read_stderr_unwatched.
Qed.

Lemma merge_loop_unwatched (c : option Point) (w : World) (s : Settings)
  (crop : option string) (mapping : list string) (ext : string) (total : Z)
  (segs : list (Q * Q)) :
  forall k paths,
    merge_loop (set_cancel c w) false s crop mapping ext total k segs paths
    = merge_loop w false s crop mapping ext total k segs paths.
Proof.
  induction segs as [|[start end_] r IH]; intros k paths; [reflexivity|].
  cbn [merge_loop andb]. rewrite trim_unwatched. cbn [set_cancel temp_dir].
  now rewrite IH.
Qed.

Lemma clips_loop_unwatched
  (format_value : dict -> pyval -> string -> string -> result string)
  (c : option Point) (w : World) (s : Settings)
  (crop : option string) (mapping : list string) (ext : string) (base : dict)
  (total : Z) (segs : list (Q * Q)) :
  forall k,
    clips_loop format_value (set_cancel c w) false s crop mapping ext base total k segs
    = clips_loop format_value w false s crop mapping ext base total k segs.
Proof.
  induction segs as [|[start end_] r IH]; intro k; [reflexivity|].
  cbn [clips_loop andb].
  destruct (lift (getitem (segments_raw s) (Z.of_nat k))) as [[raw|e] t];
    cbn [mbind]; [|reflexivity].
  destruct (lift (format_output_filename format_value (output_template s) _))
    as [[name|e] t']; cbn [mbind]; [|reflexivity].
  rewrite trim_unwatched, IH. reflexivity.
Qed.

Lemma job_unwatched
  (format_value : dict -> pyval -> string -> string -> result string)
  (c : option Point) (w : World) (s : Settings) :
  run_powertrim_job format_value (set_cancel c w) s false
  = run_powertrim_job format_value w s false.
Proof.
  unfold run_powertrim_job.
  destruct (segments_raw s) as [|raw0 raws]; [reflexivity|].
  change (get_video_metadata (set_cancel c w)) with (get_video_metadata w).
  change (detect_black_bars (set_cancel c w) false) with (detect_black_bars w false).
  destruct (get_video_metadata w) as [[meta|e] t]; cbn [mbind]; [|reflexivity].
  destruct (String.eqb (mode s) "frames" && Qeq_bool (fps meta) 0); [reflexivity|].
  destruct (if autocrop s then detect_black_bars w false else ret None)
    as [[crop|e] t']; cbn [mbind]; [|reflexivity].
  cbn [andb set_cancel now_date now_time resolve].
  destruct (merge s).
  - rewrite merge_loop_unwatched.
    change (merge_videos (set_cancel c w)) with (merge_videos w). reflexivity.
  - rewrite clips_loop_unwatched. reflexivity.
Qed.

(** *** The order in which a job starts its tools *)

Lemma in_mbind {A B : Type} (m : M A) (k : A -> M B) (e : Event) :
  In e (snd (mbind m k)) ->
  In e (snd m) \/ exists a, fst m = Ok a /\ In e (snd (k a)).
Proof.
  rewrite snd_mbind. destruct (fst m) as [a|x]; [|now left].
  intro H. apply in_app_or in H. destruct H as [H|H]; [now left|right].
  now exists a.
Qed.

Lemma in_emit_if (worker : bool) (ev e : Event) :
  In e (snd (emit_if worker ev)) -> e = ev.
Proof.
  unfold emit_if. destruct worker; cbn; [intros [H|[]]; now symmetry|intros []].
Qed.

Lemma not_in_quiet (P : Event -> bool) (tr : Trace) (e : Event) :
  existsb P tr = false -> In e tr -> P e = false.
Proof.
  intros Hq He. destruct (P e) eqn:E; [|reflexivity].
  assert (existsb P tr = true) by (apply existsb_exists; now exists e).
  congruence.
Qed.

Lemma cancelled_later (w : World) (p q : Point) :
  is_cancelled w p = true -> point_leb p q = true -> is_cancelled w q = true.
Proof.
  unfold is_cancelled. destruct (cancel_at w) as [c|]; [|discriminate].
  intros H1 H2. eapply point_leb_trans; eassumption.
Qed.

Lemma during_before_next (k j : nat) :
  point_leb (DuringClip k j) (BeforeClip (S k)) = true.
Proof.
  unfold point_leb, point_rank. cbn [Nat.ltb Nat.eqb Nat.leb orb andb].
  now rewrite Nat.leb_refl.
Qed.

Lemma during_before_end (k j : nat) : point_leb (DuringClip k j) AfterClips = true.
Proof. reflexivity. Qed.

Lemma read_stderr_terminated (w : World) (worker : bool) (k : nat) (duration : Q)
  (vmode : string) (lines : list string) :
  forall j,
    fst (read_stderr w worker k j duration vmode lines) = Ok true ->
    worker = true /\ exists j', is_cancelled w (DuringClip k j') = true.
Proof.
  induction lines as [|line r IH]; intro j; cbn [read_stderr]; [discriminate|].
  destruct (worker && is_cancelled w (DuringClip k j)) eqn:E.
  - intros _. apply andb_true_iff in E. destruct E as [-> E]. split; [reflexivity|].
    now exists j.
  - intro H. apply ok_bind in H. destruct H as [_ [_ H]]. now apply IH in H.
Qed.

(** A trim that returns: its tool succeeded, or it was terminated. *)
Lemma trim_returns (w : World) (worker : bool) (call : TrimCall) :
  fst (trim_video_segment w worker call) = Ok tt ->
  tool_succeeded (trim_run w (clip call)) \/
  (worker = true /\ exists j, is_cancelled w (DuringClip (clip call) j) = true).
Proof.
  unfold trim_video_segment, tool_succeeded.
  destruct (String.eqb (trim_mode call) "smart-cut");
    destruct (tool_missing (trim_run w (clip call))); try discriminate.
  - intro H. apply ok_bind in H. destruct H as [_ [_ H]].
    destruct (returncode (trim_run w (clip call)) =? 0) eqn:E; [|discriminate H].
    left. split; [reflexivity|now apply Z.eqb_eq].
  - intro H. apply ok_bind in H. destruct H as [_ [_ H]].
    apply ok_bind in H. destruct H as [term [Hterm H]].
    destruct term.
    + right. eapply read_stderr_terminated. exact Hterm.
    + destruct (returncode (trim_run w (clip call)) =? 0) eqn:E; [|discriminate H].
      left. split; [reflexivity|now apply Z.eqb_eq].
Qed.

(** The only process a trim starts is its own. *)
Lemma trim_process (w : World) (worker : bool) (call : TrimCall) (e : Event) :
  In e (snd (trim_video_segment w worker call)) ->
  is_trim_or_merge e = true -> e = ProcTrim call.
Proof.
  unfold trim_video_segment.
  destruct (String.eqb (trim_mode call) "smart-cut");
    destruct (tool_missing (trim_run w (clip call))); try (intros []).
  - intro H. apply in_mbind in H. destruct H as [[H|[]]|[_ [_ H]]]; [now symmetry|].
    destruct (returncode (trim_run w (clip call)) =? 0); [|destruct H].
    apply in_emit_if in H. subst e. discriminate.
  - intro H. apply in_mbind in H. destruct H as [[H|[]]|[_ [_ H]]]; [now symmetry|].
    apply in_mbind in H. destruct H as [H|[term [_ H]]].
    + intro He.
      pose proof (read_stderr_no w worker is_trim_or_merge (fun _ _ => eq_refl)
                    (clip call) (end_sec call - start_sec call) (trim_mode call)
                    (stderr_lines (trim_run w (clip call))) 0%nat) as Hq.
      rewrite (not_in_quiet _ _ _ Hq H) in He. discriminate He.
    + destruct term; [destruct H|].
      destruct (returncode (trim_run w (clip call)) =? 0); destruct H.
Qed.

Section Order.

Variable format_value : dict -> pyval -> string -> string -> result string.
Variables (w : World) (s : Settings) (worker : bool).
Variables (crop : option string) (mapping : list string) (ext : string) (total : Z).

Let temp (j : nat) : string :=
  path_join (temp_dir w) ("temp_" ++ pad3 (S j) ++ ext)%string.

Lemma merge_loop_stopped (segs : list (Q * Q)) (k : nat) (paths : list string) :
  worker = true -> is_cancelled w (BeforeClip k) = true ->
  snd (merge_loop w worker s crop mapping ext total k segs paths) = [].
Proof using Type.
  intros -> H. destruct segs as [|[a b] r]; [reflexivity|].
  cbn [merge_loop andb]. now rewrite H.
Qed.

Lemma clips_loop_stopped (base : dict) (segs : list (Q * Q)) (k : nat) :
  worker = true -> is_cancelled w (BeforeClip k) = true ->
  snd (clips_loop format_value w worker s crop mapping ext base total k segs) = [].
Proof using Type.
  intros -> H. destruct segs as [|[a b] r]; [reflexivity|].
  cbn [clips_loop andb]. now rewrite H.
Qed.

Lemma merge_loop_order (segs : list (Q * Q)) :
  forall k paths,
    let r := merge_loop w worker s crop mapping ext total k segs paths in
    (forall c, In (ProcTrim c) (snd r) ->
       (k <= clip c < k + List.length segs)%nat /\
       trim_mode c = video_mode s /\
       output_video c = temp (clip c) /\
       forall j, (k <= j < clip c)%nat -> tool_succeeded (trim_run w j)) /\
    (forall clips out, ~ In (ProcMerge clips out) (snd r)) /\
    (forall paths', fst r = Ok (None, paths') ->
       paths' = paths ++ map temp (seq k (List.length segs)) /\
       forall j, (k <= j < k + List.length segs)%nat ->
         tool_succeeded (trim_run w j) \/
         (worker = true /\ is_cancelled w AfterClips = true)).
Proof using Type.
  induction segs as [|[start end_] rest IH]; intros k paths r; subst r.
  - cbn [merge_loop ret fst snd List.length seq map].
    split; [intros c []|]. split; [intros clips out []|].
    intros paths' H. injection H as <-. rewrite app_nil_r. split; [reflexivity|].
    intros j Hj. lia.
  - cbn [merge_loop].
    destruct (worker && is_cancelled w (BeforeClip k)) eqn:Ec.
    { cbn [ret fst snd]. split; [intros c []|]. split; [intros clips out []|].
      intros paths' H. discriminate H. }
    set (call := mkTrimCall k (path_join (temp_dir w) ("temp_" ++ pad3 (S k) ++ ext))
                   start end_ (video_mode s) crop mapping).
    specialize (IH (S k) (paths ++ [temp k])).
    cbn zeta in IH. destruct IH as [IHa [IHb IHc]].
    fold (temp k).
    assert (forall e,
              In e (snd (merge_loop w worker s crop mapping ext total (S k) rest
                           (paths ++ [temp k]))) ->
              fst (trim_video_segment w worker call) = Ok tt ->
              tool_succeeded (trim_run w k)) as Hk.
    { intros e He Hok. apply trim_returns in Hok.
      destruct Hok as [Hok|[Hw [j Hj]]]; [exact Hok|].
      rewrite (merge_loop_stopped rest (S k) _ Hw) in He; [destruct He|].
      eapply cancelled_later; [exact Hj|apply during_before_next]. }
    split; [|split].
    + intros c H.
      apply in_mbind in H. destruct H as [H|[_ [_ H]]];
        [apply in_emit_if in H; discriminate H|].
      apply in_mbind in H. destruct H as [H|[_ [_ H]]];
        [apply in_emit_if in H; discriminate H|].
      apply in_mbind in H. destruct H as [H|[[] [Hok H]]].
      * apply trim_process in H; [|reflexivity]. injection H as ->.
        cbn [clip trim_mode output_video call List.length].
        split; [lia|]. split; [reflexivity|]. split; [reflexivity|].
        intros j Hj. lia.
      * destruct (IHa c H) as [Hr [Hm [Ho Hs]]]. cbn [List.length].
        split; [lia|]. split; [exact Hm|]. split; [exact Ho|].
        intros j Hj. destruct (Nat.eq_dec j k) as [->|Hne].
        -- eapply Hk; eassumption.
        -- apply Hs. lia.
    + intros clips out H.
      apply in_mbind in H. destruct H as [H|[_ [_ H]]];
        [apply in_emit_if in H; discriminate H|].
      apply in_mbind in H. destruct H as [H|[_ [_ H]]];
        [apply in_emit_if in H; discriminate H|].
      apply in_mbind in H. destruct H as [H|[[] [Hok H]]].
      * apply trim_process in H; [discriminate H|reflexivity].
      * exact (IHb clips out H).
    + intros paths' H.
      apply ok_bind in H. destruct H as [_ [_ H]].
      apply ok_bind in H. destruct H as [_ [_ H]].
      apply ok_bind in H. destruct H as [[] [Hok H]].
      destruct (IHc paths' H) as [Hp Hs]. cbn [List.length seq map].
      split; [rewrite Hp, <- app_assoc; reflexivity|].
      intros j Hj. destruct (Nat.eq_dec j k) as [->|Hne]; [|apply Hs; lia].
      apply trim_returns in Hok. destruct Hok as [Hok|[Hw [j' Hj']]]; [now left|right].
      split; [exact Hw|].
      eapply cancelled_later; [exact Hj'|apply during_before_end].
Qed.

Lemma clips_loop_order (base : dict) (segs : list (Q * Q)) :
  forall k,
    let r := clips_loop format_value w worker s crop mapping ext base total k segs in
    (forall c, In (ProcTrim c) (snd r) ->
       (k <= clip c < k + List.length segs)%nat /\
       trim_mode c = video_mode s /\
       forall j, (k <= j < clip c)%nat -> tool_succeeded (trim_run w j)) /\
    (forall clips out, ~ In (ProcMerge clips out) (snd r)).
Proof using Type.
  induction segs as [|[start end_] rest IH]; intros k r; subst r.
  - cbn [clips_loop ret fst snd]. split; [intros c []|intros clips out []].
  - cbn [clips_loop].
    destruct (worker && is_cancelled w (BeforeClip k)) eqn:Ec.
    { cbn [ret fst snd]. split; [intros c []|intros clips out []]. }
    specialize (IH (S k)). cbn zeta in IH. destruct IH as [IHa IHb].
    split.
    + intros c H.
      apply in_mbind in H. destruct H as [[]|[raw [_ H]]].
      apply in_mbind in H. destruct H as [[]|[output_name [_ H]]].
      apply in_mbind in H. destruct H as [H|[_ [_ H]]];
        [apply in_emit_if in H; discriminate H|].
      apply in_mbind in H. destruct H as [H|[_ [_ H]]];
        [apply in_emit_if in H; discriminate H|].
      apply in_mbind in H. destruct H as [H|[[] [Hok H]]].
      * apply trim_process in H; [|reflexivity]. injection H as ->.
        cbn [clip trim_mode List.length].
        split; [lia|]. split; [reflexivity|]. intros j Hj. lia.
      * destruct (IHa c H) as [Hr [Hm Hs]]. cbn [List.length].
        split; [lia|]. split; [exact Hm|].
        intros j Hj. destruct (Nat.eq_dec j k) as [->|Hne]; [|apply Hs; lia].
        apply trim_returns in Hok. cbn [clip] in Hok.
        destruct Hok as [Hok|[Hw [j' Hj']]]; [exact Hok|].
        rewrite (clips_loop_stopped base rest (S k) Hw) in H; [destruct H|].
        eapply cancelled_later; [exact Hj'|apply during_before_next].
    + intros clips out H.
      apply in_mbind in H. destruct H as [[]|[raw [_ H]]].
      apply in_mbind in H. destruct H as [[]|[output_name [_ H]]].
      apply in_mbind in H. destruct H as [H|[_ [_ H]]];
        [apply in_emit_if in H; discriminate H|].
      apply in_mbind in H. destruct H as [H|[_ [_ H]]];
        [apply in_emit_if in H; discriminate H|].
      apply in_mbind in H. destruct H as [H|[[] [Hok H]]].
      * apply trim_process in H; [discriminate H|reflexivity].
      * exact (IHb clips out H).
Qed.

(** Each trim of the loop writes to the file named by the template. *)
Lemma clips_loop_outputs (base : dict) (segs : list (Q * Q)) :
  forall k c,
    In (ProcTrim c)
       (snd (clips_loop format_value w worker s crop mapping ext base total k segs)) ->
    exists raw output_name,
      format_output_filename format_value (output_template s)
        (dict_union base
           [("num", PInt (Z.of_nat (clip c) + 1));
            ("start", PInt (PyStr.int_of_float (fst raw)));
            ("end", PInt (PyStr.int_of_float (snd raw)))])
      = Ok output_name /\
      output_video c = path_join (output_dir s) (output_name ++ ext)%string.
Proof using Type.
  induction segs as [|[start end_] rest IH]; intros k c; [intros []|].
  cbn [clips_loop].
  destruct (worker && is_cancelled w (BeforeClip k)); [intros []|].
  intro H.
  apply in_mbind in H. destruct H as [[]|[raw [_ H]]].
  apply in_mbind in H. destruct H as [[]|[output_name [Hname H]]].
  apply in_mbind in H. destruct H as [H|[_ [_ H]]];
    [apply in_emit_if in H; discriminate H|].
  apply in_mbind in H. destruct H as [H|[_ [_ H]]];
    [apply in_emit_if in H; discriminate H|].
  apply in_mbind in H. destruct H as [H|[[] [_ H]]].
  - apply trim_process in H; [|reflexivity]. injection H as ->.
    cbn [clip output_video]. exists raw, output_name. split; [exact Hname|reflexivity].
  - exact (IH (S k) c H).
Qed.

End Order.

(** *** A job whose tools all succeed *)






Section Completion.

Variable format_value : dict -> pyval -> string -> string -> result string.
Variables (w : World) (s : Settings) (worker : bool).
Hypothesis never_stopped : cancel_at w = None.




Variables (crop : option string) (mapping : list string) (ext : string) (total : Z).

Let temp (j : nat) : string :=
  path_join (temp_dir w) ("temp_" ++ pad3 (S j) ++ ext)%string.


End Completion.

Section Separate.

Variable format_value : dict -> pyval -> string -> string -> result string.
Variables (w : World) (s : Settings) (worker : bool).
Hypothesis never_stopped : cancel_at w = None.
Variables (crop : option string) (mapping : list string) (ext : string) (total : Z).
Variable base : dict.
Variable file_name : nat -> string.
Hypothesis formats :
  forall i raw,
    nth_error (segments_raw s) i = Some raw ->
    format_output_filename format_value (output_template s)
      (dict_union base
         [("num", PInt (Z.of_nat i + 1));
          ("start", PInt (PyStr.int_of_float (fst raw)));
          ("end", PInt (PyStr.int_of_float (snd raw)))])
    = Ok (file_name i).


End Separate.

(** *** The names of the temporary clips *)

Lemma digits_of_nat_acc (d : Decimal.uint) :
  forall acc : nat,
    PyStr.digits_value (Z.of_nat acc) (NilEmpty.string_of_uint d)
    = Z.of_nat (Nat.of_uint_acc d acc).
Proof.
  induction d; intro acc;
    cbn [NilEmpty.string_of_uint Nat.of_uint_acc PyStr.digits_value];
    [reflexivity|rewrite <- IHd; f_equal..];
    rewrite ?Nat2Z.inj_succ, Nat.tail_mul_spec, Nat2Z.inj_mul;
    match goal with
    | |- context [PyStr.digit_value ?c] =>
        let v := eval vm_compute in (PyStr.digit_value c) in
        change (PyStr.digit_value c) with v
    end; lia.
Qed.

Lemma digits_str_of_nat (n : nat) : PyStr.digits_value 0 (str_of_nat n) = Z.of_nat n.
Proof.
  unfold str_of_nat, NilZero.string_of_uint.
  pose proof (DecimalNat.Unsigned.of_to n) as Hof. unfold Nat.of_uint in Hof.
  destruct (Nat.to_uint n) eqn:E;
    [cbn in Hof; subst n; reflexivity|..];
    rewrite (digits_of_nat_acc _ 0%nat); now rewrite Hof.
Qed.

Lemma digits_pad3 (n : nat) : PyStr.digits_value 0 (pad3 n) = Z.of_nat n.
Proof.
  unfold pad3. destruct (String.length (str_of_nat n)) as [|[|[|m]]];
    apply digits_str_of_nat.
Qed.

Lemma append_cancel_l (p x y : string) : (p ++ x = p ++ y)%string -> x = y.
Proof.
  induction p as [|c p IH]; cbn [append]; intro H; [exact H|].
  injection H as H. now apply IH.
Qed.

Lemma length_append (x y : string) :
  String.length (x ++ y) = (String.length x + String.length y)%nat.
Proof. induction x as [|c x IH]; cbn [append String.length]; [reflexivity|now rewrite IH]. Qed.

Lemma append_cancel_r (e : string) :
  forall x y, (x ++ e = y ++ e)%string -> x = y.
Proof.
  induction x as [|c x IH]; intros [|c' y] H; cbn [append] in H.
  - reflexivity.
  - apply (f_equal String.length) in H. cbn [String.length] in H.
    rewrite length_append in H. lia.
  - apply (f_equal String.length) in H. cbn [String.length] in H.
    rewrite length_append in H. lia.
  - injection H as -> H. f_equal. now apply IH.
Qed.

(** *** POSIX paths *)

Lemma split_on_nonempty (sep : ascii) (s : string) :
  forall cur, PyStr.split_on sep cur s <> [].
Proof.
  induction s as [|c s IH]; intro cur; cbn [PyStr.split_on]; [discriminate|].
  destruct (Ascii.eqb c sep); [discriminate | apply IH].
Qed.

(** What has been read of the current component is a prefix of the first
    component found. *)
Lemma split_on_cur (sep : ascii) (s : string) :
  forall cur,
    PyStr.split_on sep cur s
    = match PyStr.split_on sep EmptyString s with
      | h :: t => (cur ++ h)%string :: t
      | [] => []
      end.
Proof.
  induction s as [|c s IH]; intro cur; cbn [PyStr.split_on].
  - now rewrite append_nil_r.
  - destruct (Ascii.eqb c sep); [now rewrite append_nil_r|].
    rewrite (IH (PyStr.snoc cur c)), (IH (PyStr.snoc EmptyString c)).
    destruct (PyStr.split_on sep EmptyString s) as [|h t]; [reflexivity|].
    unfold PyStr.snoc. now rewrite !append_assoc.
Qed.

Lemma split_on_app (sep : ascii) (x : string) :
  forall cur y,
    PyStr.split_on sep cur (x ++ y)
    = removelast (PyStr.split_on sep cur x)
      ++ PyStr.split_on sep (last (PyStr.split_on sep cur x) EmptyString) y.
Proof.
  induction x as [|c x IH]; intros cur y; [reflexivity|].
  rewrite append_cons. cbn [PyStr.split_on].
  destruct (Ascii.eqb c sep); [|apply IH].
  rewrite IH.
  pose proof (split_on_nonempty sep x EmptyString) as Hne.
  destruct (PyStr.split_on sep EmptyString x) as [|h t]; [contradiction|].
  reflexivity.
Qed.

Lemma split_on_plain (sep : ascii) (x : string) :
  PyStr.contains_char (fun c => Ascii.eqb c sep) x = false ->
  forall cur, PyStr.split_on sep cur x = [(cur ++ x)%string].
Proof.
  induction x as [|c x IH]; intros H cur; cbn [PyStr.split_on].
  - now rewrite append_nil_r.
  - cbn [PyStr.contains_char] in H. apply orb_false_iff in H. destruct H as [Hc Hx].
    rewrite Hc, (IH Hx). unfold PyStr.snoc. now rewrite append_assoc.
Qed.

Lemma lstrip_app (d x : string) :
  starts_with_slash x = false ->
  lstrip_slash (d ++ x) = (lstrip_slash d ++ x)%string.
Proof.
  intro Hx. induction d as [|c d IH].
  - cbn [append lstrip_slash]. destruct x as [|c x]; [reflexivity|].
    cbn [starts_with_slash] in Hx. cbn [lstrip_slash]. now rewrite Hx.
  - rewrite append_cons. cbn [lstrip_slash].
    destruct (Ascii.eqb c "/"%char); [exact IH | reflexivity].
Qed.

Lemma join_around (sep : string) (before after : list string) :
  exists pre post, forall m,
    join_with sep (before ++ m :: after) = (pre ++ m ++ post)%string.
Proof.
  induction before as [|a before [pre [post IH]]].
  - destruct after as [|x after].
    + exists EmptyString, EmptyString. intro m. cbn [app join_with append].
      now rewrite append_nil_r.
    + exists EmptyString, (sep ++ join_with sep (x :: after))%string. reflexivity.
  - exists (a ++ sep ++ pre)%string, post. intro m.
    rewrite <- app_comm_cons.
    assert (forall l, l <> [] -> join_with sep (a :: l) = (a ++ sep ++ join_with sep l)%string)
      as Hcons by (intros [|? ?] ?; [contradiction|reflexivity]).
    rewrite Hcons by (destruct before; discriminate).
    now rewrite IH, !append_assoc.
Qed.

Lemma filter_around {A : Type} (f : A -> bool) (before after : list A) (m : A) :
  f m = true ->
  filter f (before ++ m :: after) = filter f before ++ m :: filter f after.
Proof. intro H. rewrite filter_app. cbn [filter]. now rewrite H. Qed.

Lemma long_is_part (m : string) : (2 <= String.length m)%nat -> is_part m = true.
Proof.
  destruct m as [|c [|c' m]]; cbn [String.length]; try lia. intros _.
  unfold is_part. cbn [String.eqb]. destruct (Ascii.eqb c "."%char); reflexivity.
Qed.

(** The path of a name [u ++ e] joined to a directory [d], where [u] is
    free of slashes and two characters long at least: [u] ends up inside
    one part, around which nothing depends on [u]. *)
Lemma posix_str_around (d e : string) :
  exists pre post, forall u,
    PyStr.contains_char (fun c => Ascii.eqb c "/"%char) u = false ->
    (2 <= String.length u)%nat ->
    posix_str (d ++ u ++ e) = (pre ++ u ++ post)%string.
Proof.
  set (lD := PyStr.split_on "/" EmptyString (lstrip_slash d)).
  pose proof (split_on_nonempty "/" e EmptyString) as Hne.
  destruct (PyStr.split_on "/" EmptyString e) as [|e0 after] eqn:Ee; [contradiction|].
  clear Hne.
  destruct (join_around "/" (filter is_part (removelast lD)) (filter is_part after))
    as [pre [post Hjoin]].
  exists (posix_root d ++ pre ++ last lD EmptyString)%string, (e0 ++ post)%string.
  intros u Hu Hlen.
  assert (starts_with_slash (u ++ e) = false) as Hstart.
  { destruct u as [|c u]; [cbn [String.length] in Hlen; lia|].
    cbn [PyStr.contains_char] in Hu. apply orb_false_iff in Hu. apply Hu. }
  assert (posix_root (d ++ u ++ e) = posix_root d) as Hroot.
  { unfold posix_root. rewrite (lstrip_app d _ Hstart), !length_append.
    replace (String.length d + (String.length u + String.length e)
             - (String.length (lstrip_slash d) + (String.length u + String.length e)))%nat
      with (String.length d - String.length (lstrip_slash d))%nat by lia.
    reflexivity. }
  assert (posix_parts (d ++ u ++ e)
          = filter is_part (removelast lD)
            ++ ((last lD EmptyString ++ u) ++ e0)%string :: filter is_part after) as Hparts.
  { unfold posix_parts, PyStr.split. rewrite (lstrip_app d _ Hstart).
    rewrite split_on_app. fold lD.
    rewrite (split_on_app "/" u), (split_on_plain "/" u Hu). cbn [removelast last app].
    rewrite split_on_cur, Ee.
    apply filter_around, long_is_part.
    rewrite !length_append. lia. }
  unfold posix_str. rewrite Hroot, Hparts.
  specialize (Hjoin ((last lD EmptyString ++ u) ++ e0)%string).
  remember (filter is_part (removelast lD)
            ++ ((last lD EmptyString ++ u) ++ e0)%string :: filter is_part after)
    as parts eqn:Eparts.
  destruct parts as [|x parts].
  { destruct (filter is_part (removelast lD)); discriminate Eparts. }
  rewrite Hjoin.
  destruct (posix_root d); cbn [append]; now rewrite !append_assoc.
Qed.

Lemma slash_free_digits (s : string) :
  PyStr.all_digits s = true ->
  PyStr.contains_char (fun c => Ascii.eqb c "/"%char) s = false.
Proof.
  induction s as [|c s IH]; intro H; [reflexivity|].
  cbn [PyStr.all_digits] in H. apply andb_true_iff in H. destruct H as [Hc Hs].
  cbn [PyStr.contains_char]. rewrite (IH Hs), orb_false_r.
  destruct (Ascii.eqb_spec c "/"%char) as [->|_]; [discriminate Hc | reflexivity].
Qed.

Lemma all_digits_str_of_nat (n : nat) : PyStr.all_digits (str_of_nat n) = true.
Proof.
  unfold str_of_nat, NilZero.string_of_uint.
  destruct (Nat.to_uint n) eqn:E; [reflexivity|..];
    rewrite <- E; apply TimelineFacts.all_digits_of_uint.
Qed.

Lemma all_digits_pad3 (n : nat) : PyStr.all_digits (pad3 n) = true.
Proof.
  unfold pad3. destruct (String.length (str_of_nat n)) as [|[|[|m]]];
    rewrite ?all_digits_app; cbn [PyStr.all_digits PyStr.is_digit andb];
    try apply all_digits_str_of_nat.
Qed.

Lemma temp_clip_path_inj (w : World) (s : Settings) (i j : nat) :
  temp_clip_path w s i = temp_clip_path w s j -> i = j.
Proof.
  unfold temp_clip_path, path_join, posix_join.
  change (starts_with_slash ("temp_" ++ pad3 (S i) ++ video_extension_of s)) with false.
  change (starts_with_slash ("temp_" ++ pad3 (S j) ++ video_extension_of s)) with false.
  cbv iota.
  assert (forall n, PyStr.contains_char (fun c => Ascii.eqb c "/"%char)
                      ("temp_" ++ pad3 n) = false) as Hplain.
  { intro n. rewrite contains_char_app. cbn [PyStr.contains_char Ascii.eqb Bool.eqb orb].
    apply slash_free_digits, all_digits_pad3. }
  assert (forall n, (2 <= String.length ("temp_" ++ pad3 n))%nat) as Hlong.
  { intro n. rewrite length_append. cbn [String.length]. lia. }
  assert (forall d,
            posix_str (d ++ "temp_" ++ pad3 (S i) ++ video_extension_of s)
            = posix_str (d ++ "temp_" ++ pad3 (S j) ++ video_extension_of s) ->
            i = j) as Hsame.
  { intros d H.
    destruct (posix_str_around d (video_extension_of s)) as [pre [post Hpath]].
    replace ("temp_" ++ pad3 (S i) ++ video_extension_of s)%string
      with (("temp_" ++ pad3 (S i)) ++ video_extension_of s)%string in H
      by apply append_assoc.
    replace ("temp_" ++ pad3 (S j) ++ video_extension_of s)%string
      with (("temp_" ++ pad3 (S j)) ++ video_extension_of s)%string in H
      by apply append_assoc.
    rewrite (Hpath _ (Hplain (S i)) (Hlong (S i))),
            (Hpath _ (Hplain (S j)) (Hlong (S j))) in H.
    apply append_cancel_l, append_cancel_r, append_cancel_l in H.
    apply (f_equal (PyStr.digits_value 0)) in H. rewrite !digits_pad3 in H. lia. }
  destruct (String.eqb (temp_dir w) "" || ends_with_slash (temp_dir w)).
  - apply Hsame.
  - rewrite <- !(append_assoc (temp_dir w) "/"). apply Hsame.
Qed.

End JobLaws.

(** ** The export job as a whole *)

Module Jobs.
Import PyList PyListFacts Engine EngineFacts TemplateFacts Observations JobLaws Demo.

(** X17. No trim and no merge is started before the job is validated: a
    trace that shows either of them comes from a job with at least one
    segment, an input file that exists, a probe that succeeded, a frame
    rate that is not zero when the segments are given in frames, and,
    with automatic cropping, an ffmpeg that was found. *)
Theorem no_tool_before_validation
  (format_value : dict -> pyval -> string -> string -> result string)
  (w : World) (s : Settings) (worker : bool) :
  existsb is_trim_or_merge (snd (run_powertrim_job format_value w s worker)) = true ->
  segments_raw s <> [] /\
  input_is_file w = true /\
  exists meta,
    probe w = ProbeOk meta /\
    (mode s = "frames" -> ~ (fps meta == 0)%Q) /\
    (autocrop s = true -> cropdetect w <> CropToolMissing).
Proof.
  unfold run_powertrim_job, get_video_metadata.
  destruct (segments_raw s) as [|raw0 raws]; [discriminate|].
  destruct (input_is_file w); [|discriminate]. cbn [negb].
  destruct (probe w) as [|msg|meta]; [discriminate|discriminate|].
  cbn [mbind log ret app].
  destruct (String.eqb (mode s) "frames" && Qeq_bool (fps meta) 0) eqn:Efps;
    [discriminate|].
  intro H. split; [discriminate|]. split; [reflexivity|].
  exists meta. split; [reflexivity|]. split.
  - intros Hm Hz. rewrite Hm in Efps. apply Qeq_bool_iff in Hz.
    rewrite Hz in Efps. discriminate Efps.
  - intros Ha Hc. rewrite Ha in H. unfold detect_black_bars in H. rewrite Hc in H.
    destruct worker; discriminate H.
Qed.

Lemma no_tool_before_validation_witness :
  segments_raw (demo_settings "{bogus}" true "copy") <> [] /\
  input_is_file (demo_world [] None) = true /\
  exists meta,
    probe (demo_world [] None) = ProbeOk meta /\
    (mode (demo_settings "{bogus}" true "copy") = "frames" -> ~ (fps meta == 0)%Q) /\
    (autocrop (demo_settings "{bogus}" true "copy") = true ->
     cropdetect (demo_world [] None) <> CropToolMissing).
Proof.
  apply (no_tool_before_validation plain_format (demo_world [] None)
           (demo_settings "{bogus}" true "copy") true).
  reflexivity.
Defined.

(** X18. Without a worker the job never reads the cancellation flag and
    emits no signal: its result and its trace are the same whenever
    [stop()] is called, or if it never is, and every event of the trace
    is a started process. *)
Theorem job_without_worker
  (format_value : dict -> pyval -> string -> string -> result string)
  (w : World) (s : Settings) :
  (forall c, run_powertrim_job format_value (set_cancel c w) s false
             = run_powertrim_job format_value w s false) /\
  (forall e, In e (snd (run_powertrim_job format_value w s false)) ->
             is_process e = true).
Proof.
  split; [intro c; apply job_unwatched|].
  intros e He.
  pose proof (job_no format_value w s false (fun e => negb (is_process e))
                eq_refl eq_refl (fun _ => eq_refl) (fun _ _ => eq_refl)) as H.
  specialize (H ltac:(discriminate) ltac:(discriminate) ltac:(discriminate)).
  destruct (is_process e) eqn:E; [reflexivity|].
  assert (existsb (fun e => negb (is_process e))
            (snd (run_powertrim_job format_value w s false)) = true) as H'.
  { apply existsb_exists. exists e. split; [exact He|]. now rewrite E. }
  congruence.
Qed.

Lemma last_is_terminal (tr : Trace) (t e : Event) (pre post : Trace) :
  existsb is_terminal tr = false ->
  tr ++ [t] = pre ++ e :: post -> is_terminal e = true -> post = [].
Proof.
  revert pre. induction tr as [|x tr IH]; intros pre Hq E He.
  - destruct pre as [|y pre]; cbn in E.
    + now injection E as _ <-.
    + injection E as _ E. now destruct pre.
  - cbn [existsb] in Hq. apply orb_false_iff in Hq. destruct Hq as [Hx Hq].
    destruct pre as [|y pre]; cbn in E; injection E as E1 E2.
    + congruence.
    + now apply (IH pre).
Qed.

(** X19. The export worker ends with at most one of the signals
    [finished] and [error], and nothing follows it: the job itself emits
    neither.  One of the two is emitted whenever the flag is not set
    after the job, and a job that raised always ends with [error]
    carrying the text of the exception, cancelled or not. *)
Theorem export_worker_terminal_signal
  (format_value : dict -> pyval -> string -> string -> result string)
  (w : World) (s : Settings) :
  (forall pre e post,
     Gui.ExportWorker_run format_value w s = pre ++ e :: post ->
     is_terminal e = true -> post = []) /\
  (is_cancelled w AfterJob = false ->
   exists pre e, Gui.ExportWorker_run format_value w s = pre ++ [e] /\
                 is_terminal e = true) /\
  (forall x, fst (run_powertrim_job format_value w s true) = Raise x ->
     exists pre, Gui.ExportWorker_run format_value w s
                 = pre ++ [error (Gui.exn_str x)]).
Proof.
  pose proof (job_no format_value w s true is_terminal
                eq_refl eq_refl (fun _ => eq_refl) (fun _ _ => eq_refl)
                (fun _ _ => eq_refl) (fun _ _ => eq_refl) (fun _ _ _ => eq_refl)) as Hq.
  unfold Gui.ExportWorker_run.
  destruct (run_powertrim_job format_value w s true) as [[path|x] tr];
    cbn [fst snd] in *.
  - split; [|split].
    + intros pre e post E He.
      destruct (is_cancelled w AfterJob); cbn [negb] in E.
      * rewrite E in Hq. rewrite existsb_app in Hq. apply orb_false_iff in Hq.
        destruct Hq as [_ Hq]. cbn [existsb] in Hq. apply orb_false_iff in Hq.
        destruct Hq. congruence.
      * eapply last_is_terminal; eassumption.
    + intros ->. cbn [negb]. now exists tr, (finished path).
    + intros x Hx. discriminate Hx.
  - split; [|split].
    + intros pre e post E He. eapply last_is_terminal; eassumption.
    + intros _. now exists tr, (error (Gui.exn_str x)).
    + intros y Hy. injection Hy as <-. now exists tr.
Qed.

Lemma export_worker_terminal_signal_witness :
  exists pre e,
    Gui.ExportWorker_run plain_format (demo_world [] None)
      (demo_settings "clip_{bogus}" false "copy")
    = pre ++ [e] /\ is_terminal e = true.
Proof.
  apply (proj1 (proj2 (export_worker_terminal_signal plain_format (demo_world [] None)
                         (demo_settings "clip_{bogus}" false "copy")))).
  reflexivity.
Defined.

Lemma merge_process (w : World) (clips : list string) (out : string) (e : Event) :
  In e (snd (merge_videos w clips out)) -> e = ProcMerge clips out.
Proof.
  unfold merge_videos. destruct (tool_missing (merge_run w)); [intros []|].
  intro H. apply in_mbind in H. destruct H as [[H|[]]|[_ [_ H]]]; [now symmetry|].
  destruct (returncode (merge_run w) =? 0); destruct H.
Qed.

Lemma length_in_seconds (frames : bool) (rate : Q) (raw : list (Q * Q)) :
  List.length (if frames
               then map (fun x => (fst x / rate, snd x / rate)%Q) raw
               else raw) = List.length raw.
Proof. destruct frames; [apply length_map|reflexivity]. Qed.

(** X20. The tools are started in order and only after what came before
    succeeded: a trim of clip [n] is in the trace only if the clip exists
    and the tools of all earlier clips were found and exited with code 0
    (in particular nothing follows a failed or a cancelled clip), and a
    merge is started only by a merging job, after the tools of all
    clips succeeded, on the temporary files of the clips in their order
    and with the output file of the settings. *)
Theorem tools_start_in_order
  (format_value : dict -> pyval -> string -> string -> result string)
  (w : World) (s : Settings) (worker : bool) :
  (forall c, In (ProcTrim c) (snd (run_powertrim_job format_value w s worker)) ->
     (clip c < List.length (segments_raw s))%nat /\
     trim_mode c = video_mode s /\
     forall j, (j < clip c)%nat -> tool_succeeded (trim_run w j)) /\
  (forall clips out,
     In (ProcMerge clips out) (snd (run_powertrim_job format_value w s worker)) ->
     merge s = true /\
     out = output_file s /\
     clips = map (temp_clip_path w s) (seq 0 (List.length (segments_raw s))) /\
     forall j, (j < List.length (segments_raw s))%nat ->
               tool_succeeded (trim_run w j)).
Proof.
  unfold run_powertrim_job.
  destruct (segments_raw s) as [|raw0 raws] eqn:Eraw;
    [split; [intros c []|intros clips out []]|].
  assert (forall e, In e (snd (get_video_metadata w)) -> is_trim_or_merge e = false)
    as Hmeta.
  { intros e He. destruct (metadata_trace w) as [E|E]; rewrite E in He.
    - destruct He.
    - destruct He as [<-|[]]. reflexivity. }
  assert (forall e, In e (snd (if autocrop s then detect_black_bars w worker
                               else ret None)) -> is_trim_or_merge e = false)
    as Hcrop.
  { intros e He. destruct (autocrop s); [|destruct He].
    eapply not_in_quiet; [|exact He].
    apply (crop_no w worker is_trim_or_merge); auto. }
  split.
  - intros c H.
    apply in_mbind in H. destruct H as [H|[meta [_ H]]];
      [apply Hmeta in H; discriminate H|].
    destruct (String.eqb (mode s) "frames" && Qeq_bool (fps meta) 0); [destruct H|].
    apply in_mbind in H. destruct H as [H|[crop [_ H]]];
      [apply Hcrop in H; discriminate H|].
    destruct (merge s).
    + apply in_mbind in H. destruct H as [H|[r [_ H]]].
      * apply merge_loop_order in H. rewrite length_in_seconds in H.
        destruct H as [Hr [Hm [_ Hs]]].
        split; [lia|]. split; [exact Hm|]. intros j Hj. apply Hs. lia.
      * destruct (fst r); [destruct H|].
        destruct (worker && is_cancelled w AfterClips); [destruct H|].
        apply in_mbind in H. destruct H as [H|[_ [_ H]]];
          [apply in_emit_if in H; discriminate H|].
        apply in_mbind in H. destruct H as [H|[_ [_ []]]].
        apply merge_process in H. discriminate H.
    + apply in_mbind in H. destruct H as [H|[r [_ H]]].
      * apply clips_loop_order in H. rewrite length_in_seconds in H.
        destruct H as [Hr [Hm Hs]].
        split; [lia|]. split; [exact Hm|]. intros j Hj. apply Hs. lia.
      * destruct r; destruct H.
  - intros clips out H.
    apply in_mbind in H. destruct H as [H|[meta [_ H]]];
      [apply Hmeta in H; discriminate H|].
    destruct (String.eqb (mode s) "frames" && Qeq_bool (fps meta) 0); [destruct H|].
    apply in_mbind in H. destruct H as [H|[crop [_ H]]];
      [apply Hcrop in H; discriminate H|].
    destruct (merge s).
    + apply in_mbind in H. destruct H as [H|[[early paths] [Hr H]]].
      * now apply merge_loop_order in H.
      * cbn [fst snd] in H. destruct early as [early|]; [destruct H|].
        destruct (worker && is_cancelled w AfterClips) eqn:Ec; [destruct H|].
        apply in_mbind in H. destruct H as [H|[_ [_ H]]];
          [apply in_emit_if in H; discriminate H|].
        apply in_mbind in H. destruct H as [H|[_ [_ []]]].
        apply merge_process in H. injection H as -> ->.
        apply merge_loop_order in Hr. rewrite length_in_seconds in Hr.
        destruct Hr as [Hp Hs]. cbn [app] in Hp.
        split; [reflexivity|]. split; [reflexivity|]. split; [exact Hp|].
        intros j Hj. destruct (Hs j ltac:(lia)) as [Hok|[Hw Hc]]; [exact Hok|].
        rewrite Hw, Hc in Ec. discriminate Ec.
    + apply in_mbind in H. destruct H as [H|[r [_ H]]].
      * now apply clips_loop_order in H.
      * destruct r; destruct H.
Qed.

Lemma tools_start_in_order_witness :
  ((clip (mkTrimCall 1 "/tmp/job/temp_002.mkv" (100 # 25) (250 # 25) "copy" None
            ["-map"; "0:0"; "-map"; "0:1"; "-disposition:a:0"; "default"; "-sn"])
    < List.length (segments_raw (demo_settings "x" true "copy")))%nat /\
   trim_mode (mkTrimCall 1 "/tmp/job/temp_002.mkv" (100 # 25) (250 # 25) "copy" None
                ["-map"; "0:0"; "-map"; "0:1"; "-disposition:a:0"; "default"; "-sn"])
   = video_mode (demo_settings "x" true "copy") /\
   forall j, (j < 1)%nat -> tool_succeeded (trim_run (demo_world [] None) j)) /\
  (merge (demo_settings "x" true "copy") = true /\
   "/out/merged.mp4" = output_file (demo_settings "x" true "copy") /\
   ["/tmp/job/temp_001.mkv"; "/tmp/job/temp_002.mkv"]
   = map (temp_clip_path (demo_world [] None) (demo_settings "x" true "copy"))
       (seq 0 (List.length (segments_raw (demo_settings "x" true "copy")))) /\
   forall j, (j < List.length (segments_raw (demo_settings "x" true "copy")))%nat ->
             tool_succeeded (trim_run (demo_world [] None) j)).
Proof.
  split.
  - apply (proj1 (tools_start_in_order plain_format (demo_world [] None)
                    (demo_settings "x" true "copy") true)).
    vm_compute. tauto.
  - apply (proj2 (tools_start_in_order plain_format (demo_world [] None)
                    (demo_settings "x" true "copy") true)).
    vm_compute. tauto.
Defined.







(** The value of a template without [num], [start] and [end] does not
    depend on what these three are bound to. *)
Lemma expansion_fixed (base : dict) (ps : list piece) (n1 s1 e1 n2 s2 e2 : pyval) :
  (forall name, In (Field name) ps -> varies_by_clip name = false) ->
  expansion (dict_union base [("num", n1); ("start", s1); ("end", e1)]) ps
  = expansion (dict_union base [("num", n2); ("start", s2); ("end", e2)]) ps.
Proof.
  induction ps as [|p ps IH]; intro H; [reflexivity|].
  assert (expansion (dict_union base [("num", n1); ("start", s1); ("end", e1)]) ps
          = expansion (dict_union base [("num", n2); ("start", s2); ("end", e2)]) ps)
    as E by (apply IH; intros name Hn; apply H; now right).
  destruct p as [t| | |name]; cbn [expansion]; rewrite E; try reflexivity.
  specialize (H name (or_introl eq_refl)). unfold varies_by_clip in H.
  apply orb_false_iff in H. destruct H as [H H3].
  apply orb_false_iff in H. destruct H as [H1 H2].
  rewrite String.eqb_sym in H1, H2, H3.
  unfold dict_union. cbn [app dict_get]. now rewrite H1, H2, H3.
Qed.

(** Where a job that writes separate clips starts a trim, when its
    template names none of [num], [start] and [end]. *)
Lemma separate_job_output
  (format_value : dict -> pyval -> string -> string -> result string)
  (w : World) (s : Settings) (worker : bool) (ps : list piece) (c : TrimCall) :
  merge s = false ->
  output_template s = template_of ps ->
  Forall piece_known ps ->
  (forall name, In (Field name) ps -> varies_by_clip name = false) ->
  In (ProcTrim c) (snd (run_powertrim_job format_value w s worker)) ->
  exists meta,
    fst (get_video_metadata w) = Ok meta /\
    output_video c = clip_path w s meta ps 0.
Proof.
  intros Hmerge Htpl Hps Hconst. unfold run_powertrim_job.
  destruct (segments_raw s) as [|raw0 raws] eqn:Eraw; [intros []|].
  rewrite Hmerge. intro H.
  apply in_mbind in H. destruct H as [H|[meta [Hmeta H]]].
  { destruct (metadata_trace w) as [E|E]; rewrite E in H;
      [destruct H | destruct H as [H|[]]; discriminate H]. }
  exists meta. split; [exact Hmeta|].
  destruct (String.eqb (mode s) "frames" && Qeq_bool (fps meta) 0); [destruct H|].
  apply in_mbind in H. destruct H as [H|[crop [_ H]]].
  { exfalso. destruct (autocrop s); [|destruct H].
    pose proof (crop_no w worker is_trim_or_merge eq_refl (fun _ _ => eq_refl)) as Hq.
    pose proof (not_in_quiet _ _ _ Hq H) as Hc. discriminate Hc. }
  apply in_mbind in H. destruct H as [H|[r [_ H]]];
    [|destruct r; destruct H].
  apply clips_loop_outputs in H. destruct H as [raw [output_name [Hname ->]]].
  unfold clip_path. f_equal. f_equal.
  set (data := dict_union _ _) in Hname.
  assert (Forall (piece_ok data) ps) as Hok.
  { eapply Forall_impl; [|exact Hps]. intros [t| | |name]; cbn [piece_known piece_ok]; auto.
    intros [Hplain Hin]. split; [exact Hplain|].
    unfold known_placeholders in Hin. cbn [In] in Hin.
    repeat (destruct Hin as [<-|Hin]; [eexists; reflexivity|]).
    destruct Hin. }
  unfold format_output_filename, str_format in Hname.
  rewrite Htpl, (TemplateFacts.scan_pieces format_value data ps Hok) in Hname.
  cbn [bind scan_end] in Hname. injection Hname as <-.
  subst data. unfold clip_data. apply expansion_fixed, Hconst.
Qed.

(** X23. A template that names none of the placeholders [num], [start]
    and [end] gives every clip the same file: whatever the world does,
    any two trims that a job writing separate clips starts are started
    on one and the same output path. *)
Theorem clips_share_one_file_without_number
  (format_value : dict -> pyval -> string -> string -> result string)
  (w : World) (s : Settings) (worker : bool) (ps : list piece) (c1 c2 : TrimCall) :
  merge s = false ->
  output_template s = template_of ps ->
  Forall piece_known ps ->
  (forall name, In (Field name) ps -> varies_by_clip name = false) ->
  In (ProcTrim c1) (snd (run_powertrim_job format_value w s worker)) ->
  In (ProcTrim c2) (snd (run_powertrim_job format_value w s worker)) ->
  output_video c1 = output_video c2.
Proof.
  intros Hmerge Htpl Hps Hconst H1 H2.
  destruct (separate_job_output format_value w s worker ps c1 Hmerge Htpl Hps Hconst H1)
    as [meta1 [E1 ->]].
  destruct (separate_job_output format_value w s worker ps c2 Hmerge Htpl Hps Hconst H2)
    as [meta2 [E2 ->]].
  rewrite E1 in E2. injection E2 as ->. reflexivity.
Qed.

Lemma clips_share_one_file_without_number_witness :
  exists c1 c2,
    trim_calls (snd (run_powertrim_job plain_format (demo_world [] None)
                       (demo_settings "{filename}_{date}" false "copy") true))
    = [c1; c2] /\
    clip c1 = 0%nat /\ clip c2 = 1%nat /\
    output_video c1 = "/out/movie_2025-01-01.mkv" /\
    output_video c1 = output_video c2.
Proof.
  eexists. eexists. split; [vm_compute; reflexivity|].
  split; [reflexivity|]. split; [reflexivity|]. split; [reflexivity|].
  apply (clips_share_one_file_without_number plain_format (demo_world [] None)
           (demo_settings "{filename}_{date}" false "copy") true
           [Field "filename"; Text "_"; Field "date"]).
  - reflexivity.
  - reflexivity.
  - repeat constructor; cbn; tauto.
  - intros name [H|[H|[H|[]]]]; try discriminate H; injection H as <-; reflexivity.
  - vm_compute. tauto.
  - vm_compute. tauto.
Defined.

Lemma merging_job_outputs
  (format_value : dict -> pyval -> string -> string -> result string)
  (w : World) (s : Settings) (worker : bool) (c : TrimCall) :
  merge s = true ->
  In (ProcTrim c) (snd (run_powertrim_job format_value w s worker)) ->
  output_video c = temp_clip_path w s (clip c).
Proof.
  intro Hmerge. unfold run_powertrim_job. rewrite Hmerge.
  destruct (segments_raw s) as [|raw0 raws] eqn:Eraw; [intros []|].
  intro H.
  apply in_mbind in H. destruct H as [H|[meta [_ H]]].
  { destruct (metadata_trace w) as [E|E]; rewrite E in H.
    - destruct H.
    - destruct H as [H|[]]. discriminate H. }
  destruct (String.eqb (mode s) "frames" && Qeq_bool (fps meta) 0); [destruct H|].
  apply in_mbind in H. destruct H as [H|[crop [_ H]]].
  { destruct (autocrop s); [|destruct H].
    pose proof (crop_no w worker is_trim_or_merge eq_refl (fun _ _ => eq_refl)) as Hq.
    pose proof (not_in_quiet _ _ _ Hq H) as Hn. discriminate Hn. }
  apply in_mbind in H. destruct H as [H|[r [_ H]]].
  - apply merge_loop_order in H. destruct H as [_ [_ [Ho _]]]. exact Ho.
  - destruct (fst r); [destruct H|].
    destruct (worker && is_cancelled w AfterClips); [destruct H|].
    apply in_mbind in H. destruct H as [H|[_ [_ H]]];
      [apply in_emit_if in H; discriminate H|].
    apply in_mbind in H. destruct H as [H|[_ [_ []]]].
    apply merge_process in H. discriminate H.
Qed.

(** X24. In a merging job no temporary clip is written over another: two
    trims of the trace that write to the same file are trims of the same
    clip, the file of a clip being named after its number. *)
Theorem temporary_clips_never_collide
  (format_value : dict -> pyval -> string -> string -> result string)
  (w : World) (s : Settings) (worker : bool) (c1 c2 : TrimCall) :
  merge s = true ->
  In (ProcTrim c1) (snd (run_powertrim_job format_value w s worker)) ->
  In (ProcTrim c2) (snd (run_powertrim_job format_value w s worker)) ->
  output_video c1 = output_video c2 ->
  clip c1 = clip c2.
Proof.
  intros Hmerge H1 H2 E.
  apply (merging_job_outputs format_value w s worker c1 Hmerge) in H1.
  apply (merging_job_outputs format_value w s worker c2 Hmerge) in H2.
  rewrite H1, H2 in E. now apply temp_clip_path_inj in E.
Qed.

Lemma temporary_clips_never_collide_witness :
  clip (mkTrimCall 1 "/tmp/job/temp_002.mkv" (100 # 25) (250 # 25) "copy" None
          ["-map"; "0:0"; "-map"; "0:1"; "-disposition:a:0"; "default"; "-sn"])
  = clip (mkTrimCall 1 "/tmp/job/temp_002.mkv" (100 # 25) (250 # 25) "copy" None
            ["-map"; "0:0"; "-map"; "0:1"; "-disposition:a:0"; "default"; "-sn"]).
Proof.
  apply (temporary_clips_never_collide plain_format (demo_world [] None)
           (demo_settings "x" true "copy") true).
  - reflexivity.
  - vm_compute. tauto.
  - vm_compute. tauto.
  - reflexivity.
Defined.

End Jobs.

(** ** Editing one segment and loading a video *)

Module Editing.
Import PyList PyListFacts Gui GuiFacts Handlers HandlersFacts Demo.

Lemma getitem_inv {A : Type} (l : list A) (i : Z) (x : A) :
  0 <= i -> getitem l i = Ok x -> nth_error l (Z.to_nat i) = Some x.
Proof.
  intros Hi. unfold getitem.
  replace (i <? 0) with false by (symmetry; apply Z.ltb_ge; lia).
  destruct ((0 <=? i) && (i <? len l)); [|discriminate].
  destruct (nth_error l (Z.to_nat i)); [|discriminate].
  intro H. now injection H as ->.
Qed.

(** One step of the undo manager on a valid update of row [r]. *)
Lemma update_step (r : nat) (seg : Segment) (new : SegData) (a : App) :
  nth_error (segments (sm a)) r = Some seg -> named seg ->
  exists a1,
    um_execute (UpdateSegmentCommand (Z.of_nat r) (data_of seg) new) a = Ok a1 /\
    segments (sm a1) = set_nth r (Segment_of_data new) (segments (sm a)) /\
    undo_stack a1
    = undo_stack a ++ [UpdateSegmentCommand (Z.of_nat r) (data_of seg) new] /\
    redo_stack a1 = [] /\
    reversible (UpdateSegmentCommand (Z.of_nat r) (data_of seg) new)
      (segments (sm a)) (segments (sm a1)).
Proof.
  intros En Hn.
  pose proof (update_reversible (Z.of_nat r) seg new (segments (sm a))) as Hrev.
  rewrite Nat2Z.id in Hrev. specialize (Hrev ltac:(lia) En Hn).
  destruct (proj1 Hrev (sm a) eq_refl) as [st' [Hex Est']].
  destruct (um_execute_ok _ _ a _ Hex) as [a1 [Ha1 [Eseg [EU ER]]]].
  exists a1. rewrite Eseg, Est'. repeat split; try assumption; apply Hrev.
Qed.

Lemma data_eqb_eq (x y : SegData) : data_eqb x y = true <-> x = y.
Proof.
  destruct x as [[[s1 e1] c1] n1], y as [[[s2 e2] c2] n2]. unfold data_eqb.
  rewrite !andb_true_iff, !Z.eqb_eq, !String.eqb_eq. split.
  - intros [[[-> ->] ->] ->]. reflexivity.
  - intro H. injection H as -> -> -> ->. repeat split.
Qed.

(** X25. Editing the properties of the current row.  Without a current
    row, or when the new start is not before the new end, nothing
    changes.  Else, on a row of the list: when the frames and the name
    are those the segment has, nothing changes; when one of them
    differs, the row alone is replaced, by a segment with the new frames
    and name and the old colour, one command is added to the undo stack,
    the redo stack is emptied, and one [undo] gives back the segments as
    they were.  On a row beyond the list the handler raises
    [IndexError]. *)
Theorem properties_edit_is_checked_and_reversible
  (row new_start new_end : Z) (new_name : string) (a : App) :
  constructed (segments (sm a)) ->
  (row < 0 \/ new_end <= new_start ->
   apply_properties_changes row new_start new_end new_name a = Ok a) /\
  (forall seg,
     0 <= row -> new_start < new_end ->
     nth_error (segments (sm a)) (Z.to_nat row) = Some seg ->
     (data_of seg = (new_start, new_end, color seg, new_name) ->
      apply_properties_changes row new_start new_end new_name a = Ok a) /\
     (data_of seg <> (new_start, new_end, color seg, new_name) ->
      exists a' a2,
        apply_properties_changes row new_start new_end new_name a = Ok a' /\
        segments (sm a')
        = set_nth (Z.to_nat row) (new_Segment new_start new_end (color seg) new_name)
            (segments (sm a)) /\
        undo_stack a'
        = undo_stack a
          ++ [UpdateSegmentCommand row (data_of seg)
                (new_start, new_end, color seg, new_name)] /\
        redo_stack a' = [] /\
        um_undo a' = Ok a2 /\
        segments (sm a2) = segments (sm a))) /\
  (0 <= row -> new_start < new_end ->
   nth_error (segments (sm a)) (Z.to_nat row) = None ->
   exists msg,
     apply_properties_changes row new_start new_end new_name a = Raise (IndexError msg)).
Proof.
  intros Hc. unfold apply_properties_changes, get_all_segments.
  split; [|split].
  - intros [H|H].
    + replace (row <? 0) with true by (symmetry; apply Z.ltb_lt; lia). reflexivity.
    + destruct (row <? 0); [reflexivity|].
      replace (new_end <=? new_start) with true by (symmetry; apply Z.leb_le; lia).
      reflexivity.
  - intros seg Hrow Hord Eg.
    replace (row <? 0) with false by (symmetry; apply Z.ltb_ge; lia).
    replace (new_end <=? new_start) with false by (symmetry; apply Z.leb_gt; lia).
    rewrite (getitem_index (segments (sm a)) row seg) by (try lia; exact Eg).
    cbn [bind].
    split.
    + intro E. apply data_eqb_eq in E. rewrite E. reflexivity.
    + intro E.
      destruct (data_eqb (data_of seg) (new_start, new_end, color seg, new_name)) eqn:Eb;
        [apply data_eqb_eq in Eb; contradiction|].
      cbn [negb].
      assert (named seg) as Hn.
      { unfold constructed in Hc. rewrite Forall_forall in Hc.
        apply Hc. eapply nth_error_In; eassumption. }
      destruct (update_step (Z.to_nat row) seg
                  (new_start, new_end, color seg, new_name) a Eg Hn)
        as [a1 [Ha1 [Eseg [EU [ER Hrev]]]]].
      rewrite Z2Nat.id in Ha1, EU, Hrev by exact Hrow.
      destruct (um_undo_step a1 (undo_stack a) _ _ _ EU Hrev eq_refl)
        as [a2 [Ha2 [Es2 _]]].
      exists a1, a2. repeat split; assumption.
  - intros Hrow Hord Eg.
    replace (row <? 0) with false by (symmetry; apply Z.ltb_ge; lia).
    replace (new_end <=? new_start) with false by (symmetry; apply Z.leb_gt; lia).
    unfold getitem.
    replace (row <? 0) with false by (symmetry; apply Z.ltb_ge; lia).
    rewrite Eg. eexists.
    destruct ((0 <=? row) && (row <? len (segments (sm a)))); reflexivity.
Qed.

Lemma properties_edit_is_checked_and_reversible_witness :
  apply_properties_changes 1 18 12 "" demo_app = Ok demo_app /\
  apply_properties_changes 1 10 20 "B" demo_app = Ok demo_app /\
  (exists a' a2,
     apply_properties_changes 1 12 18 "" demo_app = Ok a' /\
     segments (sm a')
     = set_nth 1 (new_Segment 12 18 "blue" "") (segments (sm demo_app)) /\
     undo_stack a'
     = undo_stack demo_app
       ++ [UpdateSegmentCommand 1 (10, 20, "blue", "B") (12, 18, "blue", "")] /\
     redo_stack a' = [] /\
     um_undo a' = Ok a2 /\
     segments (sm a2) = segments (sm demo_app)) /\
  exists msg, apply_properties_changes 7 12 18 "" demo_app = Raise (IndexError msg).
Proof.
  assert (constructed (segments (sm demo_app))) as Hc
    by (repeat constructor; discriminate).
  destruct (properties_edit_is_checked_and_reversible 1 18 12 "" demo_app Hc)
    as [Refused _].
  destruct (properties_edit_is_checked_and_reversible 1 10 20 "B" demo_app Hc)
    as [_ [Same _]].
  destruct (properties_edit_is_checked_and_reversible 1 12 18 "" demo_app Hc)
    as [_ [Changed _]].
  destruct (properties_edit_is_checked_and_reversible 7 12 18 "" demo_app Hc)
    as [_ [_ Beyond]].
  split; [|split; [|split]].
  - apply Refused. right. lia.
  - apply (Same (new_Segment 10 20 "blue" "B")); try lia; reflexivity.
  - apply (Changed (new_Segment 10 20 "blue" "B")); try lia; try reflexivity.
    intro H. discriminate H.
  - apply Beyond; try lia; reflexivity.
Defined.

Lemma undo_redo_nothing (calls : list bool) :
  forall a, undo_stack a = [] -> redo_stack a = [] ->
    exists a2, undo_redo calls a = Ok a2 /\
      segments (sm a2) = segments (sm a) /\
      undo_stack a2 = [] /\ redo_stack a2 = [].
Proof.
  induction calls as [|[|] calls IH]; intros a HU HR; [now exists a| |];
    cbn [undo_redo];
    rewrite ?(SegmentStore.um_undo_empty a HU), ?(SegmentStore.um_redo_empty a HR);
    cbn [bind];
    destruct (IH (emit_app command_executed a) HU HR) as [a2 [E1 E2]];
    now exists a2.
Qed.

(** X26. Loading a video forgets the segments and the history: the store
    is empty, both stacks are empty, the marks are reset and the palette
    starts over, and no sequence of calls of [undo] and [redo] brings a
    segment of the previous video back. *)
Theorem load_video_forgets_history (m : Marks) (a : App) (calls : list bool) :
  segments (sm (snd (load_video m a))) = [] /\
  undo_stack (snd (load_video m a)) = [] /\
  redo_stack (snd (load_video m a)) = [] /\
  fst (load_video m a) = mkMarks (-1) (-1) 0 0 /\
  exists a2,
    undo_redo calls (snd (load_video m a)) = Ok a2 /\
    segments (sm a2) = [] /\ undo_stack a2 = [] /\ redo_stack a2 = [].
Proof.
  repeat (split; [reflexivity|]).
  apply (undo_redo_nothing calls (snd (load_video m a))); reflexivity.
Qed.

End Editing.
